(** * EMPRESA: revenue normalisation, monthly aggregation and tax estimate

    A shallow embedding of the accounting core of [src/app.py]:
    [parse_event_title], [_build_concerts_from_local], [_to_float],
    [_calc_irc] and [_build_contabilidade].

    - Python [str] values are lists of Unicode code points.
    - Python [float] values are binary64 numbers (Rocq's primitive floats);
      [round(x, n)] is modelled exactly on their [SpecFloat] view.
    - Python dictionaries keyed by [(year, month)] are [gmap]s; the
      per-category dictionary, whose insertion order is visible in the
      output, is an association list.
    - The interpreter functions the code calls and whose behaviour depends
      on the Unicode database, the C library or the Python version
      ([float(s)], [datetime.fromisoformat], [datetime.strptime],
      [strftime], Unicode alphanumerics for the regex class [\w]) are the
      fields of the class [Runtime]; an instance for plain ASCII text is
      given so that everything can be evaluated.
    - The stores the routes read and write (events, overrides, deleted
      events, distance cache, agencies, category corrections) are passed
      explicitly; the events, whose order is visible, are a list of pairs
      with distinct keys.  The two web services behind
      [driving_distance_km], the writing of its cache file, and the
      current instant and the parser of date-times of
      [api_refresh_artista] are parameters of the sections that use
      them. *)

From Stdlib Require Import ZArith NArith List Ascii String Floats Lia Permutation Sorted.
From stdpp Require Import gmap list sorting.
Import ListNotations.

Local Open Scope Z_scope.

(* Decimal literals such as 0.1 denote the nearest binary64 number, as in
   Python. *)
Set Warnings "-inexact-float".

(** ** Strings *)

Definition str := list N.

(** Decoding of a UTF-8 literal into code points, so that the literals of
    the source can be written as they are. *)
Fixpoint utf8_decode (bs : list N) : str :=
  match bs with
  | [] => []
  | b0 :: r0 =>
      if (b0 <? 128)%N then b0 :: utf8_decode r0
      else if (b0 <? 224)%N then
        match r0 with
        | b1 :: r1 => ((b0 - 192) * 64 + (b1 - 128))%N :: utf8_decode r1
        | _ => []
        end
      else if (b0 <? 240)%N then
        match r0 with
        | b1 :: b2 :: r2 =>
            ((b0 - 224) * 4096 + (b1 - 128) * 64 + (b2 - 128))%N :: utf8_decode r2
        | _ => []
        end
      else
        match r0 with
        | b1 :: b2 :: b3 :: r3 =>
            ((b0 - 240) * 262144 + (b1 - 128) * 4096 + (b2 - 128) * 64 + (b3 - 128))%N
              :: utf8_decode r3
        | _ => []
        end
  end.

Definition ustr (s : string) : str :=
  utf8_decode (map N_of_ascii (list_ascii_of_string s)).

(** [c in s] for a one-character [c]. *)
Definition contains (c : N) (s : str) : bool := existsb (N.eqb c) s.

(** [s.split(c, 1)] when [c in s]: the text before and after the first [c]. *)
Fixpoint split_first (c : N) (s : str) : str * str :=
  match s with
  | [] => ([], [])
  | x :: r =>
      if (x =? c)%N then ([], r)
      else let '(a, b) := split_first c r in (x :: a, b)
  end.

(** [str.isspace] of one code point: the white space of the Unicode
    database, which is what [str.strip()] removes. *)
Definition py_isspace (c : N) : bool :=
  ((9 <=? c) && (c <=? 13) || (28 <=? c) && (c <=? 32)
   || (c =? 133) || (c =? 160) || (c =? 5760)
   || (8192 <=? c) && (c <=? 8202)
   || (c =? 8232) || (c =? 8233) || (c =? 8239) || (c =? 8287) || (c =? 12288))%N.

Fixpoint lstrip (s : str) : str :=
  match s with
  | [] => []
  | c :: r => if py_isspace c then lstrip r else s
  end.

Definition rstrip (s : str) : str := rev (lstrip (rev s)).

Definition strip (s : str) : str := rstrip (lstrip s).

(** [s.replace(c, t)] for a one-character [c]. *)
Definition replace_char (c : N) (t : str) (s : str) : str :=
  flat_map (fun x => if (x =? c)%N then t else [x]) s.

(** Truth value of a string: non-empty. *)
Definition nonempty (s : str) : bool :=
  match s with [] => false | _ => true end.

(** [a <= b] on strings: lexicographic by code point. *)
Fixpoint str_leb (a b : str) : bool :=
  match a, b with
  | [], _ => true
  | _ :: _, [] => false
  | x :: a', y :: b' =>
      if (x <? y)%N then true else if (y <? x)%N then false else str_leb a' b'
  end.

(** ** Dates and the interpreter's library functions *)

Record datetime := {
  dt_year : Z; dt_month : Z; dt_day : Z; dt_hour : Z; dt_minute : Z
}.

Class Runtime := {
  (** [float(s)]; [None] is [ValueError]. *)
  float_of_str : str -> option float;
  (** [datetime.fromisoformat(s)]; [None] is an exception. *)
  fromisoformat : str -> option datetime;
  (** [datetime.strptime(s, '%Y-%m-%d')]; [None] is an exception. *)
  strptime_ymd : str -> option datetime;
  (** [dt.strftime('%d/%m/%Y')] and [dt.strftime('%H:%M')]. *)
  strftime_dmY : datetime -> str;
  strftime_HM : datetime -> str;
  (** [str.isalnum] of a code point above 127. *)
  unicode_alnum : N -> bool
}.

Section Titles.
Context {rt : Runtime}.

(** The regex class [\w] on [str] patterns. *)
Definition is_word (c : N) : bool :=
  if (c <? 128)%N then
    ((48 <=? c) && (c <=? 57) || (65 <=? c) && (c <=? 90)
     || (97 <=? c) && (c <=? 122) || (c =? 95))%N
  else unicode_alnum c.

(** [s] starts with [SUB] followed by a word boundary. *)
Definition starts_SUB (s : str) : bool :=
  match s with
  | 83%N :: 85%N :: 66%N :: rest =>
      match rest with
      | [] => true
      | d :: _ => negb (is_word d)
      end
  | _ => false
  end.

(** [re.search(r'\bSUB\b', s)]: the start of the leftmost match.
    [prev_word] tells whether the character before [s] is a word
    character and [i] is the index of the head of [s]. *)
Fixpoint search_SUB_from (prev_word : bool) (i : nat) (s : str) : option nat :=
  match s with
  | [] => None
  | c :: r =>
      if negb prev_word && starts_SUB s then Some i
      else search_SUB_from (is_word c) (S i) r
  end.

Definition search_SUB (s : str) : option nat := search_SUB_from false 0 s.

(** [parse_event_title(summary)]: "Artista | Evento, Local [SUB Substituto]". *)
Definition parse_event_title (summary : str) : str * str * str * str :=
  if negb (nonempty summary) then ([], [], [], [])
  else
    let '(artista, rest) :=
      if contains 124 summary then
        let '(a, r) := split_first 124 summary in (strip a, strip r)
      else (strip summary, []) in
    let '(evento, local_part) :=
      if contains 44 rest then
        let '(e, l) := split_first 44 rest in (strip e, strip l)
      else (strip rest, []) in
    match search_SUB local_part with
    | Some i =>
        (artista, evento, strip (take i local_part), strip (drop (i + 3) local_part))
    | None => (artista, evento, local_part, [])
    end.

End Titles.

(** ** Floats *)

(** Round-half-even of the positive rational [a / b]. *)
Definition round_half_even (a b : Z) : Z :=
  let q := a / b in
  let r := a mod b in
  match 2 * r ?= b with
  | Lt => q
  | Gt => q + 1
  | Eq => if Z.even q then q else q + 1
  end.

(** The binary64 number nearest to [(-1)^s * n / d], ties to even
    ([n >= 0], [d > 0]): what [strtod] returns on the decimal string. *)
Definition nearest_ratio (s : bool) (n d : Z) : spec_float :=
  match n, d with
  | Zpos pn, Zpos pd =>
      SFdiv prec emax (S754_finite s pn 0) (S754_finite false pd 0)
  | _, _ => S754_zero s
  end.

(** [round(x, ndigits)] for [0 <= ndigits <= 323]: the exact value of [x]
    is rounded half-even to [ndigits] decimals and the result converted
    back to the nearest float; zeros, infinities and nan round to
    themselves. *)
Definition py_round (x : float) (ndigits : Z) : float :=
  match Prim2SF x with
  | S754_finite s m e =>
      let p := 10 ^ ndigits in
      let n :=
        if 0 <=? e then Zpos m * 2 ^ e * p
        else round_half_even (Zpos m * p) (2 ^ (- e)) in
      SF2Prim (nearest_ratio s n p)
  | _ => x
  end.

(** [float(n)] for a Python [int]. *)
Definition float_of_Z (n : Z) : float :=
  SF2Prim (binary_normalize prec emax n 0 false).

(** [min(a, b)] and [max(a, b)] as the builtins compute them: the first
    argument is kept unless the second is strictly smaller (larger). *)
Definition py_min (a b : float) : float := if (b <? a)%float then b else a.
Definition py_max (a b : float) : float := if (a <? b)%float then b else a.

(** ** Values read from the JSON stores *)

Inductive pyval :=
| PNone
| PStr (s : str)
| PFloat (f : float)
| PInt (n : Z).

(** Truth value, as [or] and [if] test it. *)
Definition truthy (v : pyval) : bool :=
  match v with
  | PNone => false
  | PStr s => nonempty s
  | PFloat f => negb (f =? 0)%float
  | PInt n => negb (n =? 0)
  end.

Definition py_or (a b : pyval) : pyval := if truthy a then a else b.

Section Normalizer.
Context {rt : Runtime}.

(** [_to_float(v)]: [None] and [''] give [0.0]; otherwise
    [float(str(v).replace(',', '.'))], and [0.0] when that raises.  For a
    float [v], [str(v)] is its shortest representation, which has no comma
    and which [float] reads back as [v]. *)
Definition _to_float (v : pyval) : float :=
  match v with
  | PNone => 0%float
  | PStr [] => 0%float
  | PStr s =>
      match float_of_str (replace_char 44 [46%N] s) with
      | Some f => f
      | None => 0%float
      end
  | PFloat f => f
  | PInt n => float_of_Z n
  end.

(** *** The stores *)

(** One entry of [concerts_base.json]: [ev.get('start', '')] and
    [ev.get('summary', '')] read the two keys, either of which may be
    missing. *)
Record event := {
  ev_start : option str;
  ev_summary : option str
}.

(** One entry of [concert_data.json] (the override record of an event):
    each of the five editable keys is present or not. *)
Record override := {
  ov_artista : option str;
  ov_evento : option str;
  ov_local : option str;
  ov_substituto : option str;
  ov_cachet : option str
}.

Definition no_override : override :=
  {| ov_artista := None; ov_evento := None; ov_local := None;
     ov_substituto := None; ov_cachet := None |}.

(** One element of the list [_build_concerts_from_local] returns.  The
    [km] key holds a number or [''], here [Some] or [None]. *)
Record concert := {
  c_id : str;
  c_date : str;
  c_time : str;
  c_year : Z;
  c_month : Z;
  c_artista : str;
  c_evento : str;
  c_local : str;
  c_substituto : str;
  c_cachet : str;
  c_km : option float
}.

(** [_norm_artista] and [_build_artist_base_cachet]: agencies list their
    artists as [(nome, cachet_base)]; later entries replace earlier ones. *)
Definition _build_artist_base_cachet (agencies : list (list (str * str)))
  : gmap str str :=
  fold_left
    (fun lookup ag =>
       fold_left
         (fun lookup a =>
            if nonempty (fst a) && nonempty (snd a)
            then <[fst a := snd a]> lookup else lookup)
         ag lookup)
    agencies ∅.

(** The [try] block of the loop: [(date_str, time_str, year, month)]. *)
Definition parse_start (start_raw : str) : str * str * Z * Z :=
  let parsed :=
    if contains 84 start_raw
    then fromisoformat (replace_char 90 (ustr "+00:00") start_raw)
    else strptime_ymd start_raw in
  match parsed with
  | Some dt =>
      (strftime_dmY dt,
       if contains 84 start_raw then strftime_HM dt else [],
       dt_year dt, dt_month dt)
  | None => (start_raw, [], 0, 0)
  end.

(** The body of the loop over [events_sorted]. *)
Definition concert_of (concert_data : gmap str override)
    (artist_base : gmap str str) (distances : gmap str float)
    (event_id : str) (ev : event) : concert :=
  let start_raw := default [] (ev_start ev) in
  let '(date_str, time_str, year, month) := parse_start start_raw in
  let '(a_p, ev_p, lo_p, su_p) := parse_event_title (default [] (ev_summary ev)) in
  let ov := default no_override (concert_data !! event_id) in
  let artista := default a_p (ov_artista ov) in
  let evento := default ev_p (ov_evento ov) in
  let local := default lo_p (ov_local ov) in
  let substituto := default su_p (ov_substituto ov) in
  let cachet :=
    let c := default [] (ov_cachet ov) in
    if nonempty c then c else default [] (artist_base !! artista) in
  let cachet := if nonempty substituto then ustr "0" else cachet in
  let km := if nonempty local then distances !! local else None in
  {| c_id := event_id; c_date := date_str; c_time := time_str;
     c_year := year; c_month := month;
     c_artista := artista; c_evento := evento; c_local := local;
     c_substituto := substituto; c_cachet := cachet; c_km := km |}.

(** [sorted(items, key=...)]: a stable sort, here by insertion. *)
Fixpoint insert_by {A} (leb : A -> A -> bool) (x : A) (l : list A) : list A :=
  match l with
  | [] => [x]
  | y :: l' => if leb x y then x :: l else y :: insert_by leb x l'
  end.

Definition sorted_by {A} (leb : A -> A -> bool) (l : list A) : list A :=
  foldr (insert_by leb) [] l.

Definition start_key (x : str * event) : str := default [] (ev_start (snd x)).

Definition events_sorted (events : list (str * event)) : list (str * event) :=
  sorted_by (fun x y => str_leb (start_key x) (start_key y)) events.

(** [_build_concerts_from_local()], the four stores passed explicitly:
    the events of [concerts_base.json] in file order, the overrides, the
    agencies with their artists and the distance cache. *)
Definition _build_concerts_from_local (events : list (str * event))
    (concert_data : gmap str override) (agencies : list (list (str * str)))
    (distances : gmap str float) : list concert :=
  let artist_base := _build_artist_base_cachet agencies in
  map (fun x => concert_of concert_data artist_base distances (fst x) (snd x))
      (events_sorted events).

End Normalizer.

(** ** Tax configuration and the tax estimate *)

Record config := {
  taxa_iva_rendimentos : float;
  irc_taxa_reduzida : float;
  irc_limiar_reduzida : float;
  irc_taxa_normal : float;
  taxa_derrama : float
}.

(** The numeric entries of [_CONTAB_DEFAULTS]. *)
Definition _CONTAB_DEFAULTS : config :=
  {| taxa_iva_rendimentos := 23; irc_taxa_reduzida := 16;
     irc_limiar_reduzida := 50000; irc_taxa_normal := 21;
     taxa_derrama := 1.5 |}.

(** The numeric entries of [config_contab.json], each present or not. *)
Record config_file := {
  cf_taxa_iva_rendimentos : option float;
  cf_irc_taxa_reduzida : option float;
  cf_irc_limiar_reduzida : option float;
  cf_irc_taxa_normal : option float;
  cf_taxa_derrama : option float
}.

(** [_get_contab_config()]: the defaults, updated with the file. *)
Definition _get_contab_config (f : config_file) : config :=
  {| taxa_iva_rendimentos :=
       default (taxa_iva_rendimentos _CONTAB_DEFAULTS) (cf_taxa_iva_rendimentos f);
     irc_taxa_reduzida :=
       default (irc_taxa_reduzida _CONTAB_DEFAULTS) (cf_irc_taxa_reduzida f);
     irc_limiar_reduzida :=
       default (irc_limiar_reduzida _CONTAB_DEFAULTS) (cf_irc_limiar_reduzida f);
     irc_taxa_normal :=
       default (irc_taxa_normal _CONTAB_DEFAULTS) (cf_irc_taxa_normal f);
     taxa_derrama := default (taxa_derrama _CONTAB_DEFAULTS) (cf_taxa_derrama f) |}.

(** [_calc_irc(resultado, cfg)]: [(irc, derrama, subtotal)]. *)
Definition _calc_irc (resultado : float) (cfg : config) : float * float * float :=
  if (resultado <=? 0)%float then (0, 0, 0)%float
  else
    let limiar := irc_limiar_reduzida cfg in
    let taxa_red := (irc_taxa_reduzida cfg / 100)%float in
    let taxa_norm := (irc_taxa_normal cfg / 100)%float in
    let taxa_derrama := (taxa_derrama cfg / 100)%float in
    let base_red := py_min resultado limiar in
    let base_norm := py_max 0 (resultado - limiar) in
    let irc := py_round (base_red * taxa_red + base_norm * taxa_norm) 2 in
    let derrama := py_round (resultado * taxa_derrama) 2 in
    (irc, derrama, py_round (irc + derrama) 2).

(** ** Expense categories *)

Definition str_eqb (a b : str) : bool := bool_decide (a = b).

(** [_IVA_FACTOR]: the categories whose VAT is not fully deductible. *)
Definition _IVA_FACTOR (cat : str) : option float :=
  if str_eqb cat (ustr "Alimentação e Bebidas") then Some 0%float
  else if str_eqb cat (ustr "Alojamento e Hotelaria") then Some 0%float
  else if str_eqb cat (ustr "Combustíveis e Lubrificantes") then Some 0.5%float
  else None.

(** [cat in _REPRESENTACAO_CATS]. *)
Definition _REPRESENTACAO_CATS (cat : str) : bool :=
  str_eqb cat (ustr "Alimentação e Bebidas")
  || str_eqb cat (ustr "Alojamento e Hotelaria").

Definition _TAXA_TRIB_AUTONOMA : float := 0.1.
Definition _TAXA_TA_KM : float := 0.05.
Definition KM_RATE : float := 0.4.

(** One row of [despesas.json]. *)
Record despesa := {
  data_fatura : str;
  fornecedor : str;
  numero_fatura : str;
  tipo_despesa : str;
  base_tributavel : pyval;
  iva : pyval;
  iva_6 : pyval;
  iva_13 : pyval;
  iva_23 : pyval
}.

(** ** Monthly aggregation *)

(** The dictionary key [(year, month)]. *)
Definition month_key := (Z * Z)%type.

(** The values of [rend_mes]. *)
Record rend := { rend_base : float; rend_iva : float }.

Definition rend_zero : rend := {| rend_base := 0; rend_iva := 0 |}.

(** The values of [gast_mes]. *)
Record gast := {
  gast_base : float;
  gast_iva : float;
  gast_iva_6 : float;
  gast_iva_13 : float;
  gast_iva_23 : float;
  gast_trib_autonoma : float;
  gast_gastos_rep : float;
  gast_por_categoria : list (str * float)
}.

Definition gast_zero : gast :=
  {| gast_base := 0; gast_iva := 0; gast_iva_6 := 0; gast_iva_13 := 0;
     gast_iva_23 := 0; gast_trib_autonoma := 0; gast_gastos_rep := 0;
     gast_por_categoria := [] |}.

(** [d[cat] = d.get(cat, 0.0) + x] on an insertion-ordered dictionary. *)
Fixpoint cat_add (cat : str) (x : float) (d : list (str * float))
  : list (str * float) :=
  match d with
  | [] => [(cat, (0 + x)%float)]
  | (k, v) :: r =>
      if str_eqb k cat then (k, (v + x)%float) :: r
      else (k, v) :: cat_add cat x r
  end.

(** One element of the list [_build_contabilidade] returns. *)
Record summary := {
  year : Z;
  month : Z;
  rendimentos : float;
  iva_liquidado : float;
  gastos_despesas : float;
  gastos_km : float;
  gastos_total : float;
  iva_deducivel : float;
  iva_deducivel_6 : float;
  iva_deducivel_13 : float;
  iva_deducivel_23 : float;
  iva_saldo : float;
  resultado : float;
  irc_estimado : float;
  derrama_estimada : float;
  irc_subtotal : float;
  tributacao_autonoma : float;
  ta_representacao : float;
  ta_km : float;
  gastos_representacao : float;
  irc_total : float;
  por_categoria : list (str * float)
}.

(** Tuples of integers compare lexicographically. *)
Definition key_le (a b : month_key) : Prop :=
  a.1 < b.1 \/ (a.1 = b.1 /\ a.2 <= b.2).

#[global] Instance key_le_dec : RelDecision key_le.
Proof. intros a b. unfold key_le. apply _. Defined.

Section Aggregator.
Context {rt : Runtime}.

(** The value under the [km] key of a concert. *)
Definition km_value (c : concert) : pyval :=
  match c_km c with
  | Some f => PFloat f
  | None => PStr []
  end.

(** The body of the loop over [concerts], on the pair of dictionaries
    [(rend_mes, km_mes)]. *)
Definition concerts_step (taxa_iva : float)
    (st : gmap month_key rend * gmap month_key float) (c : concert)
  : gmap month_key rend * gmap month_key float :=
  if nonempty (c_substituto c) then st
  else
    let cachet := _to_float (py_or (PStr (c_cachet c)) (PInt 0)) in
    let key := (c_year c, c_month c) in
    let rend_mes :=
      if (0 <? cachet)%float then
        let cur := default rend_zero (st.1 !! key) in
        <[key := {| rend_base := (rend_base cur + cachet)%float;
                    rend_iva := (rend_iva cur + py_round (cachet * taxa_iva) 4)%float |}]>
          st.1
      else st.1 in
    let km := _to_float (py_or (km_value c) (PInt 0)) in
    let km_mes :=
      if (0 <? km)%float then
        <[key := (default 0%float (st.2 !! key) + km * KM_RATE)%float]> st.2
      else st.2 in
    (rend_mes, km_mes).

(** The category a row is booked under: [row.get('tipo_despesa') or 'Outros']. *)
Definition row_cat (row : despesa) : str :=
  if nonempty (tipo_despesa row) then tipo_despesa row else ustr "Outros".

(** The body of the loop over the expense rows, on [gast_mes]. *)
Definition despesas_step (gast_mes : gmap month_key gast) (row : despesa)
  : gmap month_key gast :=
  match strptime_ymd (data_fatura row) with
  | None => gast_mes
  | Some dt =>
      let key := (dt_year dt, dt_month dt) in
      let g := default gast_zero (gast_mes !! key) in
      let base := _to_float (base_tributavel row) in
      let iva := _to_float (iva row) in
      let iva_6 := _to_float (iva_6 row) in
      let iva_13 := _to_float (iva_13 row) in
      let iva_23 := _to_float (iva_23 row) in
      let cat := row_cat row in
      let fator := default 1%float (_IVA_FACTOR cat) in
      let iva_ded := (iva * fator)%float in
      let iva_nao_ded := (iva - iva_ded)%float in
      let iva_6_ded := (iva_6 * fator)%float in
      let iva_13_ded := (iva_13 * fator)%float in
      let iva_23_ded := (iva_23 * fator)%float in
      let custo_irc := (base + iva_nao_ded)%float in
      let trib_auto :=
        if _REPRESENTACAO_CATS cat then (custo_irc * _TAXA_TRIB_AUTONOMA)%float
        else 0%float in
      <[key :=
          {| gast_base := (gast_base g + custo_irc)%float;
             gast_iva := (gast_iva g + iva_ded)%float;
             gast_iva_6 := (gast_iva_6 g + iva_6_ded)%float;
             gast_iva_13 := (gast_iva_13 g + iva_13_ded)%float;
             gast_iva_23 := (gast_iva_23 g + iva_23_ded)%float;
             gast_trib_autonoma := (gast_trib_autonoma g + trib_auto)%float;
             gast_gastos_rep :=
               if _REPRESENTACAO_CATS cat
               then (gast_gastos_rep g + custo_irc)%float
               else gast_gastos_rep g;
             gast_por_categoria := cat_add cat custo_irc (gast_por_categoria g) |}]>
        gast_mes
  end.

(** [sorted(set(rend_mes) | set(gast_mes) | set(km_mes))]. *)
Definition all_keys (rend_mes : gmap month_key rend)
    (gast_mes : gmap month_key gast) (km_mes : gmap month_key float)
  : list month_key :=
  merge_sort key_le (elements (dom rend_mes ∪ dom gast_mes ∪ dom km_mes)).

(** The body of the loop over [all_keys]. *)
Definition summary_of (cfg : config) (rend_mes : gmap month_key rend)
    (gast_mes : gmap month_key gast) (km_mes : gmap month_key float)
    (key : month_key) : summary :=
  let rend := default rend_zero (rend_mes !! key) in
  let gast := default gast_zero (gast_mes !! key) in
  let km_val := py_round (default 0%float (km_mes !! key)) 2 in
  let g_base := py_round (gast_base gast) 2 in
  let g_total := py_round (g_base + km_val) 2 in
  let r_base := py_round (rend_base rend) 2 in
  let iva_liq := py_round (rend_iva rend) 2 in
  let iva_ded := py_round (gast_iva gast) 2 in
  let iva_saldo := py_round (iva_liq - iva_ded) 2 in
  let resultado := py_round (r_base - g_total) 2 in
  let ta_rep := py_round (gast_trib_autonoma gast) 2 in
  let ta_km := py_round (km_val * _TAXA_TA_KM) 2 in
  let trib_auto := py_round (ta_rep + ta_km) 2 in
  let gastos_rep := py_round (gast_gastos_rep gast) 2 in
  let '(irc, derrama, irc_subtotal) := _calc_irc resultado cfg in
  let irc_total := py_round (irc_subtotal + trib_auto) 2 in
  {| year := key.1; month := key.2;
     rendimentos := r_base;
     iva_liquidado := iva_liq;
     gastos_despesas := g_base;
     gastos_km := km_val;
     gastos_total := g_total;
     iva_deducivel := iva_ded;
     iva_deducivel_6 := py_round (gast_iva_6 gast) 2;
     iva_deducivel_13 := py_round (gast_iva_13 gast) 2;
     iva_deducivel_23 := py_round (gast_iva_23 gast) 2;
     iva_saldo := iva_saldo;
     resultado := resultado;
     irc_estimado := irc;
     derrama_estimada := derrama;
     irc_subtotal := py_round irc_subtotal 2;
     tributacao_autonoma := trib_auto;
     ta_representacao := ta_rep;
     ta_km := ta_km;
     gastos_representacao := gastos_rep;
     irc_total := irc_total;
     por_categoria := gast_por_categoria gast |}.

(** The two accumulation loops. *)
Definition rend_km_mes (cfg : config) (concerts : list concert)
  : gmap month_key rend * gmap month_key float :=
  fold_left (concerts_step (taxa_iva_rendimentos cfg / 100)%float) concerts (∅, ∅).

Definition gast_mes_of (rows : list despesa) : gmap month_key gast :=
  fold_left despesas_step rows ∅.

(** [_build_contabilidade()] after [concerts] has been built: the
    aggregation of the concerts with the rows of [despesas.json]. *)
Definition contabilidade_of (cfg : config) (concerts : list concert)
    (rows : list despesa) : list summary :=
  let st := rend_km_mes cfg concerts in
  let gast_mes := gast_mes_of rows in
  map (summary_of cfg st.1 gast_mes st.2) (all_keys st.1 gast_mes st.2).

(** [_build_contabilidade()], every store it reads passed explicitly. *)
Definition _build_contabilidade (cfg : config) (events : list (str * event))
    (concert_data : gmap str override) (agencies : list (list (str * str)))
    (distances : gmap str float) (rows : list despesa) : list summary :=
  contabilidade_of cfg
    (_build_concerts_from_local events concert_data agencies distances) rows.

End Aggregator.

(** ** A runtime for ASCII text

    The library functions on plain ASCII input, so that the definitions
    above can be evaluated: decimal numerals for [float], ISO dates
    [YYYY-MM-DD] with an optional [THH:MM[:SS][+HH:MM]] for the dates. *)

Module Ascii_runtime.

Definition is_digit (c : N) : bool := ((48 <=? c) && (c <=? 57))%N.

(** A digit part of the [float] grammar: digits, single underscores
    allowed between two digits. *)
Fixpoint read_digits (after_digit : bool) (s : str) : list Z * str :=
  match s with
  | [] => ([], [])
  | c :: r =>
      if is_digit c then
        let '(ds, rest) := read_digits true r in (Z.of_N c - 48 :: ds, rest)
      else if (c =? 95)%N && after_digit && match r with d :: _ => is_digit d | [] => false end
      then read_digits false r
      else ([], s)
  end.

Definition number_of (ds : list Z) : Z := fold_left (fun a d => 10 * a + d) ds 0.

Definition lower (c : N) : N :=
  if ((65 <=? c) && (c <=? 90))%N then (c + 32)%N else c.

(** The float nearest to [(-1)^s * n * 10^e]. *)
Definition decimal_float (s : bool) (n e : Z) : float :=
  if 0 <=? e then
    SF2Prim (binary_normalize prec emax ((if s then -1 else 1) * (n * 10 ^ e)) 0 s)
  else SF2Prim (nearest_ratio s n (10 ^ (- e))).

Definition read_sign (s : str) : bool * str :=
  match s with
  | 45%N :: r => (true, r)
  | 43%N :: r => (false, r)
  | _ => (false, s)
  end.

Definition float_ascii (s : str) : option float :=
  let '(neg, body) := read_sign (strip s) in
  let word := map lower body in
  if str_eqb word (ustr "inf") || str_eqb word (ustr "infinity") then
    Some (if neg then neg_infinity else infinity)
  else if str_eqb word (ustr "nan") then Some nan
  else
    let '(ip, r1) := read_digits false body in
    let '(fp, r2) :=
      match r1 with
      | 46%N :: r => read_digits false r
      | _ => ([], r1)
      end in
    if (length (ip ++ fp) =? 0)%nat then None
    else
      let mant := number_of (ip ++ fp) in
      let scale := - Z.of_nat (length fp) in
      match r2 with
      | [] => Some (decimal_float neg mant scale)
      | c :: r =>
          if (lower c =? 101)%N then
            let '(eneg, r3) := read_sign r in
            match read_digits false r3 with
            | (d :: ds, []) =>
                let ex := number_of (d :: ds) in
                Some (decimal_float neg mant (scale + (if eneg then - ex else ex)))
            | _ => None
            end
          else None
      end.

Definition days_in_month (y m : Z) : Z :=
  if m =? 2 then
    if ((y mod 4 =? 0) && negb (y mod 100 =? 0)) || (y mod 400 =? 0) then 29 else 28
  else if (m =? 4) || (m =? 6) || (m =? 9) || (m =? 11) then 30
  else 31.

Definition valid_date (y m d : Z) : bool :=
  (1 <=? y) && (y <=? 9999) && (1 <=? m) && (m <=? 12)
  && (1 <=? d) && (d <=? days_in_month y m).

Definition digits_only (s : str) : option Z :=
  if nonempty s && forallb is_digit s
  then Some (number_of (map (fun c => Z.of_N c - 48) s)) else None.

(** A month or day field of [%Y-%m-%d]: one or two digits. *)
Definition short_field (s : str) : option Z :=
  if (length s <=? 2)%nat then digits_only s else None.

Definition strptime_ascii (s : str) : option datetime :=
  if negb (contains 45 s) then None
  else
    let '(ys, r) := split_first 45 s in
    if negb (contains 45 r) then None
    else
      let '(ms, ds) := split_first 45 r in
      let ds := match ds with 32%N :: (_ :: [] as d1) => d1 | _ => ds end in
      match (if (length ys =? 4)%nat then digits_only ys else None),
            short_field ms, short_field ds with
      | Some y, Some m, Some d =>
          if valid_date y m d
          then Some {| dt_year := y; dt_month := m; dt_day := d;
                       dt_hour := 0; dt_minute := 0 |}
          else None
      | _, _, _ => None
      end.

Definition two_digits (s : str) : option (Z * str) :=
  match s with
  | a :: b :: r =>
      if is_digit a && is_digit b
      then Some (10 * (Z.of_N a - 48) + (Z.of_N b - 48), r) else None
  | _ => None
  end.

(** [HH:MM] after a sign: a UTC offset. *)
Definition offset_ok (s : str) : bool :=
  match two_digits s with
  | Some (h, 58%N :: r) =>
      match two_digits r with
      | Some (m, []) => (h <? 24) && (m <? 60)
      | _ => false
      end
  | _ => false
  end.

Definition tail_ok (s : str) : bool :=
  match s with
  | [] => true
  | 43%N :: r | 45%N :: r => offset_ok r
  | _ => false
  end.

Definition fromisoformat_ascii (s : str) : option datetime :=
  match strptime_ascii (take 10 s), length (take 10 s), drop 10 s with
  | Some d, 10%nat, [] => Some d
  | Some d, 10%nat, _ :: t =>
      match two_digits t with
      | Some (h, 58%N :: t1) =>
          match two_digits t1 with
          | Some (mi, t2) =>
              let t3 :=
                match t2 with
                | 58%N :: t' =>
                    match two_digits t' with
                    | Some (sec, t'') => if sec <? 60 then Some t'' else None
                    | None => None
                    end
                | _ => Some t2
                end in
              match t3 with
              | Some t4 =>
                  if (h <? 24) && (mi <? 60) && tail_ok t4
                  then Some {| dt_year := dt_year d; dt_month := dt_month d;
                               dt_day := dt_day d; dt_hour := h; dt_minute := mi |}
                  else None
              | None => None
              end
          | None => None
          end
      | _ => None
      end
  | _, _, _ => None
  end.

Definition pad2 (n : Z) : str := [Z.to_N (48 + n / 10 mod 10); Z.to_N (48 + n mod 10)].

Definition strftime_dmY_ascii (dt : datetime) : str :=
  pad2 (dt_day dt) ++ [47%N] ++ pad2 (dt_month dt) ++ [47%N]
  ++ pad2 (dt_year dt / 100) ++ pad2 (dt_year dt).

Definition strftime_HM_ascii (dt : datetime) : str :=
  pad2 (dt_hour dt) ++ [58%N] ++ pad2 (dt_minute dt).

End Ascii_runtime.

Definition ascii_runtime : Runtime :=
  {| float_of_str := Ascii_runtime.float_ascii;
     fromisoformat := Ascii_runtime.fromisoformat_ascii;
     strptime_ymd := Ascii_runtime.strptime_ascii;
     strftime_dmY := Ascii_runtime.strftime_dmY_ascii;
     strftime_HM := Ascii_runtime.strftime_HM_ascii;
     unicode_alnum := fun _ => false |}.

(** ** What each record contributes, and to which month *)

(** [fsum l]: the running sum [0.0 + x1 + x2 + ...], left to right. *)
Definition fsum (l : list float) : float := fold_left PrimFloat.add l 0%float.


(** The generic shape of the three accumulation loops: a record [a] that
    selects a key [k] replaces the value [v] stored there ([d] when the key
    is new) by [f v a]; a record that selects no key is skipped. *)
Definition group_step {A V} (sel : A -> option month_key) (d : V)
    (f : V -> A -> V) (m : gmap month_key V) (a : A) : gmap month_key V :=
  match sel a with
  | Some k => <[k := f (default d (m !! k)) a]> m
  | None => m
  end.

Definition selects {A} (sel : A -> option month_key) (k : month_key) (a : A) : bool :=
  bool_decide (sel a = Some k).

Section Contributions.
Context {rt : Runtime}.

Definition title_artista (summary : str) : str := (parse_event_title summary).1.1.1.
Definition title_evento (summary : str) : str := (parse_event_title summary).1.1.2.
Definition title_local (summary : str) : str := (parse_event_title summary).1.2.
Definition title_substituto (summary : str) : str := (parse_event_title summary).2.

(** The parse attempted on the start of an event. *)
Definition start_datetime (start_raw : str) : option datetime :=
  if contains 84 start_raw
  then fromisoformat (replace_char 90 (ustr "+00:00") start_raw)
  else strptime_ymd start_raw.

Definition concert_key (c : concert) : month_key := (c_year c, c_month c).
Definition concert_fee (c : concert) : float :=
  _to_float (py_or (PStr (c_cachet c)) (PInt 0)).
Definition concert_km (c : concert) : float :=
  _to_float (py_or (km_value c) (PInt 0)).
Definition has_substitute (c : concert) : bool := nonempty (c_substituto c).

(** The month whose revenue and VAT sums a concert enters, if any. *)
Definition revenue_key (c : concert) : option month_key :=
  if negb (has_substitute c) && (0 <? concert_fee c)%float
  then Some (concert_key c) else None.

(** The month whose mileage sum a concert enters, if any. *)
Definition mileage_key (c : concert) : option month_key :=
  if negb (has_substitute c) && (0 <? concert_km c)%float
  then Some (concert_key c) else None.

Definition rend_add (taxa_iva : float) (cur : rend) (c : concert) : rend :=
  {| rend_base := (rend_base cur + concert_fee c)%float;
     rend_iva := (rend_iva cur + py_round (concert_fee c * taxa_iva) 4)%float |}.

Definition km_add (cur : float) (c : concert) : float :=
  (cur + concert_km c * KM_RATE)%float.

(** The month an expense row is booked in, if its date parses. *)
Definition row_key (row : despesa) : option month_key :=
  match strptime_ymd (data_fatura row) with
  | Some dt => Some (dt_year dt, dt_month dt)
  | None => None
  end.

Definition row_fator (row : despesa) : float :=
  default 1%float (_IVA_FACTOR (row_cat row)).
Definition row_iva_ded (row : despesa) : float :=
  (_to_float (iva row) * row_fator row)%float.
Definition row_iva_6_ded (row : despesa) : float :=
  (_to_float (iva_6 row) * row_fator row)%float.
Definition row_iva_13_ded (row : despesa) : float :=
  (_to_float (iva_13 row) * row_fator row)%float.
Definition row_iva_23_ded (row : despesa) : float :=
  (_to_float (iva_23 row) * row_fator row)%float.
Definition row_custo_irc (row : despesa) : float :=
  (_to_float (base_tributavel row) + (_to_float (iva row) - row_iva_ded row))%float.
Definition row_is_rep (row : despesa) : bool := _REPRESENTACAO_CATS (row_cat row).
Definition row_trib_auto (row : despesa) : float :=
  if row_is_rep row then (row_custo_irc row * _TAXA_TRIB_AUTONOMA)%float else 0%float.

Definition gast_add (g : gast) (row : despesa) : gast :=
  {| gast_base := (gast_base g + row_custo_irc row)%float;
     gast_iva := (gast_iva g + row_iva_ded row)%float;
     gast_iva_6 := (gast_iva_6 g + row_iva_6_ded row)%float;
     gast_iva_13 := (gast_iva_13 g + row_iva_13_ded row)%float;
     gast_iva_23 := (gast_iva_23 g + row_iva_23_ded row)%float;
     gast_trib_autonoma := (gast_trib_autonoma g + row_trib_auto row)%float;
     gast_gastos_rep :=
       if row_is_rep row then (gast_gastos_rep g + row_custo_irc row)%float
       else gast_gastos_rep g;
     gast_por_categoria :=
       cat_add (row_cat row) (row_custo_irc row) (gast_por_categoria g) |}.

(** The records of one month, in input order. *)
Definition revenue_of (k : month_key) (concerts : list concert) : list concert :=
  List.filter (selects revenue_key k) concerts.
Definition mileage_of (k : month_key) (concerts : list concert) : list concert :=
  List.filter (selects mileage_key k) concerts.
Definition rows_of (k : month_key) (rows : list despesa) : list despesa :=
  List.filter (selects row_key k) rows.

Definition summary_key (s : summary) : month_key := (year s, month s).

End Contributions.

(** ** Sample stores

    Small stores on which the definitions are evaluated below. *)

Module Samples.

Definition ev (start summary : string) : event :=
  {| ev_start := Some (ustr start); ev_summary := Some (ustr summary) |}.

(** An override record holding only a fee. *)
Definition fee_only (fee : string) : override :=
  {| ov_artista := None; ov_evento := None; ov_local := None;
     ov_substituto := None; ov_cachet := Some (ustr fee) |}.

(** An override record holding only a performer. *)
Definition artista_only (a : string) : override :=
  {| ov_artista := Some (ustr a); ov_evento := None; ov_local := None;
     ov_substituto := None; ov_cachet := None |}.

(** An override record holding a substitute and a fee. *)
Definition substitute_and_fee (sub fee : string) : override :=
  {| ov_artista := None; ov_evento := None; ov_local := None;
     ov_substituto := Some (ustr sub); ov_cachet := Some (ustr fee) |}.

Definition row (date cat : string) (base vat : float) : despesa :=
  {| data_fatura := ustr date; fornecedor := []; numero_fatura := [];
     tipo_despesa := ustr cat; base_tributavel := PFloat base;
     iva := PFloat vat; iva_6 := PFloat 0; iva_13 := PFloat 0;
     iva_23 := PFloat vat |}.

(** One gig in Porto on 15 January 2024. *)
Definition porto_gig : str * event :=
  (ustr "e1", ev "2024-01-15" "Artist | Gig, Porto").

(** Three gigs in January 2024 with small fees. *)
Definition small_gigs : list (str * event) :=
  [(ustr "a", ev "2024-01-10" "X"); (ustr "b", ev "2024-01-11" "X");
   (ustr "c", ev "2024-01-12" "X")].

Definition small_fees : gmap str override :=
  {[ ustr "a" := fee_only "0.164"; ustr "b" := fee_only "0.164";
     ustr "c" := fee_only "0.174" ]}.

(** A VAT rate on revenue of 1%, the other rates as the defaults. *)
Definition one_percent : config :=
  {| taxa_iva_rendimentos := 1; irc_taxa_reduzida := 16;
     irc_limiar_reduzida := 50000; irc_taxa_normal := 21;
     taxa_derrama := 1.5 |}.

(** An event whose start is not a date. *)
Definition undated_gig : str * event :=
  (ustr "e2", ev "amanha" "Artist | Gig, Porto").

(** A concert with a substitute and a known distance of 100 km. *)
Definition substituted_concert : concert :=
  {| c_id := ustr "e3"; c_date := ustr "15/01/2024"; c_time := [];
     c_year := 2024; c_month := 1; c_artista := ustr "Artist";
     c_evento := ustr "Gig"; c_local := ustr "Porto";
     c_substituto := ustr "Joao"; c_cachet := ustr "0"; c_km := Some 100%float |}.

(** The store of overrides that gives the Porto gig a fee of 2000. *)
Definition porto_fee : gmap str override := {[ ustr "e1" := fee_only "2000" ]}.

(** The store of overrides that gives the Porto gig a substitute and a fee. *)
Definition porto_substitute : gmap str override :=
  {[ ustr "e1" := substitute_and_fee "Joao" "500" ]}.

(** One agency whose artist has a base fee of 1500. *)
Definition roster : list (list (str * str)) := [[(ustr "Artist", ustr "1500")]].

(** The Porto gig as normalized under a store of overrides. *)
Definition porto_concert (concert_data : gmap str override) : concert :=
  concert_of (rt := ascii_runtime) concert_data (_build_artist_base_cachet roster) ∅
    (ustr "e1") (snd porto_gig).

(** The three small gigs, normalized. *)
Definition small_concerts : list concert :=
  _build_concerts_from_local (rt := ascii_runtime) small_gigs small_fees [] ∅.

(** Two expense rows of January 2024 and one whose date is not ISO. *)
Definition software_row : despesa := row "2024-01-10" "Software e Tecnologia" 200 46.
Definition meal_row : despesa := row "2024-01-20" "Alimentação e Bebidas" 100 23.
Definition misdated_row : despesa := row "15/01/2024" "Outros" 10 2.3.

(** A fuel invoice: half of its VAT of 4.61 is deductible. *)
Definition fuel_row : despesa := row "2024-01-10" "Combustíveis e Lubrificantes" 20 4.61.

(** Three uncategorized rows of one month. *)
Definition tenths : list despesa :=
  [row "2024-01-10" "" 0.1 0; row "2024-01-11" "" 0.2 0; row "2024-01-12" "" 0.3 0].

(** The summary of January 2024 for the small gigs and two rows. *)
Definition january : summary :=
  let st := rend_km_mes (rt := ascii_runtime) one_percent small_concerts in
  summary_of one_percent st.1
    (gast_mes_of (rt := ascii_runtime) [software_row; meal_row]) st.2 (2024, 1).

End Samples.

(** * The stores and the operations that write them *)

(** ** Insertion-ordered dictionaries

    A Python [dict] whose order is visible (the events of
    [concerts_base.json]) is a list of pairs with distinct keys. *)

(** [d.get(k)]. *)
Fixpoint dict_get {V} (k : str) (d : list (str * V)) : option V :=
  match d with
  | [] => None
  | (k', v) :: r => if str_eqb k' k then Some v else dict_get k r
  end.

(** [d[k] = v]: the value of an existing key is replaced where it stands,
    a new key goes last. *)
Fixpoint dict_set {V} (k : str) (v : V) (d : list (str * V)) : list (str * V) :=
  match d with
  | [] => [(k, v)]
  | (k', v') :: r =>
      if str_eqb k' k then (k', v) :: r else (k', v') :: dict_set k v r
  end.

(** [d.pop(k, None)]. *)
Definition dict_pop {V} (k : str) (d : list (str * V)) : list (str * V) :=
  List.filter (fun x => negb (str_eqb x.1 k)) d.

(** ** The documented title format *)

(** "Artista | Evento, Local [SUB Substituto]", as the comment above
    [parse_event_title] gives it. *)
Definition format_title (artista evento local substituto : str) : str :=
  artista ++ ustr " | " ++ evento ++ ustr ", " ++ local
  ++ (if nonempty substituto then ustr " SUB " ++ substituto else []).

(** A string that [strip()] leaves as it is. *)
Definition clean (s : str) : Prop := strip s = s.

(** ** Synchronisation with the calendar: the merge loop of [api_sync] *)

(** One item of the calendar's answer: [event['id']],
    [event['start'].get('dateTime')], [event['start'].get('date')] and
    [event.get('summary')]. *)
Record calendar_item := {
  item_id : str;
  item_dateTime : option str;
  item_date : option str;
  item_summary : option str
}.

(** [event['start'].get('dateTime', event['start'].get('date', ''))]. *)
Definition item_start (it : calendar_item) : str :=
  default (default [] (item_date it)) (item_dateTime it).

Definition item_event (it : calendar_item) : event :=
  {| ev_start := Some (item_start it);
     ev_summary := Some (default [] (item_summary it)) |}.

(** The body of the loop over the items, on [(existing, added)]. *)
Definition sync_step (deleted_ids : list str)
    (st : list (str * event) * nat) (it : calendar_item)
  : list (str * event) * nat :=
  if existsb (str_eqb (item_id it)) deleted_ids then st
  else
    match dict_get (item_id it) st.1 with
    | None => (dict_set (item_id it) (item_event it) st.1, S st.2)
    | Some _ => (dict_set (item_id it) (item_event it) st.1, st.2)
    end.

(** The loop: the events stored after the synchronisation and the number
    of events added. *)
Definition sync_merge (items : list calendar_item)
    (existing : list (str * event)) (deleted_ids : list str)
  : list (str * event) * nat :=
  fold_left (sync_step deleted_ids) items (existing, 0%nat).

(** ** Distances *)

Definition ORIGIN : str := ustr "Rua de Macau, Coimbra, Portugal".

Definition version_key : str := ustr "__version".

Section Network.
(** The two web services: [geocode(address)], [None] for [(None, None)],
    and the routing request, which gives the distance in metres of the
    first route when the answer's code is ['Ok'] and [None] otherwise
    (also on an exception).  [save_json cache] is
    [save_json(DISTANCES_CACHE_FILE, cache)]: [true] when the file is
    written, [false] when writing it raises. *)
Context (geocode : str -> option (float * float)).
Context (route : float * float -> float * float -> option float).
Context (save_json : gmap str float -> bool).

(** What the two web services give for a destination: the distance there
    and back in km, rounded to one decimal. *)
Definition fetched (destination : str) : option float :=
  match geocode ORIGIN, geocode destination with
  | Some orig, Some dest =>
      match route orig dest with
      | Some distance => Some (py_round (distance / 1000 * 2)%float 1)
      | None => None
      end
  | _, _ => None
  end.

(** [driving_distance_km(destination)] on the cache in memory: the
    result and the cache afterwards.  The two entries are written in
    memory before the file is; an exception of [save_json] is caught by
    the [except] of the function, which then returns [None]. *)
Definition driving_distance_km (cache : gmap str float) (destination : str)
  : option float * gmap str float :=
  if negb (nonempty destination) then (None, cache)
  else
    match cache !! destination with
    | Some km => (Some km, cache)
    | None =>
        match geocode ORIGIN, geocode destination with
        | Some orig, Some dest =>
            match route orig dest with
            | Some distance =>
                let km := py_round (distance / 1000 * 2)%float 1 in
                let cache' := <[version_key := 2%float]> (<[destination := km]> cache) in
                if save_json cache' then (Some km, cache') else (None, cache')
            | None => (None, cache)
            end
        | _, _ => (None, cache)
        end
    end.

(** ** The routes that edit concerts *)

Inductive concert_field :=
| F_artista | F_evento | F_local | F_substituto | F_cachet.

(** [field in {'artista', 'evento', 'local', 'substituto', 'cachet'}]. *)
Definition field_of (field : str) : option concert_field :=
  if str_eqb field (ustr "artista") then Some F_artista
  else if str_eqb field (ustr "evento") then Some F_evento
  else if str_eqb field (ustr "local") then Some F_local
  else if str_eqb field (ustr "substituto") then Some F_substituto
  else if str_eqb field (ustr "cachet") then Some F_cachet
  else None.

(** [ov[field] = value]. *)
Definition set_field (f : concert_field) (value : str) (ov : override) : override :=
  match f with
  | F_artista =>
      {| ov_artista := Some value; ov_evento := ov_evento ov; ov_local := ov_local ov;
         ov_substituto := ov_substituto ov; ov_cachet := ov_cachet ov |}
  | F_evento =>
      {| ov_artista := ov_artista ov; ov_evento := Some value; ov_local := ov_local ov;
         ov_substituto := ov_substituto ov; ov_cachet := ov_cachet ov |}
  | F_local =>
      {| ov_artista := ov_artista ov; ov_evento := ov_evento ov; ov_local := Some value;
         ov_substituto := ov_substituto ov; ov_cachet := ov_cachet ov |}
  | F_substituto =>
      {| ov_artista := ov_artista ov; ov_evento := ov_evento ov; ov_local := ov_local ov;
         ov_substituto := Some value; ov_cachet := ov_cachet ov |}
  | F_cachet =>
      {| ov_artista := ov_artista ov; ov_evento := ov_evento ov; ov_local := ov_local ov;
         ov_substituto := ov_substituto ov; ov_cachet := Some value |}
  end.

(** [update_concert()], the request body and the stores passed
    explicitly.  [None] is the answer ['campo inválido'], which writes
    nothing; otherwise the overrides, the distance cache and the [km] of
    the answer. *)
Definition update_concert (data : gmap str override) (cache : gmap str float)
    (event_id field : str) (value : option str)
  : option (gmap str override * gmap str float * option float) :=
  let value := strip (default [] value) in
  match field_of field with
  | None => None
  | Some f =>
      let data' :=
        <[event_id := set_field f value (default no_override (data !! event_id))]> data in
      let '(km, cache') :=
        match f with
        | F_local =>
            if nonempty value then driving_distance_km cache value else (None, cache)
        | _ => (None, cache)
        end in
      Some (data', cache', km)
  end.

(** The body of the request of [api_add_concert]. *)
Record new_concert := {
  n_date : option str;
  n_time : option str;
  n_artista : option str;
  n_evento : option str;
  n_local : option str;
  n_substituto : option str;
  n_cachet : option str
}.

Definition stripped (v : option str) : str := strip (default [] v).

(** The start stored for a new concert. *)
Definition new_start (body : new_concert) : str :=
  if nonempty (stripped (n_time body))
  then stripped (n_date body) ++ ustr "T" ++ stripped (n_time body) ++ ustr ":00"
  else stripped (n_date body).

Definition new_override (body : new_concert) : override :=
  {| ov_artista := Some (stripped (n_artista body));
     ov_evento := Some (stripped (n_evento body));
     ov_local := Some (stripped (n_local body));
     ov_substituto := Some (stripped (n_substituto body));
     ov_cachet := Some (stripped (n_cachet body)) |}.

(** [api_add_concert()]: [uuid] is the fresh identifier drawn by
    [uuid.uuid4()].  [None] is the answer ['Data obrigatória']; otherwise
    the identifier of the new event and the three stores afterwards. *)
Definition api_add_concert (uuid : str) (body : new_concert)
    (events : list (str * event)) (data : gmap str override)
    (cache : gmap str float)
  : option (str * list (str * event) * gmap str override * gmap str float) :=
  if negb (nonempty (stripped (n_date body))) then None
  else
    let event_id := ustr "local_" ++ uuid in
    let events' :=
      dict_set event_id {| ev_start := Some (new_start body); ev_summary := Some [] |}
        events in
    let data' := <[event_id := new_override body]> data in
    let cache' :=
      if nonempty (stripped (n_local body))
      then (driving_distance_km cache (stripped (n_local body))).2
      else cache in
    Some (event_id, events', data', cache').

End Network.

(** [s.startswith(p)]. *)
Fixpoint starts_with (p s : str) : bool :=
  match p, s with
  | [], _ => true
  | _ :: _, [] => false
  | a :: p', b :: s' => (a =? b)%N && starts_with p' s'
  end.

(** [api_delete_concert()]: [None] is the answer ['ID em falta'];
    otherwise the events, the overrides and the list of deleted calendar
    events afterwards. *)
Definition api_delete_concert (event_id : option str)
    (events : list (str * event)) (data : gmap str override)
    (deleted : list str)
  : option (list (str * event) * gmap str override * list str) :=
  let event_id := stripped event_id in
  if negb (nonempty event_id) then None
  else
    let deleted' :=
      if starts_with (ustr "local_") event_id then deleted
      else if existsb (str_eqb event_id) deleted then deleted
      else deleted ++ [event_id] in
    Some (dict_pop event_id events, delete event_id data, deleted').

(** ** Auxiliary notions for the statements *)

Definition all_space (s : str) : bool := forallb py_isspace s.

(** The head of a string is not white space. *)
Definition head_ok (s : str) : bool :=
  match s with
  | [] => true
  | c :: _ => negb (py_isspace c)
  end.

(** The comparison [sorted] makes between two records, by a string key. *)
Definition key_leb {A} (key : A -> str) (x y : A) : bool := str_leb (key x) (key y).

(** An artist whose listing enters the table of base fees, and the step
    of the inner loop of [_build_artist_base_cachet]. *)
Definition valid_entry (a : str * str) : bool := nonempty a.1 && nonempty a.2.

Definition base_step (lookup : gmap str str) (a : str * str) : gmap str str :=
  if valid_entry a then <[a.1 := a.2]> lookup else lookup.

(** The overrides after a request to [update_concert], accepted or not. *)
Definition overrides_after (geocode : str -> option (float * float))
    (route : float * float -> float * float -> option float)
    (save_json : gmap str float -> bool)
    (data : gmap str override) (cache : gmap str float)
    (event_id field : str) (value : option str) : gmap str override :=
  match update_concert geocode route save_json data cache event_id field value with
  | Some (data', _, _) => data'
  | None => data
  end.

(** ** Migration of the distance cache *)

(** [cache.get('__version', 1) >= 2]; [None] is the [TypeError] of a
    version that is not a number. *)
Definition version_at_least_2 (v : pyval) : option bool :=
  match v with
  | PInt n => Some (2 <=? n)
  | PFloat f => Some (2 <=? f)%float
  | _ => None
  end.

(** The new value of an entry: [round(v * 2, 1)] for a number under a
    key other than ['__version'] (an [int] stays an [int]). *)
Definition migrate_value (k : str) (v : pyval) : pyval :=
  if str_eqb k version_key then v
  else
    match v with
    | PInt n => PInt (n * 2)
    | PFloat f => PFloat (py_round (f * 2)%float 1)
    | _ => v
    end.

(** [_migrate_distances_cache()] on the content of the cache file: the
    content afterwards, [None] when the version test raises. *)
Definition _migrate_distances_cache (cache : gmap str pyval) : option (gmap str pyval) :=
  match version_at_least_2 (default (PInt 1) (cache !! version_key)) with
  | None => None
  | Some true => Some cache
  | Some false =>
      Some (<[version_key := PInt 2]>
              (map_imap (fun k v => Some (migrate_value k v)) cache))
  end.

(** ** Expenses: key, enrichment, category corrections *)

(** [_SNC_MAP]. *)
Definition _SNC_MAP (cat : str) : option (str * str) :=
  if str_eqb cat (ustr "Telecomunicações") then Some (ustr "6228", ustr "Comunicação")
  else if str_eqb cat (ustr "Electricidade e Energia")
  then Some (ustr "6221", ustr "Energia e fluídos")
  else if str_eqb cat (ustr "Água e Saneamento")
  then Some (ustr "6221", ustr "Energia e fluídos")
  else if str_eqb cat (ustr "Combustíveis e Lubrificantes")
  then Some (ustr "6226", ustr "Combustíveis")
  else if str_eqb cat (ustr "Material de Escritório")
  then Some (ustr "6224", ustr "Material de escritório")
  else if str_eqb cat (ustr "Alimentação e Bebidas")
  then Some (ustr "6227", ustr "Deslocações, estadas e transportes")
  else if str_eqb cat (ustr "Alojamento e Hotelaria")
  then Some (ustr "6227", ustr "Deslocações, estadas e transportes")
  else if str_eqb cat (ustr "Transportes e Deslocações")
  then Some (ustr "6227", ustr "Deslocações, estadas e transportes")
  else if str_eqb cat (ustr "Software e Tecnologia") then Some (ustr "628", ustr "Outros FSE")
  else if str_eqb cat (ustr "Publicidade e Marketing")
  then Some (ustr "625", ustr "Publicidade e propaganda")
  else if str_eqb cat (ustr "Seguros") then Some (ustr "6229", ustr "Seguros")
  else if str_eqb cat (ustr "Contabilidade e Consultoria")
  then Some (ustr "6233", ustr "Honorários")
  else if str_eqb cat (ustr "Serviços Jurídicos")
  then Some (ustr "6232", ustr "Contencioso e notariado")
  else if str_eqb cat (ustr "Saúde e Bem-estar") then Some (ustr "628", ustr "Outros FSE")
  else if str_eqb cat (ustr "Formação e Educação") then Some (ustr "628", ustr "Outros FSE")
  else if str_eqb cat (ustr "Manutenção e Reparação")
  then Some (ustr "624", ustr "Conservação e reparação")
  else if str_eqb cat (ustr "Rendas e Alugueres")
  then Some (ustr "6299", ustr "Rendas e alugueres")
  else if str_eqb cat (ustr "Outros") then Some (ustr "628", ustr "Outros FSE")
  else None.

(** [_despesa_key(row)]. *)
Definition _despesa_key (row : despesa) : str :=
  data_fatura row ++ [124%N] ++ fornecedor row ++ [124%N] ++ numero_fatura row.

(** One element of the list [_enrich_despesas] returns: the row and the
    keys added to it. *)
Record enriched := {
  e_row : despesa;
  e_key : str;
  snc_conta : str;
  snc_descricao : str;
  iva_fator : float;
  iva_deducivel_calc : float;
  iva_nao_deducivel : float;
  custo_irc : float;
  is_representacao : bool;
  tributacao_autonoma_val : float
}.

(** [row] with [row['tipo_despesa'] = cat]. *)
Definition with_category (cat : str) (row : despesa) : despesa :=
  {| data_fatura := data_fatura row; fornecedor := fornecedor row;
     numero_fatura := numero_fatura row; tipo_despesa := cat;
     base_tributavel := base_tributavel row; iva := iva row; iva_6 := iva_6 row;
     iva_13 := iva_13 row; iva_23 := iva_23 row |}.

Section Expenses.
Context {rt : Runtime}.

(** The body of the loop of [_enrich_despesas]. *)
Definition enrich_row (row : despesa) : enriched :=
  let cat := row_cat row in
  let fator := default 1%float (_IVA_FACTOR cat) in
  let iva := _to_float (iva row) in
  let base := _to_float (base_tributavel row) in
  let iva_ded := py_round (iva * fator)%float 2 in
  let iva_nao := py_round (iva - iva_ded)%float 2 in
  let custo_irc := py_round (base + iva_nao)%float 2 in
  let is_rep := _REPRESENTACAO_CATS cat in
  let ta_val :=
    if is_rep then py_round (custo_irc * _TAXA_TRIB_AUTONOMA)%float 2 else 0%float in
  let snc := default (ustr "628", ustr "Outros FSE") (_SNC_MAP cat) in
  {| e_row := row; e_key := _despesa_key row;
     snc_conta := snc.1; snc_descricao := snc.2;
     iva_fator := fator; iva_deducivel_calc := iva_ded; iva_nao_deducivel := iva_nao;
     custo_irc := custo_irc; is_representacao := is_rep;
     tributacao_autonoma_val := ta_val |}.

Definition _enrich_despesas (rows : list despesa) : list enriched := map enrich_row rows.

(** The loop of [despesas_page] that applies the category corrections. *)
Definition apply_override (overrides : gmap str str) (row : despesa) : despesa :=
  match overrides !! _despesa_key row with
  | Some cat => with_category cat row
  | None => row
  end.

(** The rows [despesas_page] hands to its template. *)
Definition despesas_page (raw_rows : list despesa) (overrides : gmap str str)
  : list enriched :=
  _enrich_despesas (map (apply_override overrides) raw_rows).

End Expenses.

(** [(v or '').strip()] for a value of the request body. *)
Definition or_empty_stripped (v : option str) : str := strip (default [] v).

(** [api_despesas_set_categoria()]: [None] is a refusal, which writes
    nothing; otherwise the overrides afterwards. *)
Definition api_despesas_set_categoria (key categoria : option str)
    (overrides : gmap str str) : option (gmap str str) :=
  let key := or_empty_stripped key in
  let categoria := or_empty_stripped categoria in
  if negb (nonempty key) || negb (nonempty categoria) then None
  else
    match _SNC_MAP categoria with
    | None => None
    | Some _ => Some (<[key := categoria]> overrides)
    end.

(** ** Conflicts, artists, export *)

(** [d.setdefault(k, []).append(c)]. *)
Fixpoint dict_append {V} (k : str) (c : V) (d : list (str * list V))
  : list (str * list V) :=
  match d with
  | [] => [(k, [c])]
  | (k', l) :: r =>
      if str_eqb k' k then (k', l ++ [c]) :: r else (k', l) :: dict_append k c r
  end.

(** The dictionary [by_date] of [api_conflitos_count]. *)
Definition by_date (cur_year : Z) (lst : list concert) : list (str * list concert) :=
  fold_left
    (fun d c => if c_year c =? cur_year then dict_append (c_date c) c d else d)
    lst [].

(** [sum(1 for e in evs if not e['substituto'])]. *)
Definition sem_sub (evs : list concert) : nat :=
  length (List.filter (fun e => negb (nonempty (c_substituto e))) evs).

(** The count [api_conflitos_count] answers. *)
Definition conflitos_count (cur_year : Z) (lst : list concert) : nat :=
  list_sum
    (map (fun evs => if (2 <=? sem_sub evs)%nat then sem_sub evs else 0%nat)
       (map snd (by_date cur_year lst))).

(** Strings compare by [str_leb]. *)
Definition str_le (a b : str) : Prop := str_leb a b = true.

#[global] Instance str_le_dec : RelDecision str_le.
Proof. intros a b. unfold str_le. apply _. Defined.

(** The list [api_artistas] answers:
    [sorted({c['artista'] for c in lst if c.get('artista')})]. *)
Definition api_artistas (lst : list concert) : list str :=
  merge_sort str_le
    (elements (list_to_set (List.filter nonempty (map c_artista lst)) : gset str)).

Section Export_file.
Context {rt : Runtime}.

(** A character the pattern [[^\w\-_\. ]] does not match. *)
Definition filename_char (c : N) : bool :=
  is_word c || (c =? 45)%N || (c =? 95)%N || (c =? 46)%N || (c =? 32)%N.

(** [re.sub(r'[^\w\-_\. ]', '_', filename)], the file name of
    [api_export_csv]. *)
Definition export_filename (filename : str) : str :=
  map (fun c => if filename_char c then c else 95%N) filename.

End Export_file.

(** ** Agencies *)

(** An artist of an agency as stored: a bare name (the old format) or a
    record with a base fee. *)
Inductive artista_json :=
| A_name (nome : str)
| A_record (nome cachet_base : str).

(** [_norm_artista(a)], as the pair [(nome, cachet_base)]. *)
Definition _norm_artista (a : artista_json) : str * str :=
  match a with
  | A_name nome => (nome, [])
  | A_record nome cachet_base => (nome, cachet_base)
  end.

Record agency := {
  ag_id : str;
  ag_nome : str;
  ag_nif : str;
  ag_artistas : list artista_json
}.

(** [_artista_names(ag)]. *)
Definition _artista_names (ag : agency) : list str :=
  map (fun a => (_norm_artista a).1) (ag_artistas ag).

(** The agencies as [_build_artist_base_cachet] reads them. *)
Definition agency_listings (agencies : list agency) : list (list (str * str)) :=
  map (fun ag => map _norm_artista (ag_artistas ag)) agencies.

(** The loop [for ag in data['agencies']: if ag['id'] == agency_id: ...;
    return ok] followed by the answer ['não encontrada']: the first
    agency with the identifier is changed; [None] when there is none. *)
Fixpoint update_first (agency_id : str) (f : agency -> agency) (l : list agency)
  : option (list agency) :=
  match l with
  | [] => None
  | ag :: r =>
      if str_eqb (ag_id ag) agency_id then Some (f ag :: r)
      else option_map (cons ag) (update_first agency_id f r)
  end.

Definition with_artistas (l : list artista_json) (ag : agency) : agency :=
  {| ag_id := ag_id ag; ag_nome := ag_nome ag; ag_nif := ag_nif ag; ag_artistas := l |}.

Definition normalized_artistas (ag : agency) : list artista_json :=
  map (fun a => A_record (_norm_artista a).1 (_norm_artista a).2) (ag_artistas ag).

(** [api_add_artista(agency_id)]: [None] is a refusal. *)
Definition api_add_artista (agency_id : str) (nome cachet_base : option str)
    (agencies : list agency) : option (list agency) :=
  let nome := stripped nome in
  let cachet_base := stripped cachet_base in
  if negb (nonempty nome) then None
  else
    update_first agency_id
      (fun ag =>
         let l := normalized_artistas ag in
         if existsb (str_eqb nome) (_artista_names (with_artistas l ag))
         then with_artistas l ag
         else with_artistas (l ++ [A_record nome cachet_base]) ag)
      agencies.

(** [api_remove_artista(agency_id)]. *)
Definition api_remove_artista (agency_id : str) (nome : option str)
    (agencies : list agency) : option (list agency) :=
  let nome := stripped nome in
  update_first agency_id
    (fun ag =>
       with_artistas
         (List.filter (fun a => negb (str_eqb (_norm_artista a).1 nome))
            (normalized_artistas ag)) ag)
    agencies.

(** [api_update_artista_cachet(agency_id)]. *)
Definition api_update_artista_cachet (agency_id : str) (nome cachet_base : option str)
    (agencies : list agency) : option (list agency) :=
  let nome := stripped nome in
  let cachet_base := stripped cachet_base in
  update_first agency_id
    (fun ag =>
       with_artistas
         (map (fun a => if str_eqb (_norm_artista a).1 nome
                        then A_record (_norm_artista a).1 cachet_base else a)
            (normalized_artistas ag)) ag)
    agencies.

(** An instant in UTC: a calendar date and the microseconds elapsed
    since midnight. *)
Record instant := {
  i_year : Z; i_month : Z; i_day : Z; i_micro : Z
}.

(** [a < b] on two datetimes that have a UTC offset. *)
Definition instant_ltb (a b : instant) : bool :=
  if i_year a <? i_year b then true
  else if i_year b <? i_year a then false
  else if i_month a <? i_month b then true
  else if i_month b <? i_month a then false
  else if i_day a <? i_day b then true
  else if i_day b <? i_day a then false
  else i_micro a <? i_micro b.

Section Refresh.
Context {rt : Runtime}.
(** [today] is [datetime.now(timezone.utc)].  [iso_instant s] is
    [datetime.fromisoformat(s)] as the comparison with [today] sees it:
    [None] when parsing raises, [Some None] for a date-time without UTC
    offset, [Some (Some t)] for one with an offset, [t] being its instant
    in UTC. *)
Context (today : instant).
Context (iso_instant : str -> option (option instant)).

(** The [dt] of the [try] block: a start without [T] is a date, taken at
    00:00 UTC. *)
Definition start_instant (start_raw : str) : option (option instant) :=
  if contains 84 start_raw
  then iso_instant (replace_char 90 (ustr "+00:00") start_raw)
  else
    match strptime_ymd start_raw with
    | Some dt =>
        Some (Some {| i_year := dt_year dt; i_month := dt_month dt;
                      i_day := dt_day dt; i_micro := 0 |})
    | None => None
    end.

(** The [try] block: [Some true] when [dt < today] and the event is
    skipped by [continue], [Some false] when the loop goes on, [None] when
    parsing raises or, for a [dt] without offset, the comparison raises
    [TypeError], and the event is skipped by the [except]. *)
Definition before_today (start_raw : str) : option bool :=
  match start_instant start_raw with
  | Some (Some dt) => Some (instant_ltb dt today)
  | _ => None
  end.

(** The body of the loop of [api_refresh_artista], on
    [(concert_data, updated)]. *)
Definition refresh_step (nome cachet_base : str)
    (st : gmap str override * nat) (x : str * event) : gmap str override * nat :=
  match before_today (default [] (ev_start x.2)) with
  | Some false =>
      let ov := default no_override (st.1 !! x.1) in
      let artist := default (title_artista (default [] (ev_summary x.2))) (ov_artista ov) in
      if str_eqb artist nome
      then (<[x.1 := set_field F_cachet cachet_base ov]> st.1, S st.2)
      else st
  | _ => st
  end.

(** [api_refresh_artista(agency_id)]: [None] is the answer ['dados
    incompletos']; otherwise the overrides afterwards and the number of
    events updated. *)
Definition api_refresh_artista (nome cachet_base : option str)
    (events : list (str * event)) (concert_data : gmap str override)
  : option (gmap str override * nat) :=
  if negb (nonempty (stripped nome)) || negb (nonempty (stripped cachet_base)) then None
  else
    Some (fold_left (refresh_step (stripped nome) (stripped cachet_base)) events
            (concert_data, 0%nat)).

End Refresh.

(** ** Auxiliary notions for the statements on agencies and conflicts *)

Section Due.
Context {rt : Runtime}.
Context (today : instant).
Context (iso_instant : str -> option (option instant)).

(** The performer [api_refresh_artista] compares with the artist: the
    one of the override when it has one, the one of the title otherwise. *)
Definition performer (concert_data : gmap str override) (x : str * event) : str :=
  default (title_artista (default [] (ev_summary x.2)))
    (ov_artista (default no_override (concert_data !! x.1))).

(** An event [api_refresh_artista] gives the fee to: its start is an
    instant that is not before [today] and its performer is the artist. *)
Definition due (nome : str) (concert_data : gmap str override) (x : str * event) : bool :=
  match before_today today iso_instant (default [] (ev_start x.2)) with
  | Some false => str_eqb (performer concert_data x) nome
  | _ => false
  end.

End Due.

(** A concert that takes part in the count of conflicts: of the current
    year and without substitute. *)
Definition counted (cur_year : Z) (c : concert) : bool :=
  (c_year c =? cur_year) && negb (nonempty (c_substituto c)).

(** The counted concerts of the day of [c]. *)
Definition same_day (cur_year : Z) (lst : list concert) (date : str) : list concert :=
  List.filter (fun e => counted cur_year e && str_eqb (c_date e) date) lst.

(** ** Warming the distance cache: the last loop of [api_sync] *)

Section Warm.
Context {rt : Runtime}.
Context (geocode : str -> option (float * float)).
Context (route : float * float -> float * float -> option float).
Context (save_json : gmap str float -> bool).

(** The venue of a stored event: [ov.get('local', lo_p)]. *)
Definition local_of (concert_data : gmap str override) (x : str * event) : str :=
  default (title_local (default [] (ev_summary x.2)))
    (ov_local (default no_override (concert_data !! x.1))).

(** The body of the loop, on the cache in memory. *)
Definition warm_step (concert_data : gmap str override) (cache : gmap str float)
    (x : str * event) : gmap str float :=
  if nonempty (local_of concert_data x)
  then (driving_distance_km geocode route save_json cache (local_of concert_data x)).2
  else cache.

Definition warm_cache (events : list (str * event)) (concert_data : gmap str override)
    (cache : gmap str float) : gmap str float :=
  fold_left (warm_step concert_data) events cache.

End Warm.

(** ** Sample requests

    Requests to the routes, on the sample stores, with web services that
    answer every address and every route alike. *)

Module Scenarios.

Definition geocode (address : str) : option (float * float) :=
  Some (40.2%float, (-8.4)%float).
Definition route (orig dest : float * float) : option float := Some 100000%float.

(** Web services that answer nothing. *)
Definition offline_geocode (address : str) : option (float * float) := None.
Definition offline_route (orig dest : float * float) : option float := None.

(** A cache file that is written, and one that cannot be. *)
Definition save_json (cache : gmap str float) : bool := true.
Definition disk_full (cache : gmap str float) : bool := false.

(** The first request for the distance to Porto. *)
Definition porto_request : option float * gmap str float :=
  driving_distance_km geocode route save_json ∅ (ustr "Porto").


(** A new concert in Faro. *)
Definition faro_body : new_concert :=
  {| n_date := Some (ustr "2024-07-01"); n_time := Some (ustr "21:30");
     n_artista := Some (ustr " Ana "); n_evento := Some (ustr "Festa");
     n_local := Some (ustr "Faro"); n_substituto := None;
     n_cachet := Some (ustr "800") |}.

Definition faro_added
  : str * list (str * event) * gmap str override * gmap str float :=
  default ([], [], ∅, ∅)
    (api_add_concert geocode route save_json (ustr "u1") faro_body [Samples.porto_gig]
       Samples.porto_fee ∅).

(** Two stored events, and the deletion of the first. *)
Definition stored : list (str * event) := [Samples.porto_gig; Samples.undated_gig].

Definition porto_deleted : list (str * event) * gmap str override * list str :=
  default ([], ∅, []) (api_delete_concert (Some (ustr " e1 ")) stored Samples.porto_fee []).

(** The answer of the calendar: the Porto gig, moved by a day, and a new
    event. *)
Definition items : list calendar_item :=
  [ {| item_id := ustr "e1"; item_dateTime := None;
       item_date := Some (ustr "2024-01-16");
       item_summary := Some (ustr "Artist | Gig, Porto") |};
    {| item_id := ustr "e9"; item_dateTime := Some (ustr "2024-02-01T20:00:00");
       item_date := None; item_summary := Some (ustr "Artist | Baile, Faro") |} ].

(** The undated gig, normalized. *)
Definition undated_concert : concert :=
  concert_of (rt := ascii_runtime) ∅ ∅ ∅ (ustr "e2") (snd Samples.undated_gig).

(** A distance cache of the first version. *)
Definition old_cache : gmap str pyval :=
  {[ ustr "Porto" := PFloat 100.04; ustr "Faro" := PInt 250;
     ustr "nota" := PStr (ustr "x") ]}.

Definition migrated : gmap str pyval := default ∅ (_migrate_distances_cache old_cache).

(** A row whose invoice number ends with a space. *)
Definition padded_row : despesa :=
  {| data_fatura := ustr "2024-01-10"; fornecedor := ustr "EDP";
     numero_fatura := ustr "FT 1 "; tipo_despesa := ustr "Outros";
     base_tributavel := PFloat 50; iva := PFloat 11.5; iva_6 := PFloat 0;
     iva_13 := PFloat 0; iva_23 := PFloat 11.5 |}.

(** Filing a row under insurance. *)
Definition corrected (r : despesa) : gmap str str :=
  default ∅
    (api_despesas_set_categoria (Some (_despesa_key r)) (Some (ustr " Seguros ")) ∅).

(** Two agencies: the first lists Ana, by her name only, and Rui with a
    base fee; the second lists Ana without fee. *)
Definition first_agency : agency :=
  {| ag_id := ustr "a1"; ag_nome := ustr "Primeira"; ag_nif := [];
     ag_artistas := [A_name (ustr "Ana"); A_record (ustr "Rui") (ustr "500")] |}.

Definition second_agency : agency :=
  {| ag_id := ustr "b1"; ag_nome := ustr "Segunda"; ag_nif := [];
     ag_artistas := [A_record (ustr "Ana") []] |}.

Definition agencies : list agency := [first_agency; second_agency].

Definition with_eva : list agency :=
  default []
    (api_add_artista (ustr "a1") (Some (ustr " Eva ")) (Some (ustr "700")) agencies).

(** 15 January 2024, 10:00 UTC, and a parser of date-times that knows
    one date-time with an offset and one without. *)
Definition today : instant :=
  {| i_year := 2024; i_month := 1; i_day := 15; i_micro := 36000000000 |}.

Definition iso_instant (s : str) : option (option instant) :=
  if str_eqb s (ustr "2024-02-01T20:00:00+00:00")
  then Some (Some {| i_year := 2024; i_month := 2; i_day := 1; i_micro := 72000000000 |})
  else if str_eqb s (ustr "2024-02-01T21:30:00") then Some None
  else None.

(** Five events of one artist: an all-day event of today, an event
    without date, an all-day event of tomorrow, and two date-times of
    February, the first in UTC and the second without offset. *)
Definition gala_gig : str * event :=
  (ustr "e3", Samples.ev "2024-01-16" "Artist | Gala, Faro").
Definition utc_gig : str * event :=
  (ustr "e4", Samples.ev "2024-02-01T20:00:00Z" "Artist | Baile, Lisboa").
Definition naive_gig : str * event :=
  (ustr "e5", Samples.ev "2024-02-01T21:30:00" "Artist | Baile, Braga").

Definition coming : list (str * event) :=
  [Samples.porto_gig; Samples.undated_gig; gala_gig; utc_gig; naive_gig].

Definition refreshed : gmap str override * nat :=
  default (∅, 0%nat)
    (api_refresh_artista (rt := ascii_runtime) today iso_instant (Some (ustr "Artist"))
       (Some (ustr "1800")) coming ∅).



End Scenarios.

(** * Properties *)

(** ** Grouped accumulation *)

Section Grouping.
Context {A V : Type} (sel : A -> option month_key) (d : V) (f : V -> A -> V).

(** After the loop, the value of a key is the fold of [f] over the records
    that selected it, in input order, from the value the key started with. *)
Lemma group_lookup (l : list A) (m : gmap month_key V) (k : month_key) :
  default d (fold_left (group_step sel d f) l m !! k)
  = fold_left f (List.filter (selects sel k) l) (default d (m !! k)).
Proof.
  revert m. induction l as [|a l IH]; intros m; simpl; [done|].
  rewrite IH. unfold group_step, selects.
  destruct (sel a) as [k'|] eqn:E.
  - destruct (decide (k' = k)) as [->|Hne].
    + rewrite bool_decide_eq_true_2; [|done]. simpl.
      by rewrite lookup_insert_eq.
    + rewrite bool_decide_eq_false_2; [|congruence].
      by rewrite lookup_insert_ne.
  - by rewrite bool_decide_eq_false_2.
Qed.

(** The keys after the loop: those present before and those selected. *)
Lemma group_dom (l : list A) (m : gmap month_key V) (k : month_key) :
  k ∈ dom (fold_left (group_step sel d f) l m)
  <-> k ∈ dom m \/ exists a, In a l /\ sel a = Some k.
Proof.
  revert m. induction l as [|a l IH]; intros m; simpl.
  - split; [by left|]. intros [H|(a & [] & _)]; done.
  - rewrite IH. unfold group_step.
    destruct (sel a) as [k'|] eqn:E.
    + rewrite dom_insert, elem_of_union, elem_of_singleton. split.
      * intros [[->|H]|(b & Hb & Eb)]; eauto.
      * intros [H|(b & [->|Hb] & Eb)]; eauto.
        rewrite E in Eb. injection Eb as ->. eauto.
    + split.
      * intros [H|(b & Hb & Eb)]; eauto.
      * intros [H|(b & [->|Hb] & Eb)]; eauto. congruence.
Qed.

(** A record that selects no key leaves the loop's result unchanged. *)
Lemma group_skip (l1 l2 : list A) (a : A) (m : gmap month_key V) :
  sel a = None ->
  fold_left (group_step sel d f) (l1 ++ a :: l2) m
  = fold_left (group_step sel d f) (l1 ++ l2) m.
Proof.
  intros E. rewrite !fold_left_app. simpl.
  unfold group_step at 2. by rewrite E.
Qed.

(** Permuting the records does not change the set of keys. *)
Lemma group_dom_perm (l l' : list A) :
  Permutation l l' ->
  dom (fold_left (group_step sel d f) l ∅) = dom (fold_left (group_step sel d f) l' ∅).
Proof.
  intros P. apply set_eq. intros k. rewrite !group_dom.
  split; intros [H|(a & Ha & Ea)]; eauto; right; exists a; split; auto.
  - eapply Permutation_in; eauto.
  - eapply Permutation_in; [symmetry|]; eauto.
Qed.

End Grouping.

(** ** The loops of the aggregator as grouped accumulations *)

Section Loops.
Context {rt : Runtime}.

Lemma concerts_step_substitute (t : float) st (c : concert) :
  has_substitute c = true -> concerts_step t st c = st.
Proof. unfold concerts_step, has_substitute. by intros ->. Qed.

Lemma concerts_step_fst (t : float) st (c : concert) :
  (concerts_step t st c).1 = group_step revenue_key rend_zero (rend_add t) st.1 c.
Proof.
  unfold concerts_step, group_step, revenue_key, has_substitute,
    rend_add, concert_fee, concert_key.
  destruct (nonempty (c_substituto c)); simpl; [done|].
  by destruct (0 <? _)%float.
Qed.

Lemma concerts_step_snd (t : float) st (c : concert) :
  (concerts_step t st c).2 = group_step mileage_key 0%float km_add st.2 c.
Proof.
  unfold concerts_step, group_step, mileage_key, has_substitute,
    km_add, concert_km, concert_key.
  destruct (nonempty (c_substituto c)); simpl; [done|].
  by destruct (0 <? _to_float (py_or (km_value c) _))%float.
Qed.

Lemma concerts_loop_fst (t : float) (l : list concert) st :
  (fold_left (concerts_step t) l st).1
  = fold_left (group_step revenue_key rend_zero (rend_add t)) l st.1.
Proof.
  revert st. induction l as [|c l IH]; intros st; simpl; [done|].
  by rewrite IH, concerts_step_fst.
Qed.

Lemma concerts_loop_snd (t : float) (l : list concert) st :
  (fold_left (concerts_step t) l st).2
  = fold_left (group_step mileage_key 0%float km_add) l st.2.
Proof.
  revert st. induction l as [|c l IH]; intros st; simpl; [done|].
  by rewrite IH, concerts_step_snd.
Qed.

Lemma despesas_step_group (m : gmap month_key gast) (row : despesa) :
  despesas_step m row = group_step row_key gast_zero gast_add m row.
Proof.
  unfold despesas_step, group_step, row_key.
  by destruct (strptime_ymd (data_fatura row)).
Qed.

Lemma despesas_loop (l : list despesa) (m : gmap month_key gast) :
  fold_left despesas_step l m = fold_left (group_step row_key gast_zero gast_add) l m.
Proof.
  revert m. induction l as [|r l IH]; intros m; simpl; [done|].
  by rewrite IH, despesas_step_group.
Qed.

(** Each field of an accumulated record is the running sum of its own
    contributions. *)
Lemma fold_field {R B} (g : R -> B -> R) (p : R -> float) (h : B -> float) :
  (forall r b, p (g r b) = (p r + h b)%float) ->
  forall l r, p (fold_left g l r) = fold_left PrimFloat.add (map h l) (p r).
Proof.
  intros Hg l. induction l as [|b l IH]; intros r; simpl; [done|].
  by rewrite IH, Hg.
Qed.

(** The same for a field that only some records contribute to. *)
Lemma fold_field_if {R B} (g : R -> B -> R) (p : R -> float) (h : B -> float)
    (q : B -> bool) :
  (forall r b, p (g r b) = if q b then (p r + h b)%float else p r) ->
  forall l r,
    p (fold_left g l r) = fold_left PrimFloat.add (map h (List.filter q l)) (p r).
Proof.
  intros Hg l. induction l as [|b l IH]; intros r; simpl; [done|].
  rewrite IH, Hg. by destruct (q b).
Qed.





End Loops.

(** ** Sorting *)

Lemma insert_by_Permutation {A} (leb : A -> A -> bool) (x : A) (l : list A) :
  Permutation (insert_by leb x l) (x :: l).
Proof.
  induction l as [|y l IH]; simpl; [done|].
  destruct (leb x y); [done|].
  rewrite IH. apply perm_swap.
Qed.

Lemma sorted_by_Permutation {A} (leb : A -> A -> bool) (l : list A) :
  Permutation (sorted_by leb l) l.
Proof.
  induction l as [|x l IH]; simpl; [done|].
  rewrite insert_by_Permutation. by constructor.
Qed.

#[global] Instance key_le_total : Total key_le.
Proof. intros [a1 a2] [b1 b2]. unfold key_le. simpl. lia. Qed.

#[global] Instance key_le_trans : Transitive key_le.
Proof. intros [a1 a2] [b1 b2] [c1 c2]. unfold key_le. simpl. lia. Qed.

#[global] Instance key_le_antisymm : AntiSymm (=) key_le.
Proof.
  intros [a1 a2] [b1 b2]. unfold key_le. simpl. intros H1 H2.
  f_equal; lia.
Qed.

(* [k ∈ ∅ \/ P <-> P] *)
Ltac drop_empty_key :=
  split; [intros [H|H]; [by apply not_elem_of_empty in H|done] | by right].

Section Keys.
Context {rt : Runtime}.

Lemma all_keys_elem rend_mes gast_mes km_mes (k : month_key) :
  In k (all_keys rend_mes gast_mes km_mes)
  <-> k ∈ dom rend_mes \/ k ∈ dom gast_mes \/ k ∈ dom km_mes.
Proof.
  unfold all_keys. rewrite <- list_elem_of_In, merge_sort_Permutation, elem_of_elements.
  rewrite !elem_of_union. tauto.
Qed.

Lemma all_keys_NoDup rend_mes gast_mes km_mes :
  List.NoDup (all_keys rend_mes gast_mes km_mes).
Proof.
  unfold all_keys. apply NoDup_ListNoDup.
  rewrite merge_sort_Permutation. apply NoDup_elements.
Qed.

Lemma all_keys_Sorted rend_mes gast_mes km_mes :
  Sorted key_le (all_keys rend_mes gast_mes km_mes).
Proof. unfold all_keys. apply Sorted_merge_sort, _. Qed.

Lemma contabilidade_keys (cfg : config) (concerts : list concert) (rows : list despesa) :
  map summary_key (contabilidade_of cfg concerts rows)
  = all_keys (rend_km_mes cfg concerts).1 (gast_mes_of rows) (rend_km_mes cfg concerts).2.
Proof.
  unfold contabilidade_of. rewrite map_map.
  rewrite <- (map_id (all_keys _ _ _)) at 2. apply map_ext.
  intros [y m]. unfold summary_key, summary_of.
  by destruct (_calc_irc _ _) as [[? ?] ?].
Qed.

(** The keys of the three dictionaries, by the records that create them. *)
Lemma rend_mes_dom (cfg : config) (concerts : list concert) (k : month_key) :
  k ∈ dom (rend_km_mes cfg concerts).1
  <-> exists c, In c concerts /\ revenue_key c = Some k.
Proof.
  unfold rend_km_mes. rewrite concerts_loop_fst, group_dom. simpl.
  rewrite dom_empty. drop_empty_key.
Qed.

Lemma km_mes_dom (cfg : config) (concerts : list concert) (k : month_key) :
  k ∈ dom (rend_km_mes cfg concerts).2
  <-> exists c, In c concerts /\ mileage_key c = Some k.
Proof.
  unfold rend_km_mes. rewrite concerts_loop_snd, group_dom. simpl.
  rewrite dom_empty. drop_empty_key.
Qed.

Lemma gast_mes_dom (rows : list despesa) (k : month_key) :
  k ∈ dom (gast_mes_of rows) <-> exists r, In r rows /\ row_key r = Some k.
Proof.
  unfold gast_mes_of. rewrite despesas_loop, group_dom.
  rewrite dom_empty. drop_empty_key.
Qed.

End Keys.

(** ** Title parsing and the revenue normalizer *)

Section Normalizer_facts.
Context {rt : Runtime}.

Lemma parse_start_fail (start_raw : str) :
  start_datetime start_raw = None -> parse_start start_raw = (start_raw, [], 0, 0).
Proof. unfold start_datetime, parse_start. by intros ->. Qed.

(** Every normalized event is the image of an event of the base store. *)
Lemma concerts_from_events events concert_data agencies distances (c : concert) :
  In c (_build_concerts_from_local events concert_data agencies distances)
  <-> exists id ev, In (id, ev) events
        /\ c = concert_of concert_data (_build_artist_base_cachet agencies) distances id ev.
Proof.
  unfold _build_concerts_from_local, events_sorted. rewrite in_map_iff. split.
  - intros ([id ev] & <- & Hin). exists id, ev. split; [|done].
    eapply Permutation_in; [apply sorted_by_Permutation|done].
  - intros (id & ev & Hin & ->). exists (id, ev). split; [done|].
    eapply Permutation_in; [symmetry; apply sorted_by_Permutation|done].
Qed.

Lemma concerts_Permutation events events' concert_data agencies distances :
  Permutation events events' ->
  Permutation (_build_concerts_from_local events concert_data agencies distances)
              (_build_concerts_from_local events' concert_data agencies distances).
Proof.
  intros P. unfold _build_concerts_from_local, events_sorted.
  apply Permutation_map. by rewrite !sorted_by_Permutation.
Qed.

(** The fields of one normalized event. *)
Lemma concert_of_fields concert_data artist_base distances id (ev : event) :
  let c := concert_of concert_data artist_base distances id ev in
  let ov := default no_override (concert_data !! id) in
  let summary := default [] (ev_summary ev) in
  c_id c = id
  /\ c_artista c = default (title_artista summary) (ov_artista ov)
  /\ c_evento c = default (title_evento summary) (ov_evento ov)
  /\ c_local c = default (title_local summary) (ov_local ov)
  /\ c_substituto c = default (title_substituto summary) (ov_substituto ov)
  /\ c_cachet c =
       (if nonempty (c_substituto c) then ustr "0"
        else if nonempty (default [] (ov_cachet ov)) then default [] (ov_cachet ov)
        else default [] (artist_base !! c_artista c))
  /\ (c_date c, c_time c, c_year c, c_month c) = parse_start (default [] (ev_start ev)).
Proof.
  unfold concert_of, title_artista, title_evento, title_local, title_substituto.
  destruct (parse_start _) as [[[d t] y] m].
  destruct (parse_event_title _) as [[[a e] l] s]. simpl.
  repeat split.
Qed.

(** The fee of a normalized event with a substitute. *)
Lemma substitute_fee events concert_data agencies distances (c : concert) :
  In c (_build_concerts_from_local events concert_data agencies distances) ->
  nonempty (c_substituto c) = true -> c_cachet c = ustr "0".
Proof.
  intros Hc Hs. apply concerts_from_events in Hc as (id & ev & _ & ->).
  destruct (concert_of_fields concert_data (_build_artist_base_cachet agencies) distances id ev)
    as (_ & _ & _ & _ & _ & Hf & _).
  simpl in Hf. rewrite Hf. by rewrite Hs.
Qed.

End Normalizer_facts.

(** ** Claims about title parsing and normalization *)

Section Normalizer_claims.
Context {rt : Runtime}.

(** C6, as amended.  A summary without the delimiter [|] is taken whole as
    the performer: the performer is the stripped summary and the event,
    venue and substitute are empty, whatever else the summary contains.
    The parser is a total function: no summary makes it fail. *)
Theorem parse_event_title_without_bar (summary : str) :
  contains 124 summary = false ->
  parse_event_title summary = (strip summary, [], [], []).
Proof.
  intros H. unfold parse_event_title.
  destruct summary as [|c s]; [reflexivity|].
  rewrite H. reflexivity.
Qed.

(** C1, as amended.  For every normalized event, each of performer, event,
    venue and substitute is the override value whenever the override
    record has the key (also when the stored value is the empty string)
    and the title-parsed value otherwise; the fee is ["0"] when the final
    substitute is non-empty, otherwise the override fee when that is
    non-empty, otherwise the base fee of the final performer (empty when
    there is none). *)
Theorem override_precedence events concert_data agencies distances (c : concert) :
  In c (_build_concerts_from_local events concert_data agencies distances) ->
  exists ev, In (c_id c, ev) events /\
    let ov := default no_override (concert_data !! c_id c) in
    let summary := default [] (ev_summary ev) in
    c_artista c = default (title_artista summary) (ov_artista ov)
    /\ c_evento c = default (title_evento summary) (ov_evento ov)
    /\ c_local c = default (title_local summary) (ov_local ov)
    /\ c_substituto c = default (title_substituto summary) (ov_substituto ov)
    /\ c_cachet c =
         (if nonempty (c_substituto c) then ustr "0"
          else if nonempty (default [] (ov_cachet ov)) then default [] (ov_cachet ov)
          else default [] (_build_artist_base_cachet agencies !! c_artista c)).
Proof.
  intros Hc. apply concerts_from_events in Hc as (id & ev & Hin & ->).
  destruct (concert_of_fields concert_data (_build_artist_base_cachet agencies) distances id ev)
    as (Hid & Ha & He & Hl & Hs & Hf & _).
  exists ev. rewrite Hid. split; [done|]. simpl. by rewrite Ha, He, Hl, Hs, Hf at 1.
Qed.

(** C7.  A normalized event whose final substitute is non-empty has the
    fee ["0"], whatever the override, the title and the base-fee table
    hold, and the aggregator skips it: the revenue dictionary (revenue base
    and VAT charged per month) is the same with and without the event. *)
Theorem substitute_forces_zero_fee cfg events concert_data agencies distances
    (c : concert) (l1 l2 : list concert) :
  In c (_build_concerts_from_local events concert_data agencies distances) ->
  nonempty (c_substituto c) = true ->
  c_cachet c = ustr "0"
  /\ revenue_key c = None
  /\ (rend_km_mes cfg (l1 ++ c :: l2)).1 = (rend_km_mes cfg (l1 ++ l2)).1.
Proof.
  intros Hc Hs. split; [|split].
  - by eapply substitute_fee.
  - unfold revenue_key, has_substitute. by rewrite Hs.
  - unfold rend_km_mes. rewrite !concerts_loop_fst. apply group_skip.
    unfold revenue_key, has_substitute. by rewrite Hs.
Qed.

End Normalizer_claims.

(** ** The monthly dictionaries and the emitted fields *)

Section Aggregator_facts.
Context {rt : Runtime}.

Lemma rend_mes_value (cfg : config) (concerts : list concert) (k : month_key) :
  default rend_zero ((rend_km_mes cfg concerts).1 !! k)
  = fold_left (rend_add (taxa_iva_rendimentos cfg / 100)%float)
      (revenue_of k concerts) rend_zero.
Proof.
  unfold rend_km_mes. rewrite concerts_loop_fst, group_lookup. simpl.
  by rewrite lookup_empty.
Qed.

Lemma km_mes_value (cfg : config) (concerts : list concert) (k : month_key) :
  default 0%float ((rend_km_mes cfg concerts).2 !! k)
  = fold_left km_add (mileage_of k concerts) 0%float.
Proof.
  unfold rend_km_mes. rewrite concerts_loop_snd, group_lookup. simpl.
  by rewrite lookup_empty.
Qed.

Lemma gast_mes_value (rows : list despesa) (k : month_key) :
  default gast_zero (gast_mes_of rows !! k)
  = fold_left gast_add (rows_of k rows) gast_zero.
Proof.
  unfold gast_mes_of. rewrite despesas_loop, group_lookup.
  by rewrite lookup_empty.
Qed.

(** Every emitted summary is the summary of its own key. *)
Lemma summary_in (cfg : config) (concerts : list concert) (rows : list despesa)
    (s : summary) :
  In s (contabilidade_of cfg concerts rows) ->
  s = summary_of cfg (rend_km_mes cfg concerts).1 (gast_mes_of rows)
        (rend_km_mes cfg concerts).2 (summary_key s).
Proof.
  unfold contabilidade_of. intros (k & <- & _)%in_map_iff.
  f_equal. destruct k as [y m]. unfold summary_key, summary_of.
  by destruct (_calc_irc _ _) as [[? ?] ?].
Qed.

(** The fields of a summary that publish an accumulated sum. *)
Lemma summary_of_sums cfg rend_mes gast_mes km_mes (k : month_key) :
  let s := summary_of cfg rend_mes gast_mes km_mes k in
  let r := default rend_zero (rend_mes !! k) in
  let g := default gast_zero (gast_mes !! k) in
  rendimentos s = py_round (rend_base r) 2
  /\ iva_liquidado s = py_round (rend_iva r) 2
  /\ gastos_despesas s = py_round (gast_base g) 2
  /\ iva_deducivel s = py_round (gast_iva g) 2
  /\ iva_deducivel_6 s = py_round (gast_iva_6 g) 2
  /\ iva_deducivel_13 s = py_round (gast_iva_13 g) 2
  /\ iva_deducivel_23 s = py_round (gast_iva_23 g) 2
  /\ gastos_km s = py_round (default 0%float (km_mes !! k)) 2
  /\ ta_representacao s = py_round (gast_trib_autonoma g) 2
  /\ gastos_representacao s = py_round (gast_gastos_rep g) 2
  /\ ta_km s = py_round (gastos_km s * _TAXA_TA_KM) 2
  /\ por_categoria s = gast_por_categoria g.
Proof.
  unfold summary_of. destruct (_calc_irc _ _) as [[? ?] ?]. simpl.
  repeat split.
Qed.



(** Substituted concerts can be dropped before the loop. *)
Lemma concerts_loop_without_substitutes (t : float) (l : list concert) st :
  fold_left (concerts_step t) l st
  = fold_left (concerts_step t)
      (List.filter (fun c => negb (has_substitute c)) l) st.
Proof.
  revert st. induction l as [|c l IH]; intros st; simpl; [done|].
  destruct (has_substitute c) eqn:E; simpl.
  - by rewrite concerts_step_substitute.
  - apply IH.
Qed.

End Aggregator_facts.

(** ** Claims about the monthly aggregation *)

Section Aggregator_claims.
Context {rt : Runtime}.

(** C2, as amended.  Every monetary field of a month that publishes a sum
    is the running sum of that month's records, left to right from [0.0],
    rounded to 2 decimals once, on emission; the per-record terms are not
    rounded, with one exception: the VAT charged on an event, fee times
    rate, is rounded to 4 decimals before it is added.  The mileage
    autonomous tax is computed from the already rounded mileage value. *)
Theorem monthly_sums_rounded_on_emission (cfg : config) (concerts : list concert)
    (rows : list despesa) (s : summary) :
  In s (contabilidade_of cfg concerts rows) ->
  let k := summary_key s in
  let t := (taxa_iva_rendimentos cfg / 100)%float in
  rendimentos s = py_round (fsum (map concert_fee (revenue_of k concerts))) 2
  /\ iva_liquidado s
     = py_round (fsum (map (fun c => py_round (concert_fee c * t) 4)
                         (revenue_of k concerts))) 2
  /\ gastos_despesas s = py_round (fsum (map row_custo_irc (rows_of k rows))) 2
  /\ iva_deducivel s = py_round (fsum (map row_iva_ded (rows_of k rows))) 2
  /\ iva_deducivel_6 s = py_round (fsum (map row_iva_6_ded (rows_of k rows))) 2
  /\ iva_deducivel_13 s = py_round (fsum (map row_iva_13_ded (rows_of k rows))) 2
  /\ iva_deducivel_23 s = py_round (fsum (map row_iva_23_ded (rows_of k rows))) 2
  /\ gastos_km s
     = py_round (fsum (map (fun c => (concert_km c * KM_RATE)%float)
                         (mileage_of k concerts))) 2
  /\ ta_representacao s = py_round (fsum (map row_trib_auto (rows_of k rows))) 2
  /\ gastos_representacao s
     = py_round (fsum (map row_custo_irc (List.filter row_is_rep (rows_of k rows)))) 2
  /\ ta_km s = py_round (gastos_km s * _TAXA_TA_KM) 2.
Proof.
  intros Hs k t. pose proof (summary_in _ _ _ _ Hs) as E. fold k in E.
  pose proof (summary_of_sums cfg (rend_km_mes cfg concerts).1 (gast_mes_of rows)
                (rend_km_mes cfg concerts).2 k) as H.
  cbv zeta in H. rewrite <- E in H.
  rewrite rend_mes_value, gast_mes_value, km_mes_value in H.
  destruct H as (H1 & H2 & H3 & H4 & H5 & H6 & H7 & H8 & H9 & H10 & H11 & _).
  rewrite H1, H2, H3, H4, H5, H6, H7, H8, H9, H10. unfold fsum.
  repeat split; try (f_equal; by apply fold_field).
  - f_equal.
    by apply (fold_field km_add (fun x => x) (fun c => (concert_km c * KM_RATE)%float)).
  - f_equal. by apply fold_field_if.
  - by rewrite H11, H8.
Qed.

(** C3, as amended.  The output has exactly one summary per key, and its
    keys are the union of three sets of months: those of the events
    without substitute whose fee is positive, those of the expense rows
    whose date parses, and those of the events without substitute whose
    known distance is positive.  A month whose only records are events
    with a zero or blank fee and no distance is not emitted. *)
Theorem months_are_union_of_contributions (cfg : config) (concerts : list concert)
    (rows : list despesa) :
  List.NoDup (map summary_key (contabilidade_of cfg concerts rows))
  /\ forall k, In k (map summary_key (contabilidade_of cfg concerts rows))
       <-> (exists c, In c concerts /\ revenue_key c = Some k)
           \/ (exists r, In r rows /\ row_key r = Some k)
           \/ (exists c, In c concerts /\ mileage_key c = Some k).
Proof.
  rewrite contabilidade_keys. split; [apply all_keys_NoDup|].
  intros k. by rewrite all_keys_elem, rend_mes_dom, gast_mes_dom, km_mes_dom.
Qed.


(** C10.  A concert with a substitute changes no monthly field: with any
    distance it may have, the mileage dictionary and the whole list of
    summaries are the same with and without it. *)
Theorem substitute_changes_no_field (cfg : config) (l1 l2 : list concert)
    (c : concert) (rows : list despesa) :
  nonempty (c_substituto c) = true ->
  mileage_key c = None
  /\ (rend_km_mes cfg (l1 ++ c :: l2)).2 = (rend_km_mes cfg (l1 ++ l2)).2
  /\ contabilidade_of cfg (l1 ++ c :: l2) rows = contabilidade_of cfg (l1 ++ l2) rows.
Proof.
  intros Hs.
  assert (Hst : rend_km_mes cfg (l1 ++ c :: l2) = rend_km_mes cfg (l1 ++ l2)).
  { unfold rend_km_mes. rewrite !fold_left_app. simpl.
    by rewrite concerts_step_substitute. }
  split; [|split].
  - unfold mileage_key, has_substitute. by rewrite Hs.
  - by rewrite Hst.
  - unfold contabilidade_of. by rewrite Hst.
Qed.

End Aggregator_claims.

(** ** Claims about ordering, malformed dates and the tax estimate *)

Section Pipeline_claims.
Context {rt : Runtime}.

(** C8, as amended.  When two inputs differ only in the order of the
    events and of the expense rows, the two outputs have the same sequence
    of [(year, month)] keys, ascending and without repetition.  The
    monetary fields are running sums taken in input order, so they are
    not claimed equal. *)
Theorem months_sorted_whatever_the_order (cfg : config)
    (events events' : list (str * event)) (concert_data : gmap str override)
    (agencies : list (list (str * str))) (distances : gmap str float)
    (rows rows' : list despesa) :
  Permutation events events' ->
  Permutation rows rows' ->
  let out := _build_contabilidade cfg events concert_data agencies distances rows in
  let out' := _build_contabilidade cfg events' concert_data agencies distances rows' in
  map summary_key out = map summary_key out'
  /\ Sorted key_le (map summary_key out)
  /\ List.NoDup (map summary_key out).
Proof.
  intros Pe Pr out out'. unfold out, out', _build_contabilidade.
  rewrite !contabilidade_keys.
  split; [|split; [apply all_keys_Sorted|apply all_keys_NoDup]].
  unfold all_keys, rend_km_mes, gast_mes_of.
  rewrite !concerts_loop_fst, !concerts_loop_snd, !despesas_loop. simpl.
  pose proof (concerts_Permutation _ _ concert_data agencies distances Pe) as Pc.
  rewrite (group_dom_perm revenue_key _ _ _ _ Pc).
  rewrite (group_dom_perm mileage_key _ _ _ _ Pc).
  by rewrite (group_dom_perm row_key _ _ _ _ Pr).
Qed.

(** C9.  Malformed dates are absorbed.  An event whose start does not
    parse is still normalized: its date is the raw start, its time is
    empty and its year and month are 0.  An expense row whose invoice date
    does not parse is skipped, and only that row: the output is the one
    of the rows around it, every row among them whose date parses has its
    month in the output, and the expense base and deductible VAT of each
    month are the rounded sums over exactly those rows of the month.  All
    functions involved are total, the exceptions of the parsers being the
    [None] results handled here. *)
Theorem malformed_dates_absorbed (cfg : config) (events : list (str * event))
    (concert_data : gmap str override) (agencies : list (list (str * str)))
    (distances : gmap str float) (id : str) (ev : event)
    (concerts : list concert) (rows1 rows2 : list despesa) (row : despesa) :
  (In (id, ev) events ->
   start_datetime (default [] (ev_start ev)) = None ->
   exists c,
     In c (_build_concerts_from_local events concert_data agencies distances)
     /\ c_id c = id /\ c_date c = default [] (ev_start ev) /\ c_time c = []
     /\ c_year c = 0 /\ c_month c = 0)
  /\ (strptime_ymd (data_fatura row) = None ->
      let output := contabilidade_of cfg concerts (rows1 ++ row :: rows2) in
      output = contabilidade_of cfg concerts (rows1 ++ rows2)
      /\ (forall r k, In r (rows1 ++ rows2) -> row_key r = Some k ->
            In k (map summary_key output))
      /\ (forall s, In s output ->
            let month_rows := rows_of (summary_key s) (rows1 ++ rows2) in
            gastos_despesas s = py_round (fsum (map row_custo_irc month_rows)) 2
            /\ iva_deducivel s = py_round (fsum (map row_iva_ded month_rows)) 2)).
Proof.
  split.
  - intros Hin Hstart.
    exists (concert_of concert_data (_build_artist_base_cachet agencies) distances id ev). split.
    + apply concerts_from_events. eauto.
    + destruct (concert_of_fields concert_data (_build_artist_base_cachet agencies) distances id ev)
        as (Hid & _ & _ & _ & _ & _ & Hd).
      rewrite (parse_start_fail _ Hstart) in Hd. by injection Hd as -> -> -> ->.
  - intros Hrow.
    assert (Hskip : contabilidade_of cfg concerts (rows1 ++ row :: rows2)
                    = contabilidade_of cfg concerts (rows1 ++ rows2)).
    { unfold contabilidade_of, gast_mes_of. rewrite !despesas_loop.
      rewrite (group_skip row_key gast_zero gast_add rows1 rows2 row); [done|].
      unfold row_key. by rewrite Hrow. }
    cbv zeta. rewrite Hskip. split; [done|]. split.
    + intros r k Hr Hk. rewrite contabilidade_keys, all_keys_elem, gast_mes_dom.
      right. left. eauto.
    + intros s Hs. pose proof (summary_in _ _ _ _ Hs) as E.
      pose proof (summary_of_sums cfg (rend_km_mes cfg concerts).1
                    (gast_mes_of (rows1 ++ rows2))
                    (rend_km_mes cfg concerts).2 (summary_key s)) as H.
      cbv zeta in H. rewrite <- E in H. rewrite gast_mes_value in H.
      destruct H as (_ & _ & H3 & H4 & _).
      split.
      * rewrite H3. f_equal. by apply fold_field.
      * rewrite H4. f_equal. by apply fold_field.
Qed.


End Pipeline_claims.

(** ** The claims on the sample stores *)

Lemma differ_by_test {A} (test : A -> bool) (x y : A) :
  test x = true -> test y = false -> x <> y.
Proof. intros Hx Hy ->. congruence. Qed.

(** C6: a summary with none of the delimiters is not parsed to empty
    fields; the whole text is the performer. *)
Lemma plain_title_is_performer :
  contains 124 (ustr "Foo") = false
  /\ contains 44 (ustr "Foo") = false
  /\ search_SUB (rt := ascii_runtime) (ustr "Foo") = None
  /\ parse_event_title (rt := ascii_runtime) (ustr "Foo") = (ustr "Foo", [], [], [])
  /\ title_artista (rt := ascii_runtime) (ustr "Foo") <> [].
Proof. repeat split; try reflexivity. vm_compute. discriminate. Qed.

Lemma parse_event_title_without_bar_witness :
  contains 124 (ustr "Foo Fighters, Lisboa") = false
  /\ parse_event_title (rt := ascii_runtime) (ustr "Foo Fighters, Lisboa")
     = (strip (ustr "Foo Fighters, Lisboa"), [], [], []).
Proof.
  split; [reflexivity|].
  apply (parse_event_title_without_bar (rt := ascii_runtime)). reflexivity.
Defined.

(** C1: an override record that stores the empty string for the performer
    does not leave the parsed performer in effect; the normalized
    performer is empty. *)
Lemma empty_override_replaces_title :
  title_artista (rt := ascii_runtime) (ustr "Artist | Gig, Porto") = ustr "Artist"
  /\ map c_artista
       (_build_concerts_from_local (rt := ascii_runtime) [Samples.porto_gig]
          {[ ustr "e1" := Samples.artista_only "" ]} Samples.roster ∅)
     = [[]].
Proof. split; vm_compute; reflexivity. Qed.

Lemma override_precedence_witness :
  In (Samples.porto_concert Samples.porto_fee)
     (_build_concerts_from_local (rt := ascii_runtime) [Samples.porto_gig]
        Samples.porto_fee Samples.roster ∅)
  /\ exists ev, In (c_id (Samples.porto_concert Samples.porto_fee), ev) [Samples.porto_gig] /\
       let c := Samples.porto_concert Samples.porto_fee in
       let ov := default no_override (Samples.porto_fee !! c_id c) in
       let summary := default [] (ev_summary ev) in
       c_artista c = default (title_artista (rt := ascii_runtime) summary) (ov_artista ov)
       /\ c_evento c = default (title_evento (rt := ascii_runtime) summary) (ov_evento ov)
       /\ c_local c = default (title_local (rt := ascii_runtime) summary) (ov_local ov)
       /\ c_substituto c
          = default (title_substituto (rt := ascii_runtime) summary) (ov_substituto ov)
       /\ c_cachet c =
            (if nonempty (c_substituto c) then ustr "0"
             else if nonempty (default [] (ov_cachet ov)) then default [] (ov_cachet ov)
             else default [] (_build_artist_base_cachet Samples.roster !! c_artista c)).
Proof.
  split; [left; reflexivity|].
  apply (override_precedence (rt := ascii_runtime) [Samples.porto_gig]
           Samples.porto_fee Samples.roster ∅).
  left. reflexivity.
Defined.

Lemma substitute_forces_zero_fee_witness :
  In (Samples.porto_concert Samples.porto_substitute)
     (_build_concerts_from_local (rt := ascii_runtime) [Samples.porto_gig]
        Samples.porto_substitute Samples.roster ∅)
  /\ nonempty (c_substituto (Samples.porto_concert Samples.porto_substitute)) = true
  /\ c_cachet (Samples.porto_concert Samples.porto_substitute) = ustr "0"
  /\ revenue_key (rt := ascii_runtime) (Samples.porto_concert Samples.porto_substitute) = None
  /\ (rend_km_mes (rt := ascii_runtime) _CONTAB_DEFAULTS
        (Samples.small_concerts
         ++ Samples.porto_concert Samples.porto_substitute :: [])).1
     = (rend_km_mes (rt := ascii_runtime) _CONTAB_DEFAULTS (Samples.small_concerts ++ [])).1.
Proof.
  split; [left; reflexivity|]. split; [reflexivity|].
  apply (substitute_forces_zero_fee (rt := ascii_runtime) _CONTAB_DEFAULTS
           [Samples.porto_gig] Samples.porto_substitute Samples.roster ∅).
  - left. reflexivity.
  - reflexivity.
Defined.

(** C2: with a VAT rate of 1%, three fees of 0.164, 0.164 and 0.174 carry
    VAT of 0.00164, 0.00164 and 0.00174.  Summed at full precision and
    rounded once that is 0.01; the aggregator rounds each term to 4
    decimals first and emits 0.00. *)
Lemma vat_is_rounded_per_event :
  map (concert_fee (rt := ascii_runtime)) Samples.small_concerts
  = [0.164; 0.164; 0.174]%float
  /\ py_round (fsum (map (fun c => (concert_fee (rt := ascii_runtime) c * (1 / 100))%float)
                       Samples.small_concerts)) 2
     = 0.01%float
  /\ map iva_liquidado
       (_build_contabilidade (rt := ascii_runtime) Samples.one_percent
          Samples.small_gigs Samples.small_fees [] ∅ [])
     = [0%float].
Proof. repeat split; vm_compute; reflexivity. Qed.

Lemma monthly_sums_rounded_on_emission_witness :
  In Samples.january
     (contabilidade_of (rt := ascii_runtime) Samples.one_percent Samples.small_concerts
        [Samples.software_row; Samples.meal_row])
  /\ let s := Samples.january in
     let concerts := Samples.small_concerts in
     let rows := [Samples.software_row; Samples.meal_row] in
     let k := summary_key s in
     let t := (taxa_iva_rendimentos Samples.one_percent / 100)%float in
     rendimentos s
     = py_round (fsum (map (concert_fee (rt := ascii_runtime))
                         (revenue_of (rt := ascii_runtime) k concerts))) 2
     /\ iva_liquidado s
        = py_round (fsum (map (fun c => py_round (concert_fee (rt := ascii_runtime) c * t) 4)
                            (revenue_of (rt := ascii_runtime) k concerts))) 2
     /\ gastos_despesas s
        = py_round (fsum (map (row_custo_irc (rt := ascii_runtime))
                            (rows_of (rt := ascii_runtime) k rows))) 2
     /\ iva_deducivel s
        = py_round (fsum (map (row_iva_ded (rt := ascii_runtime))
                            (rows_of (rt := ascii_runtime) k rows))) 2
     /\ iva_deducivel_6 s
        = py_round (fsum (map (row_iva_6_ded (rt := ascii_runtime))
                            (rows_of (rt := ascii_runtime) k rows))) 2
     /\ iva_deducivel_13 s
        = py_round (fsum (map (row_iva_13_ded (rt := ascii_runtime))
                            (rows_of (rt := ascii_runtime) k rows))) 2
     /\ iva_deducivel_23 s
        = py_round (fsum (map (row_iva_23_ded (rt := ascii_runtime))
                            (rows_of (rt := ascii_runtime) k rows))) 2
     /\ gastos_km s
        = py_round (fsum (map (fun c => (concert_km (rt := ascii_runtime) c * KM_RATE)%float)
                            (mileage_of (rt := ascii_runtime) k concerts))) 2
     /\ ta_representacao s
        = py_round (fsum (map (row_trib_auto (rt := ascii_runtime))
                            (rows_of (rt := ascii_runtime) k rows))) 2
     /\ gastos_representacao s
        = py_round (fsum (map (row_custo_irc (rt := ascii_runtime))
                            (List.filter row_is_rep (rows_of (rt := ascii_runtime) k rows)))) 2
     /\ ta_km s = py_round (gastos_km s * _TAXA_TA_KM) 2.
Proof.
  split; [vm_compute; left; reflexivity|].
  apply (monthly_sums_rounded_on_emission (rt := ascii_runtime)).
  vm_compute. left. reflexivity.
Defined.

(** C3: a month whose only record is an event with a blank fee (and no
    known distance) has no summary. *)
Lemma blank_fee_month_is_missing :
  map (fun c => (concert_key c, c_cachet c, c_km c))
    (_build_concerts_from_local (rt := ascii_runtime) [Samples.porto_gig] ∅ [] ∅)
  = [((2024, 1), [], None)]
  /\ _build_contabilidade (rt := ascii_runtime) _CONTAB_DEFAULTS
       [Samples.porto_gig] ∅ [] ∅ []
     = [].
Proof. split; vm_compute; reflexivity. Qed.

(** C5: one fuel invoice of base 20 and VAT 4.61 costs 22.305; the
    breakdown holds 22.305 and the expense base of the month is 22.3. *)
Lemma breakdown_is_not_rounded :
  map (fun s => (gastos_despesas s, map snd (por_categoria s)))
    (_build_contabilidade (rt := ascii_runtime) _CONTAB_DEFAULTS [] ∅ [] ∅
       [Samples.fuel_row])
  = [(22.3, [22.305])]%float
  /\ (fsum [22.305] =? 22.3)%float = false.
Proof. split; vm_compute; reflexivity. Qed.



(** C8: the same three rows in two orders give two different lists of
    summaries: the category total is 0.1 + 0.2 + 0.3 in one and
    0.3 + 0.2 + 0.1 in the other. *)
Lemma row_order_changes_the_summaries :
  Permutation Samples.tenths (rev Samples.tenths)
  /\ map (fun s => map snd (por_categoria s))
       (_build_contabilidade (rt := ascii_runtime) _CONTAB_DEFAULTS [] ∅ [] ∅
          Samples.tenths)
     = [[0.6000000000000001]]%float
  /\ map (fun s => map snd (por_categoria s))
       (_build_contabilidade (rt := ascii_runtime) _CONTAB_DEFAULTS [] ∅ [] ∅
          (rev Samples.tenths))
     = [[0.6]]%float
  /\ _build_contabilidade (rt := ascii_runtime) _CONTAB_DEFAULTS [] ∅ [] ∅ Samples.tenths
     <> _build_contabilidade (rt := ascii_runtime) _CONTAB_DEFAULTS [] ∅ [] ∅
          (rev Samples.tenths).
Proof.
  split; [apply Permutation_rev|]. split; [vm_compute; reflexivity|].
  split; [vm_compute; reflexivity|].
  apply (differ_by_test
           (fun out =>
              match out with
              | [s] => match por_categoria s with
                       | [(_, v)] => (v =? 0.6000000000000001)%float
                       | _ => false
                       end
              | _ => false
              end)); vm_compute; reflexivity.
Qed.

Lemma months_sorted_whatever_the_order_witness :
  Permutation Samples.small_gigs (rev Samples.small_gigs)
  /\ Permutation Samples.tenths (rev Samples.tenths)
  /\ let out :=
       _build_contabilidade (rt := ascii_runtime) Samples.one_percent
         Samples.small_gigs Samples.small_fees [] ∅ Samples.tenths in
     let out' :=
       _build_contabilidade (rt := ascii_runtime) Samples.one_percent
         (rev Samples.small_gigs) Samples.small_fees [] ∅ (rev Samples.tenths) in
     map summary_key out = map summary_key out'
     /\ Sorted key_le (map summary_key out)
     /\ List.NoDup (map summary_key out).
Proof.
  split; [apply Permutation_rev|]. split; [apply Permutation_rev|].
  apply (months_sorted_whatever_the_order (rt := ascii_runtime));
    apply Permutation_rev.
Defined.

Lemma malformed_dates_absorbed_witness :
  (exists c,
      In c (_build_concerts_from_local (rt := ascii_runtime)
              [Samples.porto_gig; Samples.undated_gig] Samples.porto_fee Samples.roster ∅)
      /\ c_id c = ustr "e2"
      /\ c_date c = default [] (ev_start (snd Samples.undated_gig))
      /\ c_time c = [] /\ c_year c = 0 /\ c_month c = 0)
  /\ @strptime_ymd ascii_runtime (data_fatura Samples.misdated_row) = None
  /\ contabilidade_of (rt := ascii_runtime) Samples.one_percent Samples.small_concerts
       ([Samples.software_row] ++ Samples.misdated_row :: [Samples.meal_row])
     = contabilidade_of (rt := ascii_runtime) Samples.one_percent Samples.small_concerts
         ([Samples.software_row] ++ [Samples.meal_row])
  /\ In (2024, 1)
       (map summary_key
          (contabilidade_of (rt := ascii_runtime) Samples.one_percent
             Samples.small_concerts
             ([Samples.software_row] ++ Samples.misdated_row :: [Samples.meal_row])))
  /\ In Samples.january
       (contabilidade_of (rt := ascii_runtime) Samples.one_percent Samples.small_concerts
          ([Samples.software_row] ++ Samples.misdated_row :: [Samples.meal_row]))
  /\ gastos_despesas Samples.january = 323%float
  /\ iva_deducivel Samples.january = 46%float.
Proof.
  destruct (malformed_dates_absorbed (rt := ascii_runtime) Samples.one_percent
              [Samples.porto_gig; Samples.undated_gig] Samples.porto_fee Samples.roster ∅
              (ustr "e2") (snd Samples.undated_gig) Samples.small_concerts
              [Samples.software_row] [Samples.meal_row] Samples.misdated_row)
    as [Hev Hrow].
  assert (Hdate : @strptime_ymd ascii_runtime (data_fatura Samples.misdated_row) = None)
    by reflexivity.
  destruct (Hrow Hdate) as (Hsame & Hkeys & Hsums).
  assert (Hin : In Samples.january
                  (contabilidade_of (rt := ascii_runtime) Samples.one_percent
                     Samples.small_concerts
                     ([Samples.software_row] ++ Samples.misdated_row
                        :: [Samples.meal_row])))
    by (vm_compute; left; reflexivity).
  split; [apply Hev; [right; left; reflexivity|reflexivity]|].
  split; [exact Hdate|]. split; [exact Hsame|]. split; [|split; [exact Hin|split]].
  - apply (Hkeys Samples.software_row (2024, 1)); [left; reflexivity|reflexivity].
  - rewrite (proj1 (Hsums Samples.january Hin)). vm_compute. reflexivity.
  - rewrite (proj2 (Hsums Samples.january Hin)). vm_compute. reflexivity.
Defined.

Lemma substitute_changes_no_field_witness :
  nonempty (c_substituto Samples.substituted_concert) = true
  /\ c_km Samples.substituted_concert = Some 100%float
  /\ mileage_key (rt := ascii_runtime) Samples.substituted_concert = None
  /\ (rend_km_mes (rt := ascii_runtime) _CONTAB_DEFAULTS
        (Samples.small_concerts ++ Samples.substituted_concert :: [])).2
     = (rend_km_mes (rt := ascii_runtime) _CONTAB_DEFAULTS (Samples.small_concerts ++ [])).2
  /\ contabilidade_of (rt := ascii_runtime) _CONTAB_DEFAULTS
       (Samples.small_concerts ++ Samples.substituted_concert :: [])
       [Samples.software_row]
     = contabilidade_of (rt := ascii_runtime) _CONTAB_DEFAULTS
         (Samples.small_concerts ++ []) [Samples.software_row].
Proof.
  split; [reflexivity|]. split; [reflexivity|].
  apply (substitute_changes_no_field (rt := ascii_runtime)). reflexivity.
Defined.



(** * The stores and the routes: further properties *)

(** * Further properties *)

(** ** White space *)

Lemma lstrip_head_ok (s : str) : head_ok (lstrip s) = true.
Proof.
  induction s as [|c s IH]; simpl; [done|].
  destruct (py_isspace c) eqn:E; [done|]. simpl. by rewrite E.
Qed.

Lemma lstrip_fixed (s : str) : head_ok s = true -> lstrip s = s.
Proof. destruct s as [|c s]; simpl; [done|]. by destruct (py_isspace c). Qed.

Lemma lstrip_suffix (s : str) : exists p, s = p ++ lstrip s /\ all_space p = true.
Proof.
  induction s as [|c s (p & Hp & Hs)]; simpl.
  - by exists [].
  - destruct (py_isspace c) eqn:E.
    + exists (c :: p). simpl. rewrite E, Hs. split; [by f_equal|done].
    + by exists [].
Qed.

Lemma lstrip_app (s t : str) :
  lstrip (s ++ t) = if all_space s then lstrip t else lstrip s ++ t.
Proof.
  induction s as [|c s IH]; simpl; [done|].
  destruct (py_isspace c); simpl; [done|done].
Qed.

Lemma all_space_rev (s : str) : all_space (rev s) = all_space s.
Proof.
  unfold all_space. induction s as [|c s IH]; simpl; [done|].
  rewrite forallb_app, IH. simpl. rewrite andb_true_r. apply andb_comm.
Qed.

Lemma lstrip_all_space (s : str) : all_space s = true -> lstrip s = [].
Proof.
  induction s as [|c s IH]; simpl; [done|].
  destruct (py_isspace c); simpl; [done|discriminate].
Qed.

(** A string is clean when neither end is white space. *)
Lemma clean_iff (s : str) : clean s <-> head_ok s = true /\ head_ok (rev s) = true.
Proof.
  unfold clean, strip, rstrip. split.
  - intros H. split.
    + rewrite <- H.
      destruct (lstrip_suffix (rev (lstrip s))) as (p & Hp & _).
      apply (f_equal (@rev N)) in Hp. rewrite rev_involutive, rev_app_distr in Hp.
      pose proof (lstrip_head_ok s) as Hh. rewrite Hp in Hh.
      by destruct (rev (lstrip (rev (lstrip s)))).
    + rewrite <- H at 1. rewrite rev_involutive. apply lstrip_head_ok.
  - intros [H1 H2]. rewrite (lstrip_fixed s H1), (lstrip_fixed _ H2).
    apply rev_involutive.
Qed.

Lemma strip_clean (s : str) : clean (strip s).
Proof.
  apply clean_iff. unfold strip, rstrip. split.
  - destruct (lstrip_suffix (rev (lstrip s))) as (p & Hp & _).
    apply (f_equal (@rev N)) in Hp. rewrite rev_involutive, rev_app_distr in Hp.
    pose proof (lstrip_head_ok s) as Hh. rewrite Hp in Hh.
    by destruct (rev (lstrip (rev (lstrip s)))).
  - rewrite rev_involutive. apply lstrip_head_ok.
Qed.

Lemma clean_nil : clean [].
Proof. reflexivity. Qed.

Lemma strip_space_l (s : str) : strip (32%N :: s) = strip s.
Proof. reflexivity. Qed.

Lemma strip_space_r (s : str) : strip (s ++ [32%N]) = strip s.
Proof.
  unfold strip, rstrip. rewrite lstrip_app.
  destruct (all_space s) eqn:E.
  - by rewrite (lstrip_all_space s E).
  - by rewrite rev_app_distr.
Qed.

Lemma rstrip_app (s t : str) :
  rstrip (s ++ t) = if all_space t then rstrip s else s ++ rstrip t.
Proof.
  unfold rstrip. rewrite rev_app_distr, lstrip_app, all_space_rev.
  destruct (all_space t); [done|]. by rewrite rev_app_distr, rev_involutive.
Qed.

Lemma rstrip_head_ok (s : str) : head_ok s = true -> head_ok (rstrip s) = true.
Proof.
  intros H. unfold rstrip.
  destruct (lstrip_suffix (rev s)) as (p & Hp & _).
  apply (f_equal (@rev N)) in Hp. rewrite rev_involutive, rev_app_distr in Hp.
  rewrite Hp in H. by destruct (rev (lstrip (rev s))).
Qed.

Lemma lstrip_idem (s : str) : lstrip (lstrip s) = lstrip s.
Proof. apply lstrip_fixed, lstrip_head_ok. Qed.

Lemma rstrip_idem (s : str) : rstrip (rstrip s) = rstrip s.
Proof. unfold rstrip. by rewrite rev_involutive, lstrip_idem. Qed.

Lemma head_ok_not_all_space (s : str) : s <> [] -> head_ok s = true -> all_space s = false.
Proof. destruct s as [|c s]; simpl; [done|]. intros _. by destruct (py_isspace c). Qed.

Lemma lstrip_rstrip (s : str) : lstrip (rstrip s) = rstrip (lstrip s).
Proof.
  destruct (lstrip_suffix s) as (p & Hp & Hs).
  destruct (lstrip s) as [|c t] eqn:E.
  - rewrite app_nil_r in Hp. subst p.
    unfold rstrip. rewrite (lstrip_all_space (rev s)); [done|].
    by rewrite all_space_rev.
  - rewrite Hp at 1. rewrite rstrip_app.
    assert (Hh : head_ok (c :: t) = true) by (rewrite <- E; apply lstrip_head_ok).
    rewrite (head_ok_not_all_space (c :: t)); [|done|done].
    rewrite lstrip_app, Hs. apply lstrip_fixed. by apply rstrip_head_ok.
Qed.

Lemma rstrip_all_space (s : str) : all_space s = true -> rstrip s = [].
Proof.
  intros H. unfold rstrip. rewrite lstrip_all_space; [done|]. by rewrite all_space_rev.
Qed.

Lemma rstrip_cons (c : N) (s : str) :
  py_isspace c = false -> rstrip (c :: s) = c :: rstrip s.
Proof.
  intros Hc. change (c :: s) with ([c] ++ s). rewrite rstrip_app.
  destruct (all_space s) eqn:E.
  - rewrite (rstrip_all_space s E). unfold rstrip. simpl. by rewrite Hc.
  - done.
Qed.

Lemma strip_rstrip (s : str) : strip (rstrip s) = strip s.
Proof. unfold strip. by rewrite lstrip_rstrip, rstrip_idem. Qed.

Lemma contains_app (c : N) (s t : str) :
  contains c (s ++ t) = contains c s || contains c t.
Proof. unfold contains. apply existsb_app. Qed.

Lemma split_first_app (c : N) (s t : str) :
  contains c s = false -> split_first c (s ++ c :: t) = (s, t).
Proof.
  unfold contains. induction s as [|x s IH]; simpl.
  - by rewrite N.eqb_refl.
  - intros H. apply orb_false_elim in H as [Hx Hs].
    rewrite N.eqb_sym, Hx, (IH Hs). done.
Qed.

Section Title_round_trip.
Context {rt : Runtime}.

Lemma starts_SUB_before_space (x r : str) :
  starts_SUB (x ++ 32%N :: r) = true -> starts_SUB x = true.
Proof.
  destruct x as [|a [|b [|c [|d x]]]]; simpl; try done.
Qed.

Lemma search_SUB_from_app (l s : str) (p : bool) (i : nat) :
  search_SUB_from p i l = None ->
  search_SUB_from p i (l ++ 32%N :: 83%N :: 85%N :: 66%N :: 32%N :: s)
  = Some (i + length l + 1)%nat.
Proof.
  revert p i. induction l as [|c l IH]; intros p i H.
  - simpl. rewrite andb_false_r. f_equal. lia.
  - cbn [search_SUB_from] in H. change ((c :: l) ++ ?r) with (c :: (l ++ r)).
    cbn [search_SUB_from].
    destruct (negb p && starts_SUB (c :: l)) eqn:E; [done|].
    assert (E' : negb p && starts_SUB (c :: l ++ 32%N :: 83%N :: 85%N :: 66%N :: 32%N :: s) = false).
    { destruct (negb p); [|done]. rewrite andb_true_l in *.
      destruct (starts_SUB (c :: l ++ _)) eqn:E2; [|done].
      apply (starts_SUB_before_space (c :: l)) in E2. congruence. }
    rewrite E', (IH _ _ H). f_equal. simpl. lia.
Qed.

End Title_round_trip.

(** ** Title parsing *)

Section Title_properties.
Context {rt : Runtime}.

(** X1.  Whatever the summary, none of the four parsed fields starts or
    ends with white space. *)
Theorem parsed_fields_are_clean (summary : str) :
  clean (title_artista summary) /\ clean (title_evento summary)
  /\ clean (title_local summary) /\ clean (title_substituto summary).
Proof.
  unfold title_artista, title_evento, title_local, title_substituto,
    parse_event_title.
  destruct (nonempty summary); simpl; [|repeat split; apply clean_nil].
  destruct (contains 124 summary).
  - destruct (split_first 124 summary) as [a r].
    destruct (contains 44 (strip r)).
    + destruct (split_first 44 (strip r)) as [e l].
      destruct (search_SUB (strip l)); simpl; repeat split; apply strip_clean.
    + simpl. repeat split; try apply strip_clean; apply clean_nil.
  - simpl. repeat split; try apply strip_clean; apply clean_nil.
Qed.

(** The venue part of a formatted title, once stripped. *)
Lemma venue_part (l s : str) :
  clean l -> clean s ->
  strip (32%N :: l ++ (if nonempty s then ustr " SUB " ++ s else []))
  = if nonempty s
    then (if nonempty l then l ++ ustr " SUB " ++ s else ustr "SUB " ++ s)
    else l.
Proof.
  intros Hl Hs. rewrite strip_space_l.
  destruct s as [|c s]; simpl nonempty; cbv iota.
  - by rewrite app_nil_r.
  - apply clean_iff in Hs as [Hs1 Hs2].
    assert (Hend : forall x, head_ok (rev (x ++ c :: s)) = true).
    { intros x. rewrite rev_app_distr.
      destruct (rev (c :: s)) eqn:E; [|done].
      apply (f_equal (@length N)) in E. rewrite length_rev in E. done. }
    destruct l as [|d l]; simpl nonempty; cbv iota.
    + change ([] ++ ?x) with x. change (ustr " SUB " ++ c :: s) with (32%N :: (ustr "SUB " ++ c :: s)).
      rewrite strip_space_l. apply clean_iff. split; [done|]. apply Hend.
    + apply clean_iff. split.
      * apply clean_iff in Hl as [Hl1 _]. done.
      * rewrite app_assoc. apply Hend.
Qed.

(** X2.  A title written in the documented format
    "Artista | Evento, Local [SUB Substituto]" is parsed back into its four
    fields, provided the fields are clean, the performer has no [|], the
    event has no [,] and the venue has no word [SUB]. *)
Theorem parse_format_round_trip (a e l s : str) :
  clean a -> contains 124 a = false ->
  clean e -> contains 44 e = false ->
  clean l -> search_SUB l = None ->
  clean s ->
  parse_event_title (format_title a e l s) = (a, e, l, s).
Proof.
  intros Ha Hbar He Hcomma Hl Hsub Hs.
  unfold parse_event_title, format_title.
  change (ustr " | ") with [32%N; 124%N; 32%N].
  change (ustr ", ") with [44%N; 32%N].
  set (tail := if nonempty s then ustr " SUB " ++ s else []).
  assert (Hne : nonempty (a ++ [32%N; 124%N; 32%N] ++ e ++ [44%N; 32%N] ++ l ++ tail) = true)
    by (by destruct a).
  rewrite Hne. cbn [negb].
  replace (a ++ [32%N; 124%N; 32%N] ++ e ++ [44%N; 32%N] ++ l ++ tail)
    with ((a ++ [32%N]) ++ 124%N :: (32%N :: e ++ 44%N :: 32%N :: l ++ tail))
    by (by rewrite <- app_assoc).
  assert (Hbar' : contains 124 (a ++ [32%N]) = false)
    by (by rewrite contains_app, Hbar).
  rewrite contains_app, (split_first_app _ _ _ Hbar'). simpl contains at 2.
  rewrite orb_true_r, strip_space_r, Ha, strip_space_l.
  assert (Hrest : strip (e ++ 44%N :: 32%N :: l ++ tail)
                  = e ++ 44%N :: rstrip (32%N :: l ++ tail)).
  { unfold strip.
    assert (Hl1 : lstrip (e ++ 44%N :: 32%N :: l ++ tail) = e ++ 44%N :: 32%N :: l ++ tail).
    { apply lstrip_fixed. apply clean_iff in He as [He1 _]. by destruct e. }
    rewrite Hl1, rstrip_app. simpl all_space. by rewrite (rstrip_cons 44%N). }
  rewrite Hrest, contains_app. simpl contains at 2. rewrite orb_true_r.
  rewrite (split_first_app _ _ _ Hcomma), strip_rstrip.
  assert (He' : strip e = e) by done. rewrite He'.
  unfold tail. rewrite (venue_part l s Hl Hs).
  destruct s as [|c s]; simpl nonempty; cbv iota.
  - by rewrite Hsub.
  - destruct l as [|d l]; simpl nonempty; cbv iota.
    + change (ustr "SUB " ++ c :: s) with (83%N :: 85%N :: 66%N :: 32%N :: c :: s).
      assert (Hfound : search_SUB (83%N :: 85%N :: 66%N :: 32%N :: c :: s) = Some 0%nat)
        by reflexivity.
      rewrite Hfound. simpl take. simpl drop.
      rewrite strip_space_l. by rewrite Hs.
    + change (ustr " SUB " ++ c :: s) with (32%N :: 83%N :: 85%N :: 66%N :: 32%N :: c :: s).
      unfold search_SUB in *. rewrite (search_SUB_from_app _ _ _ _ Hsub).
      replace (0 + length (d :: l) + 1)%nat with (length ((d :: l) ++ [32%N])) at 1
        by (rewrite length_app; simpl; lia).
      replace ((d :: l) ++ 32%N :: 83%N :: 85%N :: 66%N :: 32%N :: c :: s)
        with (((d :: l) ++ [32%N]) ++ 83%N :: 85%N :: 66%N :: 32%N :: c :: s)
        by (by rewrite <- app_assoc).
      rewrite take_app_length.
      replace (0 + length (d :: l) + 1 + 3)%nat
        with (length (((d :: l) ++ [32%N]) ++ [83%N; 85%N; 66%N]))
        by (rewrite !length_app; simpl; lia).
      replace (((d :: l) ++ [32%N]) ++ 83%N :: 85%N :: 66%N :: 32%N :: c :: s)
        with ((((d :: l) ++ [32%N]) ++ [83%N; 85%N; 66%N]) ++ 32%N :: c :: s)
        by (by rewrite <- !app_assoc).
      rewrite drop_app_length, strip_space_r, strip_space_l.
      by rewrite Hl, Hs.
Qed.

End Title_properties.

(** ** The order of the normalized events *)

Lemma str_leb_refl (a : str) : str_leb a a = true.
Proof. induction a as [|x a IH]; simpl; [done|]. by rewrite N.ltb_irrefl. Qed.

Lemma str_leb_total (a b : str) : str_leb a b = true \/ str_leb b a = true.
Proof.
  revert b. induction a as [|x a IH]; intros [|y b]; simpl; auto.
  destruct (N.ltb_spec x y), (N.ltb_spec y x); auto; lia.
Qed.

Section Stable_sort.
Context {A : Type} (key : A -> str).

Lemma insert_by_Sorted (x : A) (l : list A) :
  Sorted (fun a b => key_leb key a b = true) l ->
  Sorted (fun a b => key_leb key a b = true) (insert_by (key_leb key) x l).
Proof.
  induction l as [|y l IH]; simpl; intros H.
  - by repeat constructor.
  - destruct (key_leb key x y) eqn:E.
    + constructor; [done|by constructor].
    + apply Sorted_inv in H as [Hs Hh]. constructor; [by apply IH|].
      assert (Hyx : key_leb key y x = true).
      { unfold key_leb in *. destruct (str_leb_total (key y) (key x)); congruence. }
      destruct l as [|z l]; simpl; [by constructor|].
      destruct (key_leb key x z); constructor; [done|]. by apply HdRel_inv in Hh.
Qed.

Lemma sorted_by_Sorted (l : list A) :
  Sorted (fun a b => key_leb key a b = true) (sorted_by (key_leb key) l).
Proof.
  induction l as [|x l IH]; simpl; [constructor|]. by apply insert_by_Sorted.
Qed.

(** Insertion keeps the elements of one key in their order. *)
Lemma insert_by_same_key (k : str) (x : A) (l : list A) :
  List.filter (fun a => str_eqb (key a) k) (insert_by (key_leb key) x l)
  = List.filter (fun a => str_eqb (key a) k) (x :: l).
Proof.
  induction l as [|y l IH]; [done|].
  cbn [insert_by]. destruct (key_leb key x y) eqn:E; [done|].
  cbn [List.filter] in *. rewrite IH. unfold str_eqb.
  destruct (bool_decide_reflect (key x = k)) as [Hx|Hx]; [|done].
  destruct (bool_decide_reflect (key y = k)) as [Hy|Hy]; [|done].
  unfold key_leb in E. by rewrite Hx, Hy, str_leb_refl in E.
Qed.

Lemma sorted_by_same_key (k : str) (l : list A) :
  List.filter (fun a => str_eqb (key a) k) (sorted_by (key_leb key) l)
  = List.filter (fun a => str_eqb (key a) k) l.
Proof.
  induction l as [|x l IH]; [done|].
  cbn [sorted_by foldr]. fold (sorted_by (key_leb key) l).
  rewrite insert_by_same_key. cbn [List.filter]. by rewrite IH.
Qed.

End Stable_sort.

Section Order_of_concerts.
Context {rt : Runtime}.

(** X3.  The normalizer returns one concert per stored event, taken in
    ascending order of the raw start strings (code point by code point,
    whatever instants they denote); events with the same start keep the
    order they have in the store. *)
Theorem concerts_ordered_by_raw_start (events : list (str * event))
    (concert_data : gmap str override) (agencies : list (list (str * str)))
    (distances : gmap str float) :
  exists ordered : list (str * event),
    Permutation ordered events
    /\ Sorted (fun x y => str_leb (start_key x) (start_key y) = true) ordered
    /\ (forall k, List.filter (fun x => str_eqb (start_key x) k) ordered
                  = List.filter (fun x => str_eqb (start_key x) k) events)
    /\ _build_concerts_from_local events concert_data agencies distances
       = map (fun x => concert_of concert_data (_build_artist_base_cachet agencies)
                         distances x.1 x.2) ordered
    /\ map c_id (_build_concerts_from_local events concert_data agencies distances)
       = map fst ordered.
Proof.
  exists (events_sorted events). unfold events_sorted. split; [apply sorted_by_Permutation|].
  split; [apply (sorted_by_Sorted start_key)|].
  split; [intros k; apply (sorted_by_same_key start_key)|].
  split; [done|].
  unfold _build_concerts_from_local, events_sorted. rewrite map_map.
  apply map_ext. intros [id ev].
  exact (proj1 (concert_of_fields concert_data (_build_artist_base_cachet agencies)
                  distances id ev)).
Qed.

End Order_of_concerts.

(** ** The table of base fees *)

Lemma artist_base_flat (agencies : list (list (str * str))) (m : gmap str str) :
  fold_left (fun lookup ag => fold_left base_step ag lookup) agencies m
  = fold_left base_step (concat agencies) m.
Proof.
  revert m. induction agencies as [|ag ags IH]; intros m; simpl; [done|].
  by rewrite fold_left_app, IH.
Qed.

Lemma artist_base_concat (agencies : list (list (str * str))) :
  _build_artist_base_cachet agencies = fold_left base_step (concat agencies) ∅.
Proof. apply artist_base_flat. Qed.

Lemma last_cons {A} (b a : A) (r : list A) : List.last (b :: r) a = List.last r b.
Proof.
  revert a b. induction r as [|c r IH]; intros a b; [done|].
  change (List.last (b :: c :: r) a) with (List.last (c :: r) a).
  by rewrite (IH a c), (IH b c).
Qed.

Lemma base_fold_lookup (l : list (str * str)) (m : gmap str str) (name : str) :
  fold_left base_step l m !! name
  = match List.filter (fun a => valid_entry a && str_eqb a.1 name) l with
    | [] => m !! name
    | a :: r => Some (List.last r a).2
    end.
Proof.
  revert m. induction l as [|a l IH]; intros m; [done|].
  cbn [fold_left List.filter]. rewrite IH. unfold base_step.
  destruct (valid_entry a) eqn:V; cbn [andb]; [|done].
  unfold str_eqb at 2. destruct (bool_decide_reflect (a.1 = name)) as [<-|Hn].
  - destruct (List.filter _ l) as [|b r] eqn:F.
    + by rewrite lookup_insert_eq.
    + by rewrite last_cons.
  - destruct (List.filter _ l) as [|b r] eqn:F; [|done].
    by rewrite lookup_insert_ne.
Qed.

(** X4.  The table of base fees has an entry for a name exactly when some
    agency lists that name with a non-empty name and a non-empty fee; the
    entry is then the fee of the last such listing, so it is never empty. *)
Theorem base_fee_is_last_listing (agencies : list (list (str * str))) (name : str) :
  _build_artist_base_cachet agencies !! name
  = match List.filter (fun a => valid_entry a && str_eqb a.1 name) (concat agencies) with
    | [] => None
    | a :: r => Some (List.last r a).2
    end
  /\ (forall fee, _build_artist_base_cachet agencies !! name = Some fee ->
        nonempty name = true /\ nonempty fee = true
        /\ exists ag, In ag agencies /\ In (name, fee) ag).
Proof.
  rewrite artist_base_concat, base_fold_lookup, lookup_empty. split; [done|].
  intros fee. destruct (List.filter _ _) as [|a r] eqn:F; [done|].
  intros [= <-].
  assert (Hin : In (List.last r a) (List.filter (fun a => valid_entry a && str_eqb a.1 name)
                                      (concat agencies))).
  { rewrite F. destruct (exists_last (l := a :: r)) as (l' & z & E); [done|].
    rewrite E.
    assert (List.last r a = z) as ->.
    { rewrite <- (last_cons a a r), E. apply last_last. }
    apply in_or_app. right. by left. }
  apply filter_In in Hin as [Hc Hv]. apply andb_prop in Hv as [Hv Hn].
  unfold str_eqb in Hn. apply bool_decide_eq_true_1 in Hn.
  apply andb_prop in Hv as [Hv1 Hv2].
  destruct (List.last r a) as [n f]. simpl in *. subst n.
  split; [done|]. split; [done|].
  apply in_concat in Hc as (ag & Hag & Hin). eauto.
Qed.

(** ** Insertion-ordered dictionaries *)

Section Dict.
Context {V : Type}.
Implicit Types (d : list (str * V)) (k : str) (v : V).

Lemma str_eqb_eq (a b : str) : str_eqb a b = true <-> a = b.
Proof. unfold str_eqb. apply bool_decide_eq_true. Qed.

Lemma str_eqb_refl (a : str) : str_eqb a a = true.
Proof. by apply str_eqb_eq. Qed.

Lemma str_eqb_ne (a b : str) : a <> b -> str_eqb a b = false.
Proof. unfold str_eqb. apply bool_decide_eq_false_2. Qed.

Lemma dict_get_set_eq k v d : dict_get k (dict_set k v d) = Some v.
Proof.
  induction d as [|[k' v'] d IH]; simpl.
  - by rewrite str_eqb_refl.
  - destruct (str_eqb k' k) eqn:E; simpl; by rewrite E.
Qed.

Lemma dict_get_set_ne k k' v d : k <> k' -> dict_get k' (dict_set k v d) = dict_get k' d.
Proof.
  intros Hne. induction d as [|[k0 v0] d IH]; simpl.
  - by rewrite str_eqb_ne.
  - destruct (str_eqb k0 k) eqn:E; simpl.
    + apply str_eqb_eq in E as ->. by rewrite str_eqb_ne.
    + by rewrite IH.
Qed.

Lemma dict_get_None k d : dict_get k d = None <-> ~ In k (map fst d).
Proof.
  induction d as [|[k' v'] d IH]; simpl; [tauto|].
  destruct (str_eqb k' k) eqn:E.
  - apply str_eqb_eq in E as ->. split; [done|]. intros H. destruct H. by left.
  - rewrite IH. split; [|tauto]. intros H [->|H']; [|done].
    by rewrite str_eqb_refl in E.
Qed.

Lemma dict_get_In k v d : dict_get k d = Some v -> In (k, v) d.
Proof.
  induction d as [|[k' v'] d IH]; simpl; [done|].
  destruct (str_eqb k' k) eqn:E.
  - apply str_eqb_eq in E as ->. intros [= ->]. by left.
  - intros H. right. by apply IH.
Qed.

Lemma dict_In_get k v d : List.NoDup (map fst d) -> In (k, v) d -> dict_get k d = Some v.
Proof.
  induction d as [|[k' v'] d IH]; simpl; [done|].
  intros Hnd [[= -> ->]|Hin].
  - by rewrite str_eqb_refl.
  - apply NoDup_cons_iff in Hnd as [Hk Hnd].
    rewrite str_eqb_ne; [by apply IH|]. intros ->. apply Hk.
    apply in_map_iff. by exists (k, v).
Qed.

(** A new key goes last; an existing key keeps its place. *)
Lemma dict_set_keys k v d :
  map fst (dict_set k v d)
  = match dict_get k d with
    | Some _ => map fst d
    | None => map fst d ++ [k]
    end.
Proof.
  induction d as [|[k' v'] d IH]; simpl; [done|].
  destruct (str_eqb k' k) eqn:E; simpl; [done|].
  rewrite IH. by destruct (dict_get k d).
Qed.

Lemma dict_set_fresh k v d : dict_get k d = None -> dict_set k v d = d ++ [(k, v)].
Proof.
  induction d as [|[k' v'] d IH]; simpl; [done|].
  destruct (str_eqb k' k); [done|]. intros H. by rewrite IH.
Qed.

Lemma dict_set_NoDup k v d : List.NoDup (map fst d) -> List.NoDup (map fst (dict_set k v d)).
Proof.
  intros H. rewrite dict_set_keys. destruct (dict_get k d) eqn:E; [done|].
  apply dict_get_None in E. apply NoDup_ListNoDup, NoDup_app. split_and!.
  - by apply NoDup_ListNoDup.
  - intros x Hx Hk. apply list_elem_of_singleton in Hk as ->.
    by apply E, list_elem_of_In.
  - apply NoDup_singleton.
Qed.

(** Dictionaries with the same keys in the same order and the same
    values are equal. *)
Lemma dict_ext d1 d2 :
  List.NoDup (map fst d1) -> map fst d1 = map fst d2 ->
  (forall k, dict_get k d1 = dict_get k d2) -> d1 = d2.
Proof.
  revert d2. induction d1 as [|[k v] d1 IH]; intros [|[k' v'] d2]; simpl; try done.
  intros Hnd [= <- Hk] Hget. apply NoDup_cons_iff in Hnd as [Hnk Hnd].
  pose proof (Hget k) as H0. simpl in H0. rewrite str_eqb_refl in H0.
  injection H0 as <-. f_equal. apply IH; [done|done|].
  intros k'. pose proof (Hget k') as H1. simpl in H1.
  destruct (str_eqb k k') eqn:E; [|done].
  apply str_eqb_eq in E as <-.
  assert (dict_get k d1 = None) as -> by (by apply dict_get_None).
  symmetry. apply dict_get_None. by rewrite <- Hk.
Qed.

Lemma dict_get_pop k k' d :
  dict_get k' (dict_pop k d) = if str_eqb k k' then None else dict_get k' d.
Proof.
  unfold dict_pop. induction d as [|[k0 v0] d IH]; simpl.
  - by destruct (str_eqb k k').
  - destruct (str_eqb k0 k) eqn:E; simpl.
    + apply str_eqb_eq in E as ->. rewrite IH. by destruct (str_eqb k k').
    + destruct (str_eqb k0 k') eqn:E'; [|done].
      apply str_eqb_eq in E' as ->.
      destruct (str_eqb k k') eqn:E2; [|done].
      apply str_eqb_eq in E2 as ->. by rewrite str_eqb_refl in E.
Qed.

End Dict.

(** ** Distances *)

Section Distance_properties.
Context {rt : Runtime}.

Lemma concert_of_km concert_data artist_base distances id (ev : event) :
  let c := concert_of concert_data artist_base distances id ev in
  c_km c = if nonempty (c_local c) then distances !! c_local c else None.
Proof.
  unfold concert_of. destruct (parse_start _) as [[[d t] y] m].
  by destruct (parse_event_title _) as [[[a e] l] s].
Qed.

(** X5.  A distance request never loses what the cache holds: every
    entry other than the version mark is still there, unchanged,
    afterwards.  The cache is left exactly as it was when the destination
    is empty or cached or the web services give no distance; for an empty
    or cached destination no web service is consulted and nothing is
    written (the answer is the same whatever they would do).  A distance
    that is fetched is put in the cache in memory, with the version mark,
    whether or not the cache file can be written: the request answers the
    distance when the file is written and nothing when it is not. *)
Theorem distance_cache_only_grows
    (geocode geocode' : str -> option (float * float))
    (route route' : float * float -> float * float -> option float)
    (save_json save_json' : gmap str float -> bool)
    (cache : gmap str float) (destination : str) :
  let r := driving_distance_km geocode route save_json cache destination in
  (forall k v, k <> version_key -> cache !! k = Some v -> r.2 !! k = Some v)
  /\ (nonempty destination = false \/ is_Some (cache !! destination)
      \/ fetched geocode route destination = None ->
      r.2 = cache)
  /\ (forall km,
        nonempty destination = true -> cache !! destination = None ->
        fetched geocode route destination = Some km ->
        r.2 = <[version_key := 2%float]> (<[destination := km]> cache)
        /\ r.1 = if save_json r.2 then Some km else None)
  /\ (nonempty destination = false \/ is_Some (cache !! destination) ->
      r = driving_distance_km geocode' route' save_json' cache destination).
Proof.
  intros r.
  assert (Hkeep : forall k v, k <> version_key -> cache !! k = Some v -> r.2 !! k = Some v).
  { intros k v Hk Hv. unfold r, driving_distance_km.
    destruct (nonempty destination); simpl; [|done].
    destruct (cache !! destination) eqn:E; simpl; [done|].
    destruct (geocode ORIGIN); [|done]. destruct (geocode destination); [|done].
    destruct (route _ _); [|done].
    assert (Hnew : <[version_key := 2%float]>
                     (<[destination := py_round (f / 1000 * 2) 1]> cache) !! k = Some v).
    { rewrite lookup_insert_ne; [|done]. rewrite lookup_insert_ne; [done|].
      intros <-. congruence. }
    by destruct (save_json _). }
  assert (Hsame : nonempty destination = false \/ is_Some (cache !! destination)
                  \/ fetched geocode route destination = None -> r.2 = cache).
  { unfold r, driving_distance_km, fetched.
    destruct (nonempty destination); simpl; [|done].
    destruct (cache !! destination) eqn:E; simpl; [done|].
    intros [H|[[x H]|H]]; [done|done|].
    destruct (geocode ORIGIN); [|done]. destruct (geocode destination); [|done].
    by destruct (route _ _). }
  assert (Hfetch : forall km,
            nonempty destination = true -> cache !! destination = None ->
            fetched geocode route destination = Some km ->
            r.2 = <[version_key := 2%float]> (<[destination := km]> cache)
            /\ r.1 = if save_json r.2 then Some km else None).
  { intros km Hn Hc. unfold r, driving_distance_km, fetched. rewrite Hn, Hc. simpl.
    destruct (geocode ORIGIN); [|done]. destruct (geocode destination); [|done].
    destruct (route _ _); [|done]. intros [= <-].
    destruct (save_json _) eqn:S; simpl; by rewrite S. }
  split; [done|]. split; [done|]. split; [done|].
  intros H. unfold r, driving_distance_km.
  destruct (nonempty destination); simpl; [|done].
  destruct H as [H|[x H]]; [done|]. by rewrite H.
Qed.

(** X6.  A distance once obtained is remembered: when a request for a
    destination other than the version mark returns a distance, any later
    request for it returns the same distance from the cache, leaves the
    cache as it is whatever the web services would answer, and the
    normalizer shows that distance for every event at that venue. *)
Theorem distance_is_memoised
    (geocode geocode' : str -> option (float * float))
    (route route' : float * float -> float * float -> option float)
    (save_json save_json' : gmap str float -> bool)
    (cache cache' : gmap str float) (destination : str) (km : float)
    (concert_data : gmap str override) (artist_base : gmap str str)
    (id : str) (ev : event) :
  destination <> version_key ->
  driving_distance_km geocode route save_json cache destination = (Some km, cache') ->
  driving_distance_km geocode' route' save_json' cache' destination = (Some km, cache')
  /\ (c_local (concert_of concert_data artist_base cache' id ev) = destination ->
      c_km (concert_of concert_data artist_base cache' id ev) = Some km).
Proof.
  intros Hv H.
  assert (Hne : nonempty destination = true /\ cache' !! destination = Some km).
  { unfold driving_distance_km in H.
    destruct (nonempty destination); simpl in H; [|done]. split; [done|].
    destruct (cache !! destination) as [x|] eqn:E.
    - by injection H as -> ->.
    - destruct (geocode ORIGIN); [|done]. destruct (geocode destination); [|done].
      destruct (route _ _); [|done]. destruct (save_json _); [|done].
      injection H as <- <-.
      rewrite lookup_insert_ne; [|done]. apply lookup_insert_eq. }
  destruct Hne as [Hne Hc]. split.
  - unfold driving_distance_km. by rewrite Hne, Hc.
  - intros Hl. rewrite concert_of_km, Hl, Hne. done.
Qed.

End Distance_properties.

(** ** Editing concerts *)

Section Edit_properties.
Context {rt : Runtime}.
Context (geocode : str -> option (float * float)).
Context (route : float * float -> float * float -> option float).
Context (save_json : gmap str float -> bool).

Lemma update_concert_data data cache event_id field value f :
  field_of field = Some f ->
  exists cache' km,
    update_concert geocode route save_json data cache event_id field value
    = Some (<[event_id := set_field f (stripped value)
                            (default no_override (data !! event_id))]> data,
            cache', km).
Proof.
  intros Hf. unfold update_concert, stripped. rewrite Hf.
  destruct (match f with F_local => _ | _ => _ end) as [km cache']. eauto.
Qed.


(** The overrides after a request, whether it was accepted or not. *)
Lemma set_field_comm (f1 f2 : concert_field) (v1 v2 : str) (ov : override) :
  f1 <> f2 ->
  set_field f1 v1 (set_field f2 v2 ov) = set_field f2 v2 (set_field f1 v1 ov).
Proof. destruct f1, f2; try done. Qed.

Lemma set_field_twice (f : concert_field) (v1 v2 : str) (ov : override) :
  set_field f v2 (set_field f v1 ov) = set_field f v2 ov.
Proof. by destruct f. Qed.

End Edit_properties.

Lemma field_of_inj (s1 s2 : str) (f : concert_field) :
  field_of s1 = Some f -> field_of s2 = Some f -> s1 = s2.
Proof.
  unfold field_of, str_eqb. intros H1 H2.
  repeat case_bool_decide; congruence.
Qed.

Section Edit_order.
Context (geocode : str -> option (float * float)).
Context (route : float * float -> float * float -> option float).
Context (save_json : gmap str float -> bool).

Lemma overrides_after_eq data cache event_id field value :
  overrides_after geocode route save_json data cache event_id field value
  = match field_of field with
    | Some f =>
        <[event_id := set_field f (stripped value)
                        (default no_override (data !! event_id))]> data
    | None => data
    end.
Proof.
  unfold overrides_after. destruct (field_of field) as [f|] eqn:Hf.
  - destruct (update_concert_data geocode route save_json data cache event_id field value f Hf)
      as (c & k & ->). done.
  - unfold update_concert. by rewrite Hf.
Qed.

(** X8.  Edits of different fields, or of different events, can be made
    in either order with the same overrides as a result, and of two edits
    of the same field of the same event the later one alone counts
    (whatever the distance cache holds at each request). *)
Theorem edits_commute_and_last_wins (data : gmap str override)
    (c1 c2 c3 c4 : gmap str float) (id1 id2 field1 field2 : str)
    (v1 v2 : option str) :
  (id1 <> id2 \/ field1 <> field2 ->
   overrides_after geocode route save_json
     (overrides_after geocode route save_json data c1 id1 field1 v1) c2 id2 field2 v2
   = overrides_after geocode route save_json
       (overrides_after geocode route save_json data c3 id2 field2 v2) c4 id1 field1 v1)
  /\ overrides_after geocode route save_json
       (overrides_after geocode route save_json data c1 id1 field1 v1) c2 id1 field1 v2
     = overrides_after geocode route save_json data c3 id1 field1 v2.
Proof.
  rewrite !overrides_after_eq. split.
  - intros Hne.
    destruct (field_of field1) as [f1|] eqn:H1, (field_of field2) as [f2|] eqn:H2;
      try done.
    destruct (decide (id1 = id2)) as [<-|Hid].
    + assert (Hf : f1 <> f2).
      { intros <-. destruct Hne as [?|Hn]; [done|].
        apply Hn. by eapply field_of_inj. }
      rewrite !lookup_insert_eq, !insert_insert_eq. simpl.
      by rewrite set_field_comm.
    + rewrite !lookup_insert_ne by done. by apply insert_insert_ne.
  - destruct (field_of field1) as [f1|]; [|done].
    rewrite lookup_insert_eq, insert_insert_eq. simpl. by rewrite set_field_twice.
Qed.

End Edit_order.

(** ** Sorting and removal *)

Lemma str_leb_trans (a b c : str) :
  str_leb a b = true -> str_leb b c = true -> str_leb a c = true.
Proof.
  revert b c. induction a as [|x a IH]; intros [|y b] [|z c]; simpl; try done.
  destruct (N.ltb_spec x y), (N.ltb_spec y x), (N.ltb_spec y z), (N.ltb_spec z y),
    (N.ltb_spec x z), (N.ltb_spec z x); try done; try lia.
  apply IH.
Qed.

Section Sort_filter.
Context {A : Type} (key : A -> str) (P : A -> bool).

Lemma insert_by_below (x : A) (l : list A) :
  Forall (fun y => key_leb key x y = true) l -> insert_by (key_leb key) x l = x :: l.
Proof. destruct 1 as [|y l Hy _]; simpl; [done|]. by rewrite Hy. Qed.

Lemma insert_by_filter (x : A) (l : list A) :
  Sorted (fun a b => key_leb key a b = true) l ->
  List.filter P (insert_by (key_leb key) x l)
  = if P x then insert_by (key_leb key) x (List.filter P l) else List.filter P l.
Proof.
  induction l as [|y l IH]; intros Hs.
  - simpl. by destruct (P x).
  - assert (Htr : Transitive (fun a b => key_leb key a b = true)).
    { intros a b c. unfold key_leb. apply str_leb_trans. }
    pose proof (Sorted_extends Htr Hs) as Hall.
    apply Sorted_inv in Hs as [Hs _]. specialize (IH Hs).
    cbn [insert_by]. destruct (key_leb key x y) eqn:E.
    + cbn [List.filter]. destruct (P x) eqn:Px; [|done].
      destruct (P y) eqn:Py.
      * cbn [insert_by]. by rewrite E.
      * symmetry. apply insert_by_below.
        apply List.Forall_forall. intros z Hz. apply filter_In in Hz as [Hz _].
        rewrite List.Forall_forall in Hall. eapply Htr; [exact E|]. by apply Hall.
    + cbn [List.filter]. destruct (P y) eqn:Py.
      * rewrite IH. destruct (P x); [|done]. cbn [insert_by]. by rewrite E.
      * apply IH.
Qed.

Lemma sorted_by_filter (l : list A) :
  sorted_by (key_leb key) (List.filter P l) = List.filter P (sorted_by (key_leb key) l).
Proof.
  induction l as [|x l IH]; [done|].
  cbn [sorted_by foldr List.filter]. fold (sorted_by (key_leb key) l).
  rewrite insert_by_filter by apply sorted_by_Sorted.
  destruct (P x); [|done]. cbn [sorted_by foldr]. by rewrite <- IH.
Qed.

End Sort_filter.

(** ** Adding and deleting concerts *)

Section Add_delete.
Context {rt : Runtime}.

#[local] Opaque ustr.

Lemma concert_of_other_override (data data' : gmap str override)
    artist_base distances id (ev : event) :
  data' !! id = data !! id ->
  concert_of data' artist_base distances id ev
  = concert_of data artist_base distances id ev.
Proof. intros H. unfold concert_of. by rewrite H. Qed.

(** X9.  A concert added through [api_add_concert] under a new
    identifier appears in the normalized list with exactly the submitted
    fields, stripped (the fee subject to the substitute and base-fee
    rules), and the concerts that were there are all still there,
    unchanged. *)
Theorem added_concert_is_listed
    (geocode : str -> option (float * float))
    (route : float * float -> float * float -> option float)
    (save_json : gmap str float -> bool)
    (uuid : str) (body : new_concert) (events events' : list (str * event))
    (data data' : gmap str override) (cache cache' : gmap str float)
    (id : str) (agencies : list (list (str * str))) (distances : gmap str float) :
  api_add_concert geocode route save_json uuid body events data cache
  = Some (id, events', data', cache') ->
  dict_get id events = None ->
  exists c,
    Permutation (_build_concerts_from_local events' data' agencies distances)
                (c :: _build_concerts_from_local events data agencies distances)
    /\ c_id c = id
    /\ c_artista c = stripped (n_artista body)
    /\ c_evento c = stripped (n_evento body)
    /\ c_local c = stripped (n_local body)
    /\ c_substituto c = stripped (n_substituto body)
    /\ c_cachet c
       = (if nonempty (stripped (n_substituto body)) then ustr "0"
          else if nonempty (stripped (n_cachet body)) then stripped (n_cachet body)
          else default [] (_build_artist_base_cachet agencies
                             !! stripped (n_artista body)))
    /\ (c_date c, c_time c, c_year c, c_month c) = parse_start (new_start body).
Proof.
  unfold api_add_concert. destruct (nonempty (stripped (n_date body))); [|done].
  cbn [negb]. intros [= <- <- <- _] Hfresh.
  set (id := ustr "local_" ++ uuid) in *.
  set (ev := {| ev_start := Some (new_start body); ev_summary := Some [] |}).
  set (data' := <[id := new_override body]> data).
  set (ab := _build_artist_base_cachet agencies).
  exists (concert_of data' ab distances id ev). split.
  - unfold _build_concerts_from_local, events_sorted. fold ab.
    rewrite (dict_set_fresh _ _ _ Hfresh).
    rewrite sorted_by_Permutation.
    rewrite Permutation_app_comm. simpl. constructor.
    rewrite (Permutation_map _ (sorted_by_Permutation _ events)).
    apply Permutation_refl'. apply map_ext_in. intros [id' ev'] Hin. simpl.
    symmetry. apply concert_of_other_override. unfold data'.
    symmetry. apply lookup_insert_ne. intros <-.
    apply dict_get_None in Hfresh. apply Hfresh.
    apply in_map_iff. by exists (id, ev').
  - destruct (concert_of_fields data' ab distances id ev)
      as (Hid & Ha & He & Hl & Hs & Hc & Hd).
    cbv zeta in Ha, He, Hl, Hs, Hc. unfold data' in Ha, He, Hl, Hs, Hc.
    rewrite lookup_insert_eq in Ha, He, Hl, Hs, Hc.
    simpl in Ha, He, Hl, Hs, Hc. fold data' in Ha, He, Hl, Hs, Hc.
    rewrite Hs, Ha in Hc. by repeat split.
Qed.

(** X10.  Deleting a concert removes exactly the records with its
    identifier from the normalized list and keeps the others in the same
    order, with the same fields. *)
Theorem deleted_concert_is_gone (event_id : option str)
    (events events' : list (str * event)) (data data' : gmap str override)
    (deleted deleted' : list str)
    (agencies : list (list (str * str))) (distances : gmap str float) :
  api_delete_concert event_id events data deleted = Some (events', data', deleted') ->
  _build_concerts_from_local events' data' agencies distances
  = List.filter (fun c => negb (str_eqb (c_id c) (stripped event_id)))
      (_build_concerts_from_local events data agencies distances).
Proof.
  unfold api_delete_concert. destruct (nonempty (stripped event_id)); [|done].
  cbn [negb]. intros [= <- <- _].
  unfold _build_concerts_from_local, events_sorted, dict_pop.
  rewrite (sorted_by_filter start_key).
  set (l := sorted_by _ events). clearbody l.
  induction l as [|[id ev] l IH]; [done|]. simpl.
  rewrite (proj1 (concert_of_fields data _ distances id ev)).
  destruct (str_eqb id (stripped event_id)) eqn:E; simpl; [done|].
  rewrite IH. f_equal. apply concert_of_other_override.
  apply lookup_delete_ne. intros <-. by rewrite str_eqb_refl in E.
Qed.

(** X11.  Deleting is idempotent, and it records calendar events only:
    an identifier that does not start with [local_] is on the list of
    deleted events afterwards, exactly once if the list had no repetition;
    for a local identifier the list is left as it is. *)
Theorem delete_records_calendar_events (event_id : option str)
    (events events' : list (str * event)) (data data' : gmap str override)
    (deleted deleted' : list str) :
  api_delete_concert event_id events data deleted = Some (events', data', deleted') ->
  api_delete_concert event_id events' data' deleted' = Some (events', data', deleted')
  /\ (starts_with (ustr "local_") (stripped event_id) = true -> deleted' = deleted)
  /\ (starts_with (ustr "local_") (stripped event_id) = false ->
      In (stripped event_id) deleted')
  /\ (forall x, In x deleted -> In x deleted')
  /\ (List.NoDup deleted -> List.NoDup deleted').
Proof.
  unfold api_delete_concert. destruct (nonempty (stripped event_id)); [|done].
  cbn [negb]. intros [= <- <- <-].
  set (id := stripped event_id).
  assert (Hpop : dict_pop id (dict_pop id events) = dict_pop id events).
  { unfold dict_pop. induction events as [|[k v] l IH]; [done|]. simpl.
    destruct (str_eqb k id) eqn:E; simpl; [done|]. by rewrite E, IH. }
  destruct (starts_with (ustr "local_") id) eqn:Hl.
  - rewrite Hpop, delete_delete_eq. repeat split; auto. done.
  - destruct (existsb (str_eqb id) deleted) eqn:Hin.
    + rewrite Hin, Hpop, delete_delete_eq. repeat split; auto; try done.
      intros _. apply existsb_exists in Hin as (x & Hx & Hxe).
      by apply str_eqb_eq in Hxe as ->.
    + assert (Hin' : existsb (str_eqb id) (deleted ++ [id]) = true).
      { rewrite existsb_app. simpl. by rewrite str_eqb_refl, orb_true_r. }
      rewrite Hin', Hpop, delete_delete_eq. repeat split; try done.
      * intros _. apply in_or_app. right. by left.
      * intros x Hx. apply in_or_app. by left.
      * intros Hnd. apply NoDup_ListNoDup, NoDup_app. split_and!.
        -- by apply NoDup_ListNoDup.
        -- intros x Hx Hx'. apply list_elem_of_singleton in Hx' as ->.
           assert (existsb (str_eqb id) deleted = true); [|congruence].
           apply existsb_exists. exists id. split; [by apply list_elem_of_In|].
           apply str_eqb_refl.
        -- apply NoDup_singleton.
Qed.

#[local] Transparent ustr.

End Add_delete.

(** ** Synchronisation *)

Lemma sync_fold_get (deleted : list str) (items : list calendar_item)
    (st : list (str * event) * nat) (id : str) :
  dict_get id (fold_left (sync_step deleted) items st).1
  = if existsb (str_eqb id) deleted then dict_get id st.1
    else match List.filter (fun it => str_eqb (item_id it) id) items with
         | [] => dict_get id st.1
         | it :: r => Some (item_event (List.last r it))
         end.
Proof.
  revert st. induction items as [|it items IH]; intros st.
  - simpl. by destruct (existsb _ _).
  - cbn [fold_left List.filter]. rewrite IH. clear IH.
    destruct (existsb (str_eqb id) deleted) eqn:Hd.
    + unfold sync_step.
      destruct (existsb (str_eqb (item_id it)) deleted) eqn:Hd'; [done|].
      assert (Hne : item_id it <> id) by (intros Heq; congruence).
      destruct (dict_get (item_id it) st.1); simpl; by rewrite dict_get_set_ne.
    + destruct (str_eqb (item_id it) id) eqn:E.
      * apply str_eqb_eq in E as <-. unfold sync_step. rewrite Hd.
        assert (Hset : dict_get (item_id it)
                         (if dict_get (item_id it) st.1 is Some _
                          then (dict_set (item_id it) (item_event it) st.1, st.2)
                          else (dict_set (item_id it) (item_event it) st.1, S st.2)).1
                       = Some (item_event it)).
        { destruct (dict_get (item_id it) st.1); simpl; apply dict_get_set_eq. }
        destruct (List.filter _ items) as [|b r].
        -- destruct (dict_get (item_id it) st.1); simpl; apply dict_get_set_eq.
        -- by rewrite last_cons.
      * assert (Hne : item_id it <> id).
        { intros Heq. rewrite Heq, str_eqb_refl in E. done. }
        assert (Hst : dict_get id (sync_step deleted st it).1 = dict_get id st.1).
        { unfold sync_step. destruct (existsb (str_eqb (item_id it)) deleted); [done|].
          destruct (dict_get (item_id it) st.1); simpl; by rewrite dict_get_set_ne. }
        by rewrite Hst.
Qed.

Lemma sync_fold_keys (deleted : list str) (items : list calendar_item)
    (st : list (str * event) * nat) :
  exists new_ids,
    map fst (fold_left (sync_step deleted) items st).1 = map fst st.1 ++ new_ids
    /\ (fold_left (sync_step deleted) items st).2 = (st.2 + length new_ids)%nat
    /\ (List.NoDup (map fst st.1) ->
        List.NoDup (map fst (fold_left (sync_step deleted) items st).1))
    /\ (forall id, In id new_ids <->
          existsb (str_eqb id) deleted = false
          /\ In id (map item_id items) /\ dict_get id st.1 = None).
Proof.
  revert st. induction items as [|it items IH]; intros st.
  - exists []. simpl. rewrite app_nil_r. split; [done|]. split; [lia|].
    split; [done|]. intros id. split; [done|]. by intros (_ & [] & _).
  - cbn [fold_left]. destruct (IH (sync_step deleted st it)) as (new & Hk & Hn & Hnd & Hin).
    clear IH. unfold sync_step in *.
    destruct (existsb (str_eqb (item_id it)) deleted) eqn:Hd.
    + exists new. split; [done|]. split; [done|]. split; [done|].
      intros id. rewrite Hin. split.
      * intros (H1 & H2 & H3). split; [done|]. split; [by right|done].
      * intros (H1 & [<-|H2] & H3); [congruence|done].
    + destruct (dict_get (item_id it) st.1) as [old|] eqn:Hg.
      * simpl in *. rewrite dict_set_keys, Hg in Hk.
        exists new. split; [done|]. split; [done|].
        split; [intros H; apply Hnd; by apply dict_set_NoDup|].
        intros id. rewrite Hin. split.
        -- intros (H1 & H2 & H3). split; [done|]. split; [by right|].
           destruct (decide (item_id it = id)) as [<-|Hne].
           ++ by rewrite dict_get_set_eq in H3.
           ++ by rewrite dict_get_set_ne in H3.
        -- intros (H1 & [<-|H2] & H3); [congruence|]. split; [done|]. split; [done|].
           destruct (decide (item_id it = id)) as [<-|Hne]; [congruence|].
           by rewrite dict_get_set_ne.
      * simpl in *. rewrite dict_set_keys, Hg in Hk.
        exists (item_id it :: new). split; [by rewrite Hk, <- app_assoc|].
        split; [rewrite Hn; simpl; lia|].
        split; [intros H; apply Hnd; by apply dict_set_NoDup|].
        intros id. simpl. rewrite Hin. split.
        -- intros [<-|(H1 & H2 & H3)]; [by auto|]. split; [done|]. split; [by right|].
           destruct (decide (item_id it = id)) as [<-|Hne].
           ++ by rewrite dict_get_set_eq in H3.
           ++ by rewrite dict_get_set_ne in H3.
        -- intros (H1 & H2 & H3).
           destruct (decide (item_id it = id)) as [<-|Hne]; [by left|]. right.
           split; [done|]. split; [by destruct H2|]. by rewrite dict_get_set_ne.
Qed.

(** X12.  After a synchronisation each stored event is what the calendar
    last said about it: an identifier on the list of deleted events is
    left as it was (in particular it is not added again), an identifier
    among the items holds the start and summary of its last item, and any
    other event is untouched. *)
Theorem sync_stores_latest_items (items : list calendar_item)
    (existing : list (str * event)) (deleted : list str) (id : str) :
  dict_get id (sync_merge items existing deleted).1
  = if existsb (str_eqb id) deleted then dict_get id existing
    else match List.filter (fun it => str_eqb (item_id it) id) items with
         | [] => dict_get id existing
         | it :: r => Some (item_event (List.last r it))
         end.
Proof. unfold sync_merge. by rewrite sync_fold_get. Qed.

(** X13.  A synchronisation keeps the stored events in their order and
    puts the new ones after them; the number it reports as added is the
    number of new identifiers, each an item's identifier that is neither
    deleted nor already stored, and identifiers stay distinct. *)
Theorem sync_appends_new_events (items : list calendar_item)
    (existing : list (str * event)) (deleted : list str) :
  exists new_ids,
    map fst (sync_merge items existing deleted).1 = map fst existing ++ new_ids
    /\ (sync_merge items existing deleted).2 = length new_ids
    /\ (List.NoDup (map fst existing) ->
        List.NoDup (map fst (sync_merge items existing deleted).1))
    /\ (forall id, In id new_ids <->
          existsb (str_eqb id) deleted = false
          /\ In id (map item_id items) /\ dict_get id existing = None).
Proof.
  unfold sync_merge.
  destruct (sync_fold_keys deleted items (existing, 0%nat)) as (new & H1 & H2 & H3 & H4).
  exists new. by repeat split; try apply H4.
Qed.

(** X14.  Synchronising twice with the same answer of the calendar is
    the same as synchronising once: the second run adds nothing and
    leaves the store as the first run left it. *)
Theorem sync_is_idempotent (items : list calendar_item)
    (existing : list (str * event)) (deleted : list str) :
  List.NoDup (map fst existing) ->
  sync_merge items (sync_merge items existing deleted).1 deleted
  = ((sync_merge items existing deleted).1, 0%nat).
Proof.
  intros Hnd. unfold sync_merge.
  set (m := (fold_left (sync_step deleted) items (existing, 0%nat)).1).
  destruct (sync_fold_keys deleted items (existing, 0%nat)) as (_ & _ & _ & Hnd1 & _).
  specialize (Hnd1 Hnd). fold m in Hnd1.
  destruct (sync_fold_keys deleted items (m, 0%nat)) as (new & Hk & Hn & _ & Hin).
  assert (Hnew : new = []).
  { destruct new as [|id new]; [done|]. exfalso.
    destruct (proj1 (Hin id) (or_introl eq_refl)) as (Hd & Hi & Hg).
    simpl in Hg. unfold m in Hg. rewrite sync_fold_get, Hd in Hg.
    apply in_map_iff in Hi as (it & <- & Hit).
    destruct (List.filter _ items) as [|b r] eqn:F; [|done].
    assert (Hf : In it (List.filter (fun it0 => str_eqb (item_id it0) (item_id it)) items)).
    { apply filter_In. split; [done|]. apply str_eqb_refl. }
    by rewrite F in Hf. }
  subst new. rewrite app_nil_r in Hk. simpl in Hk, Hn.
  destruct (fold_left (sync_step deleted) items (m, 0%nat)) as [m2 n2] eqn:E.
  simpl in Hk, Hn. subst n2. f_equal.
  apply dict_ext.
  - by rewrite Hk.
  - done.
  - intros id. replace m2 with (fold_left (sync_step deleted) items (m, 0%nat)).1
      by (by rewrite E).
    rewrite sync_fold_get. simpl.
    destruct (existsb (str_eqb id) deleted) eqn:Hd; [done|].
    destruct (List.filter _ items) as [|b r] eqn:F; [done|].
    unfold m. by rewrite sync_fold_get, Hd, F.
Qed.

Section Delete_then_sync.
Context {rt : Runtime}.

(** X15.  A calendar event deleted by the user does not come back: after
    [api_delete_concert] for an identifier that does not start with
    [local_], no later synchronisation, whatever the calendar answers,
    makes the normalizer list a concert with that identifier (the stored
    events having distinct identifiers). *)
Theorem deleted_event_stays_deleted (event_id : option str)
    (events events' : list (str * event)) (data data' : gmap str override)
    (deleted deleted' : list str) (items : list calendar_item)
    (concert_data : gmap str override) (agencies : list (list (str * str)))
    (distances : gmap str float) (c : concert) :
  api_delete_concert event_id events data deleted = Some (events', data', deleted') ->
  starts_with (ustr "local_") (stripped event_id) = false ->
  List.NoDup (map fst events) ->
  In c (_build_concerts_from_local (sync_merge items events' deleted').1
          concert_data agencies distances) ->
  c_id c <> stripped event_id.
Proof.
  intros Hdel Hloc Hnd Hc Hid.
  unfold api_delete_concert in Hdel.
  destruct (nonempty (stripped event_id)); [|done]. cbn [negb] in Hdel.
  rewrite Hloc in Hdel. injection Hdel as <- _ <-.
  set (id0 := stripped event_id) in *.
  set (deleted' := if existsb (str_eqb id0) deleted then deleted else deleted ++ [id0]) in *.
  assert (Hin : existsb (str_eqb id0) deleted' = true).
  { unfold deleted'. destruct (existsb (str_eqb id0) deleted) eqn:E; [done|].
    rewrite existsb_app. simpl. by rewrite str_eqb_refl, orb_true_r. }
  apply concerts_from_events in Hc as (id & ev & Hi & ->).
  rewrite (proj1 (concert_of_fields concert_data _ distances id ev)) in Hid. subst id.
  assert (Hget : dict_get id0 (sync_merge items (dict_pop id0 events) deleted').1 = None).
  { unfold sync_merge. rewrite sync_fold_get, Hin. simpl.
    by rewrite dict_get_pop, str_eqb_refl. }
  apply dict_get_None in Hget. apply Hget. apply in_map_iff. by exists (id0, ev).
Qed.

End Delete_then_sync.

(** ** Migration of the distance cache *)

Lemma migrate_value_cases (k : str) (v : pyval) :
  k <> version_key ->
  migrate_value k v
  = match v with
    | PInt n => PInt (n * 2)
    | PFloat f => PFloat (py_round (f * 2)%float 1)
    | _ => v
    end.
Proof. intros Hk. unfold migrate_value. by rewrite str_eqb_ne. Qed.

(** X16.  The migration doubles the stored distances once only.  Which
    of its three outcomes it has is decided by the version mark, read as
    1 when absent: with a mark that is not a number the comparison raises
    and nothing is written; with a version of 2 or more the cache is left
    as it is; with a lower version the cache is written with the version
    mark 2, every other number doubled (a float rounded to one decimal),
    every other value and the set of keys unchanged, and migrating the
    result again changes nothing. *)
Theorem migration_doubles_once (cache : gmap str pyval) :
  let version := default (PInt 1) (cache !! version_key) in
  (version_at_least_2 version = None -> _migrate_distances_cache cache = None)
  /\ (version_at_least_2 version = Some true ->
      _migrate_distances_cache cache = Some cache)
  /\ (version_at_least_2 version = Some false ->
      exists cache1,
        _migrate_distances_cache cache = Some cache1
        /\ cache1 !! version_key = Some (PInt 2)
        /\ (forall k, k <> version_key ->
              cache1 !! k
              = match cache !! k with
                | Some (PInt n) => Some (PInt (n * 2))
                | Some (PFloat f) => Some (PFloat (py_round (f * 2)%float 1))
                | other => other
                end)
        /\ _migrate_distances_cache cache1 = Some cache1).
Proof.
  unfold _migrate_distances_cache. cbv zeta.
  split; [by intros ->|]. split; [by intros ->|].
  intros E. rewrite E. eexists. split; [done|].
  rewrite lookup_insert_eq. split; [done|]. split; [|done].
  intros k Hk. rewrite lookup_insert_ne by done. rewrite map_lookup_imap.
  destruct (cache !! k) as [v|]; [|done]. simpl.
  rewrite (migrate_value_cases k v Hk). by destruct v.
Qed.

(** ** Expenses *)

Section Expense_properties.
Context {rt : Runtime}.

Lemma set_categoria_ok key categoria overrides overrides' :
  api_despesas_set_categoria key categoria overrides = Some overrides' ->
  nonempty (or_empty_stripped key) = true
  /\ is_Some (_SNC_MAP (or_empty_stripped categoria))
  /\ overrides' = <[or_empty_stripped key := or_empty_stripped categoria]> overrides.
Proof.
  unfold api_despesas_set_categoria.
  destruct (nonempty (or_empty_stripped key)); [|done].
  destruct (nonempty (or_empty_stripped categoria)); [|done]. simpl.
  destruct (_SNC_MAP _) eqn:E; [|done]. intros [= <-]. eauto.
Qed.

Lemma known_category_nonempty (cat : str) : is_Some (_SNC_MAP cat) -> nonempty cat = true.
Proof. destruct cat; [|done]. intros [x H]. by vm_compute in H. Qed.

(** X17.  A category correction submitted under the key of a row shows
    on the expenses page: when the key has no white space at its ends,
    every row with that key is shown with the corrected category, the
    ledger account that [_SNC_MAP] lists for it and its deduction factor
    and representation flag; rows with another key are shown as before. *)
Theorem category_correction_is_shown (row : despesa) (categoria : option str)
    (overrides overrides' : gmap str str) :
  api_despesas_set_categoria (Some (_despesa_key row)) categoria overrides
  = Some overrides' ->
  clean (_despesa_key row) ->
  let cat := or_empty_stripped categoria in
  let e := enrich_row (apply_override overrides' row) in
  tipo_despesa (e_row e) = cat
  /\ e_key e = _despesa_key row
  /\ _SNC_MAP cat = Some (snc_conta e, snc_descricao e)
  /\ iva_fator e = default 1%float (_IVA_FACTOR cat)
  /\ is_representacao e = _REPRESENTACAO_CATS cat
  /\ (forall row', _despesa_key row' <> _despesa_key row ->
        apply_override overrides' row' = apply_override overrides row').
Proof.
  intros H Hclean. cbv zeta.
  apply set_categoria_ok in H as (Hk & Hc & ->).
  assert (Hs : or_empty_stripped (Some (_despesa_key row)) = _despesa_key row)
    by exact Hclean.
  rewrite Hs. set (cat := or_empty_stripped categoria) in *.
  assert (He : apply_override (<[_despesa_key row := cat]> overrides) row
               = with_category cat row).
  { unfold apply_override. by rewrite lookup_insert_eq. }
  rewrite He. unfold enrich_row, row_cat. simpl tipo_despesa.
  rewrite (known_category_nonempty cat Hc).
  destruct Hc as [[a b] Hc]. rewrite Hc. simpl.
  repeat split.
  intros row' Hne. unfold apply_override. by rewrite lookup_insert_ne.
Qed.

(** X18.  A correction is filed under the stripped key.  For a row whose
    own key starts or ends with white space the correction is accepted
    and never applied: the row is shown as it was before. *)
Theorem correction_lost_on_unclean_key (row : despesa) (categoria : option str)
    (overrides overrides' : gmap str str) :
  api_despesas_set_categoria (Some (_despesa_key row)) categoria overrides
  = Some overrides' ->
  strip (_despesa_key row) <> _despesa_key row ->
  enrich_row (apply_override overrides' row) = enrich_row (apply_override overrides row).
Proof.
  intros H Hne. apply set_categoria_ok in H as (_ & _ & ->).
  unfold apply_override, or_empty_stripped. simpl default.
  by rewrite lookup_insert_ne.
Qed.

Lemma factor_only_for_listed (cat : str) (f : float) :
  _IVA_FACTOR cat = Some f -> is_Some (_SNC_MAP cat).
Proof.
  unfold _IVA_FACTOR, str_eqb.
  repeat case_bool_decide; subst; try done; intros _; by vm_compute.
Qed.

Lemma representation_listed (cat : str) :
  _REPRESENTACAO_CATS cat = true ->
  _IVA_FACTOR cat = Some 0%float
  /\ _SNC_MAP cat = Some (ustr "6227", ustr "Deslocações, estadas e transportes").
Proof.
  unfold _REPRESENTACAO_CATS, str_eqb. intros H.
  apply orb_true_iff in H as [H|H]; apply bool_decide_eq_true in H; subst;
    by vm_compute.
Qed.

(** X19.  A row whose category is blank or is not one of the listed
    categories is enriched with the defaults: deduction factor 1.0, no
    representation flag, no autonomous taxation and account 628 "Outros
    FSE"; and a row flagged as representation always has factor 0.0 and
    account 6227. *)
Theorem unknown_category_gets_defaults (row : despesa) :
  let e := enrich_row row in
  (tipo_despesa row = [] \/ _SNC_MAP (tipo_despesa row) = None ->
   iva_fator e = 1%float /\ is_representacao e = false
   /\ tributacao_autonoma_val e = 0%float
   /\ snc_conta e = ustr "628" /\ snc_descricao e = ustr "Outros FSE")
  /\ (is_representacao e = true ->
      iva_fator e = 0%float /\ snc_conta e = ustr "6227").
Proof.
  unfold enrich_row. simpl. split.
  - intros [H|H].
    + unfold row_cat. rewrite H. simpl nonempty. cbv iota. by vm_compute.
    + assert (Hcat : row_cat row = tipo_despesa row \/ row_cat row = ustr "Outros").
      { unfold row_cat. destruct (nonempty _); auto. }
      destruct Hcat as [ -> | -> ]; [|by vm_compute].
      rewrite H.
      destruct (_IVA_FACTOR (tipo_despesa row)) eqn:F.
      { apply factor_only_for_listed in F as [x F]. congruence. }
      destruct (_REPRESENTACAO_CATS (tipo_despesa row)) eqn:R.
      { apply representation_listed in R as [R _]. congruence. }
      done.
  - intros R. apply representation_listed in R as [F S]. by rewrite F, S.
Qed.

End Expense_properties.

(** ** The list of artists *)

#[local] Instance str_le_total : Total str_le.
Proof. intros a b. apply str_leb_total. Qed.

#[local] Instance str_le_trans : Transitive str_le.
Proof. intros a b c. apply str_leb_trans. Qed.

Lemma str_leb_antisym (a b : str) : str_leb a b = true -> str_leb b a = true -> a = b.
Proof.
  revert b. induction a as [|x a IH]; intros [|y b]; simpl; try done.
  destruct (N.ltb_spec x y), (N.ltb_spec y x); try done; try lia.
  intros H1 H2. assert (x = y) as -> by lia. f_equal. by apply IH.
Qed.

(** X20.  The list of artists is in strictly ascending order of code
    points, so it repeats no name, and it holds exactly the non-empty
    performer names of the normalized concerts. *)
Theorem artists_sorted_and_distinct (lst : list concert) :
  StronglySorted (fun a b => str_le a b /\ a <> b) (api_artistas lst)
  /\ (forall a, In a (api_artistas lst)
        <-> nonempty a = true /\ exists c, In c lst /\ c_artista c = a).
Proof.
  unfold api_artistas.
  set (s := list_to_set (List.filter nonempty (map c_artista lst)) : gset str).
  assert (Hperm : merge_sort str_le (elements s) ≡ₚ elements s)
    by apply merge_sort_Permutation.
  assert (Hnd : NoDup (merge_sort str_le (elements s))).
  { rewrite Hperm. apply NoDup_elements. }
  split.
  - pose proof (StronglySorted_merge_sort str_le (elements s)) as Hs.
    revert Hs Hnd. generalize (merge_sort str_le (elements s)).
    induction 1 as [|a l Hs IH Ha]; intros Hnd; constructor.
    + apply IH. by apply NoDup_cons in Hnd as [_ ?].
    + apply NoDup_cons in Hnd as [Hn _].
      apply List.Forall_forall. intros b Hb.
      split; [by apply (proj1 (List.Forall_forall _ _) Ha)|].
      intros ->. apply Hn. by apply list_elem_of_In.
  - intros a. rewrite <- list_elem_of_In, Hperm, elem_of_elements.
    unfold s. rewrite elem_of_list_to_set, list_elem_of_In, filter_In, in_map_iff.
    split.
    + intros [(c & E & Hc) Hn]. eauto.
    + intros [Hn (c & Hc & E)]. eauto.
Qed.

(** ** The name of an exported file *)

Section Export_properties.
Context {rt : Runtime}.

(** X21.  The file name of an export has the length of the name asked
    for, none of its characters is a path separator, a NUL or any other
    ASCII character than letters, digits, [-], [_], [.] and the space,
    and a name made of such characters only is kept as it is (so the
    cleaning is idempotent). *)
Theorem export_filename_is_safe (filename : str) :
  length (export_filename filename) = length filename
  /\ Forall (fun c => filename_char c = true) (export_filename filename)
  /\ (forall c, In c (export_filename filename) -> (c < 128)%N ->
        (48 <= c <= 57)%N \/ (65 <= c <= 90)%N \/ (97 <= c <= 122)%N
        \/ c = 45%N \/ c = 95%N \/ c = 46%N \/ c = 32%N)
  /\ (Forall (fun c => filename_char c = true) filename ->
      export_filename filename = filename)
  /\ export_filename (export_filename filename) = export_filename filename.
Proof.
  assert (Hsafe : Forall (fun c => filename_char c = true) (export_filename filename)).
  { unfold export_filename. apply List.Forall_forall. intros c Hc.
    apply in_map_iff in Hc as (x & <- & _).
    destruct (filename_char x) eqn:E; [done|].
    by vm_compute. }
  assert (Hfix : forall f, Forall (fun c => filename_char c = true) f ->
                           export_filename f = f).
  { intros f Hf. unfold export_filename. induction Hf as [|c f Hc _ IH]; [done|].
    simpl. by rewrite Hc, IH. }
  split; [apply length_map|]. split; [done|]. split; [|split; [apply Hfix|by apply Hfix]].
  intros c Hc Hlt.
  apply (proj1 (List.Forall_forall _ _) Hsafe) in Hc.
  unfold filename_char, is_word in Hc.
  apply N.ltb_lt in Hlt. rewrite Hlt in Hc.
  rewrite !orb_true_iff, !andb_true_iff, !N.leb_le, !N.eqb_eq in Hc. lia.
Qed.

End Export_properties.

(** ** Agencies and their artists *)

Lemma update_first_app (agency_id : str) (f : agency -> agency)
    (pre : list agency) (ag : agency) (post : list agency) :
  List.Forall (fun a => ag_id a <> agency_id) pre ->
  ag_id ag = agency_id ->
  update_first agency_id f (pre ++ ag :: post) = Some (pre ++ f ag :: post).
Proof.
  intros Hpre Hag. induction Hpre as [|a pre Ha _ IH]; simpl.
  - by rewrite Hag, str_eqb_refl.
  - by rewrite (str_eqb_ne _ _ Ha), IH.
Qed.

Lemma update_first_Some (agency_id : str) (f : agency -> agency)
    (l l' : list agency) :
  update_first agency_id f l = Some l' ->
  exists pre ag post,
    l = pre ++ ag :: post /\ l' = pre ++ f ag :: post
    /\ List.Forall (fun a => ag_id a <> agency_id) pre /\ ag_id ag = agency_id.
Proof.
  revert l'. induction l as [|a l IH]; intros l'; simpl; [done|].
  unfold str_eqb. case_bool_decide as E.
  - intros [= <-]. exists [], a, l. by repeat split.
  - destruct (update_first agency_id f l) as [r|]; [|done]. intros [= <-].
    destruct (IH r eq_refl) as (pre & ag & post & -> & -> & Hpre & Hag).
    exists (a :: pre), ag, post. repeat split; [|done]. by constructor.
Qed.

Lemma norm_normalized (ag : agency) :
  map _norm_artista (normalized_artistas ag) = map _norm_artista (ag_artistas ag).
Proof.
  unfold normalized_artistas. rewrite map_map. apply map_ext. by intros [n|n c].
Qed.

Lemma normalized_twice (l : list artista_json) (ag : agency) :
  normalized_artistas (with_artistas (normalized_artistas (with_artistas l ag)) ag)
  = normalized_artistas (with_artistas l ag).
Proof.
  unfold normalized_artistas. simpl. rewrite map_map. apply map_ext. by intros [n|n c].
Qed.

Lemma normalized_are_records (ag : agency) :
  List.Forall (fun a => exists n c, a = A_record n c) (normalized_artistas ag).
Proof. apply List.Forall_forall. intros a Ha. apply in_map_iff in Ha as (x & <- & _). eauto. Qed.

Lemma normalized_fixed (ag : agency) :
  List.Forall (fun a => exists n c, a = A_record n c) (ag_artistas ag) ->
  with_artistas (normalized_artistas ag) ag = ag.
Proof.
  destruct ag as [i n f l]. unfold with_artistas, normalized_artistas. simpl.
  intros H. f_equal. induction H as [|a l (x & c & ->) _ IH]; [done|].
  simpl. by rewrite IH.
Qed.

Lemma names_of_listing (ag : agency) :
  _artista_names ag = map fst (map _norm_artista (ag_artistas ag)).
Proof. unfold _artista_names. by rewrite map_map. Qed.

Lemma existsb_str_eqb (n : str) (l : list str) :
  existsb (str_eqb n) l = true <-> In n l.
Proof.
  rewrite existsb_exists. split.
  - intros (x & Hx & E). apply str_eqb_eq in E. by subst.
  - intros H. exists n. by rewrite str_eqb_refl.
Qed.

(** X22.  Adding an artist to an agency keeps the agency's listing, in
    its order, and puts the artist last when the name is new; a name the
    agency already lists is left with the fee it has, so that the same
    request again, with whatever fee, changes nothing.  A listing without
    repeated names stays without. *)
Theorem add_artista_keeps_names_distinct (agency_id : str)
    (nome cachet_base : option str) (agencies agencies' : list agency) :
  api_add_artista agency_id nome cachet_base agencies = Some agencies' ->
  nonempty (stripped nome) = true
  /\ (exists pre ag ag' post,
        agencies = pre ++ ag :: post /\ agencies' = pre ++ ag' :: post
        /\ List.Forall (fun a => ag_id a <> agency_id) pre
        /\ ag_id ag = agency_id /\ ag_id ag' = agency_id
        /\ map _norm_artista (ag_artistas ag')
           = map _norm_artista (ag_artistas ag)
             ++ (if existsb (str_eqb (stripped nome)) (_artista_names ag) then []
                 else [(stripped nome, stripped cachet_base)])
        /\ In (stripped nome) (_artista_names ag')
        /\ (List.NoDup (_artista_names ag) -> List.NoDup (_artista_names ag')))
  /\ (forall other_fee,
        api_add_artista agency_id nome other_fee agencies' = Some agencies').
Proof.
  intros H.
  assert (Hn : nonempty (stripped nome) = true).
  { unfold api_add_artista in H. by destruct (nonempty (stripped nome)). }
  set (f := fun cb ag =>
              if existsb (str_eqb (stripped nome))
                   (_artista_names (with_artistas (normalized_artistas ag) ag))
              then with_artistas (normalized_artistas ag) ag
              else with_artistas
                     (normalized_artistas ag ++ [A_record (stripped nome) cb]) ag).
  assert (Hf : forall cb l, api_add_artista agency_id nome cb l
                            = update_first agency_id (f (stripped cb)) l).
  { intros cb l. unfold api_add_artista. by rewrite Hn. }
  rewrite Hf in H. setoid_rewrite Hf.
  apply update_first_Some in H as (pre & ag & post & -> & -> & Hpre & Hag).
  assert (Hrec : forall cb, List.Forall (fun a => exists n c, a = A_record n c)
                              (ag_artistas (f cb ag))).
  { intros cb. unfold f. destruct (existsb _ _); simpl; [apply normalized_are_records|].
    apply List.Forall_app. split; [apply normalized_are_records|].
    repeat constructor. eauto. }
  assert (Hnames : _artista_names (with_artistas (normalized_artistas ag) ag)
                   = _artista_names ag).
  { by rewrite !names_of_listing; simpl; rewrite norm_normalized. }
  assert (Hlist : map _norm_artista (ag_artistas (f (stripped cachet_base) ag))
                  = map _norm_artista (ag_artistas ag)
                    ++ (if existsb (str_eqb (stripped nome)) (_artista_names ag) then []
                        else [(stripped nome, stripped cachet_base)])).
  { unfold f. rewrite Hnames. destruct (existsb _ _); simpl.
    - by rewrite norm_normalized, app_nil_r.
    - by rewrite map_app, norm_normalized. }
  assert (Hid : ag_id (f (stripped cachet_base) ag) = agency_id).
  { unfold f. rewrite Hnames. destruct (existsb _ _); exact Hag. }
  assert (Hin : In (stripped nome) (_artista_names (f (stripped cachet_base) ag))).
  { rewrite names_of_listing, Hlist, !map_app, <- names_of_listing.
    apply in_or_app. destruct (existsb _ _) eqn:E.
    - left. by apply existsb_str_eqb.
    - right. by left. }
  split; [done|]. split.
  - exists pre, ag, (f (stripped cachet_base) ag), post.
    repeat split; try done.
    intros Hnd. rewrite names_of_listing, Hlist, !map_app, <- names_of_listing.
    destruct (existsb _ _) eqn:E; simpl.
    + by rewrite app_nil_r.
    + apply NoDup_ListNoDup, NoDup_app. split; [by apply NoDup_ListNoDup|].
      split; [|apply NoDup_singleton].
      intros x Hx Hx'. apply list_elem_of_In in Hx.
      apply list_elem_of_In in Hx' as [<-|[]].
      apply existsb_str_eqb in Hx. congruence.
  - intros other_fee. rewrite (update_first_app _ _ _ _ _ Hpre Hid). do 3 f_equal.
    set (ag1 := f (stripped cachet_base) ag) in *.
    assert (E : existsb (str_eqb (stripped nome))
                  (_artista_names (with_artistas (normalized_artistas ag1) ag1)) = true).
    { rewrite names_of_listing. simpl. rewrite norm_normalized, <- names_of_listing.
      by apply existsb_str_eqb. }
    unfold f at 1. rewrite E. apply normalized_fixed, Hrec.
Qed.

Lemma last_In {A} (a : A) (r : list A) : In (List.last r a) (a :: r).
Proof.
  revert a. induction r as [|b r IH]; intros a; [by left|].
  rewrite last_cons. right. apply IH.
Qed.

Lemma base_fold_app (l1 l2 : list (str * str)) (name : str) :
  fold_left base_step (l1 ++ l2) ∅ !! name
  = match List.filter (fun a => valid_entry a && str_eqb a.1 name) l2 with
    | [] => fold_left base_step l1 ∅ !! name
    | a :: r => Some (List.last r a).2
    end.
Proof. by rewrite fold_left_app, base_fold_lookup. Qed.

(** The listing of an agency after [api_update_artista_cachet]. *)
Lemma updated_listing (nome cachet_base : str) (ag : agency) :
  map _norm_artista
    (map (fun a => if str_eqb (_norm_artista a).1 nome
                   then A_record (_norm_artista a).1 cachet_base else a)
       (normalized_artistas ag))
  = map (fun p => if str_eqb p.1 nome then (p.1, cachet_base) else p)
      (map _norm_artista (ag_artistas ag)).
Proof.
  unfold normalized_artistas. rewrite !map_map. apply map_ext.
  intros [n|n c]; simpl; by destruct (str_eqb n nome).
Qed.

Lemma listed_without_fee (post : list agency) (n : str) :
  (forall a fee, In a post ->
     In (n, fee) (map _norm_artista (ag_artistas a)) -> fee = []) ->
  List.filter (fun a => valid_entry a && str_eqb a.1 n) (concat (agency_listings post))
  = [].
Proof.
  intros Hpost. induction post as [|a post IH]; [done|].
  change (concat (agency_listings (a :: post)))
    with (map _norm_artista (ag_artistas a) ++ concat (agency_listings post)).
  rewrite List.filter_app.
  rewrite IH by (intros; eapply Hpost; [right|]; eauto).
  rewrite app_nil_r.
  assert (Ha : forall fee, In (n, fee) (map _norm_artista (ag_artistas a)) -> fee = [])
    by (intros; eapply Hpost; [by left|done]).
  revert Ha. generalize (map _norm_artista (ag_artistas a)).
  induction l as [|[x f] l IHl]; intros Ha; [done|]. simpl.
  rewrite IHl by (intros; apply Ha; by right).
  unfold valid_entry, str_eqb. simpl. case_bool_decide as E.
  - subst x. rewrite (Ha f) by by left. simpl. by rewrite andb_false_r.
  - by rewrite andb_false_r.
Qed.

Lemma update_keeps_others (n cb name : str) (L : list (str * str)) :
  name <> n ->
  List.filter (fun a => valid_entry a && str_eqb a.1 name)
    (map (fun p => if str_eqb p.1 n then (p.1, cb) else p) L)
  = List.filter (fun a => valid_entry a && str_eqb a.1 name) L.
Proof.
  intros Hne. induction L as [|p L IH]; [done|]. simpl. rewrite IH.
  unfold str_eqb. case_bool_decide as E; [|done].
  simpl. rewrite E. rewrite (bool_decide_eq_false_2 (n = name)) by congruence.
  by rewrite !andb_false_r.
Qed.

(** X23.  A new base fee reaches the table of base fees: when the
    agency lists the artist and no agency after it lists the same name
    with a fee, the request is accepted, the table then gives the new fee
    for the artist, and its entries for all other names are as before. *)
Theorem fee_update_reaches_table (pre : list agency) (ag : agency)
    (post : list agency) (nome cachet_base : option str) :
  List.Forall (fun a => ag_id a <> ag_id ag) pre ->
  In (stripped nome) (_artista_names ag) ->
  nonempty (stripped nome) = true ->
  nonempty (stripped cachet_base) = true ->
  (forall a fee, In a post ->
     In (stripped nome, fee) (map _norm_artista (ag_artistas a)) -> fee = []) ->
  exists agencies',
    api_update_artista_cachet (ag_id ag) nome cachet_base (pre ++ ag :: post)
    = Some agencies'
    /\ _build_artist_base_cachet (agency_listings agencies') !! stripped nome
       = Some (stripped cachet_base)
    /\ (forall name, name <> stripped nome ->
          _build_artist_base_cachet (agency_listings agencies') !! name
          = _build_artist_base_cachet (agency_listings (pre ++ ag :: post)) !! name).
Proof.
  intros Hpre Hin Hn Hc Hpost. unfold api_update_artista_cachet.
  rewrite (update_first_app _ _ _ _ _ Hpre eq_refl).
  eexists. split; [done|].
  set (n := stripped nome) in *. set (cb := stripped cachet_base) in *.
  set (upd := fun p : str * str => if str_eqb p.1 n then (p.1, cb) else p).
  set (L := map _norm_artista (ag_artistas ag)).
  assert (Hlist : forall l,
            concat (agency_listings (pre ++ with_artistas l ag :: post))
            = concat (agency_listings pre)
              ++ (map _norm_artista l ++ concat (agency_listings post))).
  { intros l. unfold agency_listings. by rewrite map_app, concat_app. }
  assert (Hold : concat (agency_listings (pre ++ ag :: post))
                 = concat (agency_listings pre) ++ (L ++ concat (agency_listings post))).
  { unfold agency_listings. by rewrite map_app, concat_app. }
  rewrite !artist_base_concat, Hlist, updated_listing. fold n cb upd L.
  split.
  - rewrite base_fold_app, List.filter_app.
    rewrite (listed_without_fee post n Hpost), app_nil_r.
    assert (Hall : forall p, In p (List.filter (fun a => valid_entry a && str_eqb a.1 n)
                                     (map upd L)) -> p.2 = cb).
    { intros p Hp'. apply filter_In in Hp' as [Hp' Hv].
      apply in_map_iff in Hp' as (q & <- & _).
      apply andb_prop in Hv as [_ Hv]. revert Hv. unfold upd.
      destruct (str_eqb q.1 n) eqn:E; [done|]. by rewrite E. }
    assert (Hex : In (n, cb) (List.filter (fun a => valid_entry a && str_eqb a.1 n)
                                (map upd L))).
    { apply filter_In. split.
      - unfold L. rewrite names_of_listing in Hin. fold L in Hin.
        apply in_map_iff in Hin as (q & Hq & Hin).
        apply in_map_iff. exists q. split; [|done].
        unfold upd. by rewrite Hq, str_eqb_refl.
      - unfold valid_entry. simpl. by rewrite Hn, Hc, str_eqb_refl. }
    match goal with
    | |- match ?x with _ => _ end = _ =>
        assert (Hall' : forall p, In p x -> p.2 = cb) by exact Hall;
        assert (Hex' : In (n, cb) x) by exact Hex;
        destruct x as [|a r]; [done|]
    end.
    f_equal. apply Hall', last_In.
  - intros name Hne. rewrite Hold, !base_fold_lookup, !List.filter_app.
    subst upd. by rewrite (update_keeps_others n cb name L Hne).
Qed.

(** ** Applying a base fee to the coming concerts *)

Section Refresh_properties.
Context {rt : Runtime}.
Context (today : instant).
Context (iso_instant : str -> option (option instant)).

Lemma refresh_step_due (nome cachet_base : str) (m : gmap str override) (k : nat)
    (x : str * event) :
  refresh_step today iso_instant nome cachet_base (m, k) x
  = if due today iso_instant nome m x
    then (<[x.1 := set_field F_cachet cachet_base (default no_override (m !! x.1))]> m,
          S k)
    else (m, k).
Proof.
  unfold refresh_step, due, performer. simpl.
  by destruct (before_today _ _ _) as [[|]|].
Qed.

Lemma due_after_fee (nome cachet_base : str) (m : gmap str override) (id : str)
    (x : str * event) :
  due today iso_instant nome
    (<[id := set_field F_cachet cachet_base (default no_override (m !! id))]> m) x
  = due today iso_instant nome m x.
Proof.
  unfold due, performer. destruct (decide (id = x.1)) as [->|Hne].
  - by rewrite lookup_insert_eq.
  - by rewrite lookup_insert_ne.
Qed.

Lemma existsb_pointwise {A} (f g : A -> bool) (l : list A) :
  (forall x, f x = g x) -> existsb f l = existsb g l.
Proof. intros H. induction l as [|x l IH]; simpl; [done|]. by rewrite H, IH. Qed.

Lemma refresh_fold (nome cachet_base : str) (events : list (str * event))
    (m : gmap str override) (k : nat) :
  let r := fold_left (refresh_step today iso_instant nome cachet_base) events (m, k) in
  r.2 = (k + length (List.filter (due today iso_instant nome m) events))%nat
  /\ forall id,
       r.1 !! id
       = if existsb (fun x => str_eqb x.1 id && due today iso_instant nome m x) events
         then Some (set_field F_cachet cachet_base (default no_override (m !! id)))
         else m !! id.
Proof.
  revert m k. induction events as [|x events IH]; intros m k.
  - simpl. split; [lia|done].
  - cbn [fold_left]. rewrite refresh_step_due.
    destruct (due today iso_instant nome m x) eqn:D.
    + set (m1 := <[x.1 := _]> m).
      destruct (IH m1 (S k)) as [IH1 IH2]. cbv zeta.
      assert (Hd : forall y, due today iso_instant nome m1 y = due today iso_instant nome m y)
        by (intros; apply due_after_fee).
      split.
      * rewrite IH1. cbn [List.filter]. rewrite D. simpl.
        rewrite (filter_ext _ _ Hd). lia.
      * intros id. rewrite IH2. cbn [existsb]. rewrite D, andb_true_r.
        rewrite (existsb_pointwise _
                   (fun y => str_eqb y.1 id && due today iso_instant nome m y))
          by (intros; by rewrite Hd).
        unfold m1. unfold str_eqb at 2.
        destruct (bool_decide_reflect (x.1 = id)) as [<-|Hne]; simpl.
        -- rewrite lookup_insert_eq. simpl. by destruct (existsb _ events).
        -- by rewrite lookup_insert_ne.
    + destruct (IH m k) as [IH1 IH2]. cbv zeta. split.
      * rewrite IH1. cbn [List.filter]. by rewrite D.
      * intros id. rewrite IH2. cbn [existsb]. by rewrite D, andb_false_r.
Qed.

Lemma instant_ltb_same_day (a b : instant) :
  i_year a = i_year b -> i_month a = i_month b -> i_day a = i_day b ->
  instant_ltb a b = (i_micro a <? i_micro b).
Proof.
  intros Hy Hm Hd. unfold instant_ltb. rewrite Hy, Hm, Hd.
  by rewrite !Z.ltb_irrefl.
Qed.

(** X24.  Applying a base fee writes the fee into the override of every
    stored event whose performer is the artist and whose start is an
    instant not before the current one, and into no other: the answer
    counts those events, all other overrides and all other fields are as
    before, and each such event is then listed with the new fee unless it
    has a substitute.  The start of an all-day event is its date at 00:00
    UTC, so an all-day event of the current day is skipped once midnight
    has passed; a date-time without UTC offset is always skipped, its
    comparison with the current instant raising an exception that the loop
    catches. *)
Theorem refresh_sets_fee_of_coming_concerts (nome cachet_base : option str)
    (events : list (str * event)) (concert_data concert_data' : gmap str override)
    (updated : nat) :
  api_refresh_artista today iso_instant nome cachet_base events concert_data
  = Some (concert_data', updated) ->
  updated = length (List.filter (due today iso_instant (stripped nome) concert_data) events)
  /\ (forall id,
        concert_data' !! id
        = if existsb (fun x => str_eqb x.1 id
                               && due today iso_instant (stripped nome) concert_data x) events
          then Some (set_field F_cachet (stripped cachet_base)
                       (default no_override (concert_data !! id)))
          else concert_data !! id)
  /\ (forall id ev artist_base distances,
        In (id, ev) events ->
        due today iso_instant (stripped nome) concert_data (id, ev) = true ->
        let c := concert_of concert_data' artist_base distances id ev in
        c_artista c = stripped nome
        /\ (nonempty (c_substituto c) = false -> c_cachet c = stripped cachet_base))
  /\ (forall x,
        due today iso_instant (stripped nome) concert_data x = true
        <-> performer concert_data x = stripped nome
            /\ exists t,
                 start_instant iso_instant (default [] (ev_start x.2)) = Some (Some t)
                 /\ instant_ltb t today = false)
  /\ (forall x dt,
        contains 84 (default [] (ev_start x.2)) = false ->
        strptime_ymd (default [] (ev_start x.2)) = Some dt ->
        dt_year dt = i_year today -> dt_month dt = i_month today ->
        dt_day dt = i_day today -> 0 < i_micro today ->
        due today iso_instant (stripped nome) concert_data x = false)
  /\ (forall x,
        contains 84 (default [] (ev_start x.2)) = true ->
        iso_instant (replace_char 90 (ustr "+00:00") (default [] (ev_start x.2)))
        = Some None ->
        due today iso_instant (stripped nome) concert_data x = false).
Proof.
  unfold api_refresh_artista.
  destruct (nonempty (stripped nome)) eqn:Hn; [|done].
  destruct (nonempty (stripped cachet_base)) eqn:Hc; [|done]. simpl.
  intros [= E].
  destruct (refresh_fold (stripped nome) (stripped cachet_base) events concert_data 0)
    as [H1 H2].
  cbv zeta in H1, H2.
  assert (Hd : concert_data' = (concert_data', updated).1) by done.
  assert (Hu : updated = (concert_data', updated).2) by done.
  rewrite <- E in Hd, Hu. split; [by rewrite Hu, H1|]. split; [by rewrite Hd|].
  split; [|split; [|split]].
  2:{ intros x. unfold due, before_today.
      destruct (start_instant iso_instant (default [] (ev_start x.2))) as [[t|]|].
      - destruct (instant_ltb t today) eqn:L.
        + split; [done|]. intros (_ & t' & [= <-] & L'). congruence.
        + rewrite str_eqb_eq. split; [eauto|tauto].
      - split; [done|]. by intros (_ & t' & [=] & _).
      - split; [done|]. by intros (_ & t' & [=] & _). }
  2:{ intros x dt HT Hparse Hy Hm Hday Hmicro.
      unfold due, before_today, start_instant. rewrite HT, Hparse.
      rewrite instant_ltb_same_day by done. simpl.
      by rewrite (proj2 (Z.ltb_lt 0 (i_micro today)) Hmicro). }
  2:{ intros x HT Hnaive. unfold due, before_today, start_instant.
      by rewrite HT, Hnaive. }
  intros id ev artist_base distances Hin Hdue.
  destruct (concert_of_fields concert_data' artist_base distances id ev)
    as (_ & Ha & _ & _ & _ & Hf & _).
  cbv zeta in Ha, Hf |- *.
  assert (Hov : concert_data' !! id
                = Some (set_field F_cachet (stripped cachet_base)
                          (default no_override (concert_data !! id)))).
  { rewrite Hd, H2.
    assert (Hex : existsb (fun x => str_eqb x.1 id
                           && due today iso_instant (stripped nome) concert_data x) events
                  = true).
    { apply existsb_exists. exists (id, ev). split; [done|].
      simpl. by rewrite str_eqb_refl, Hdue. }
    by rewrite Hex. }
  rewrite Hov in Ha, Hf. simpl in Ha, Hf.
  assert (Hart : c_artista (concert_of concert_data' artist_base distances id ev)
                 = stripped nome).
  { rewrite Ha. unfold due, performer in Hdue. simpl in Hdue.
    destruct (before_today _ _ _) as [[|]|]; try done. by apply str_eqb_eq. }
  split; [done|]. intros Hs. rewrite Hf, Hs. by rewrite Hc.
Qed.

End Refresh_properties.

(** ** Conflicts *)

Lemma dict_append_get {V} (k k' : str) (c : V) (d : list (str * list V)) :
  dict_get k' (dict_append k c d)
  = if str_eqb k k' then Some (default [] (dict_get k d) ++ [c]) else dict_get k' d.
Proof.
  induction d as [|[k0 l] d IH]; simpl.
  - by destruct (str_eqb k k').
  - destruct (decide (k0 = k)) as [->|H0].
    + rewrite str_eqb_refl. simpl.
      destruct (decide (k = k')) as [->|H1];
        [by rewrite !str_eqb_refl|by rewrite !(str_eqb_ne _ _ H1)].
    + rewrite (str_eqb_ne _ _ H0). simpl. rewrite IH.
      destruct (decide (k = k')) as [->|H1].
      * by rewrite str_eqb_refl, (str_eqb_ne _ _ H0).
      * by rewrite (str_eqb_ne _ _ H1).
Qed.

Lemma dict_append_keys {V} (k : str) (c : V) (d : list (str * list V)) :
  map fst (dict_append k c d)
  = if existsb (str_eqb k) (map fst d) then map fst d else map fst d ++ [k].
Proof.
  induction d as [|[k0 l] d IH]; simpl; [done|].
  unfold str_eqb at 1 2. destruct (bool_decide_reflect (k0 = k)) as [->|H0]; simpl.
  - by rewrite bool_decide_eq_true_2.
  - rewrite bool_decide_eq_false_2 by congruence. simpl. rewrite IH.
    by destruct (existsb _ _).
Qed.

Lemma filter_none {A} (f : A -> bool) (l : list A) :
  existsb f l = false -> List.filter f l = [].
Proof.
  induction l as [|x l IH]; simpl; [done|].
  destruct (f x); simpl; [done|apply IH].
Qed.

(** The groups of [by_date], for the concerts of the year in [l]. *)
Lemma groups_by_date (l : list concert) :
  let d := fold_left (fun d c => dict_append (c_date c) c d) l [] in
  List.NoDup (map fst d)
  /\ (forall k, In k (map fst d) <-> exists c, In c l /\ c_date c = k)
  /\ (forall k, dict_get k d
                = if existsb (fun c => str_eqb (c_date c) k) l
                  then Some (List.filter (fun c => str_eqb (c_date c) k) l) else None).
Proof.
  induction l as [|c l IH] using rev_ind.
  - simpl. split; [constructor|]. split; [|done]. intros k. split; [done|].
    by intros (c & [] & _).
  - rewrite fold_left_app. cbn [fold_left].
    set (d := fold_left _ l []) in *. cbv zeta in IH |- *.
    destruct IH as (Hnd & Hk & Hg).
    assert (Hex : existsb (str_eqb (c_date c)) (map fst d) = true
                  <-> In (c_date c) (map fst d)) by apply existsb_str_eqb.
    split; [|split].
    + rewrite dict_append_keys. destruct (existsb _ _) eqn:E; [done|].
      apply NoDup_ListNoDup, NoDup_app. split; [by apply NoDup_ListNoDup|].
      split; [|apply NoDup_singleton].
      intros x Hx Hx'. apply list_elem_of_In in Hx.
      apply list_elem_of_In in Hx' as [<-|[]].
      apply Hex in Hx. congruence.
    + intros k. rewrite dict_append_keys.
      assert (Hiff : In k (map fst d ++ [c_date c])
                     <-> exists c0, In c0 (l ++ [c]) /\ c_date c0 = k).
      { rewrite in_app_iff, Hk. split.
        - intros [(c0 & H0 & E0)|[<-|[]]].
          + exists c0. split; [apply in_or_app; by left|done].
          + exists c. split; [apply in_or_app; right; by left|done].
        - intros (c0 & H0 & E0). apply in_app_or in H0 as [H0|[<-|[]]].
          + left. eauto.
          + right. by left. }
      destruct (existsb _ _) eqn:E; [|done].
      rewrite <- Hiff, in_app_iff. split; [by left|].
      intros [H|[<-|[]]]; [done|]. by apply Hex.
    + intros k. rewrite dict_append_get, existsb_app, List.filter_app. cbn [existsb List.filter].
      rewrite orb_false_r. rewrite !Hg.
      destruct (str_eqb (c_date c) k) eqn:E.
      * apply str_eqb_eq in E. subst k. rewrite orb_true_r.
        destruct (existsb _ l) eqn:X; [done|]. by rewrite (filter_none _ _ X).
      * rewrite orb_false_r, app_nil_r. done.
Qed.

Lemma by_date_filter (cur_year : Z) (lst : list concert) (d : list (str * list concert)) :
  fold_left
    (fun d c => if c_year c =? cur_year then dict_append (c_date c) c d else d) lst d
  = fold_left (fun d c => dict_append (c_date c) c d)
      (List.filter (fun c => c_year c =? cur_year) lst) d.
Proof.
  revert d. induction lst as [|c lst IH]; intros d; [done|]. simpl.
  destruct (c_year c =? cur_year); simpl; apply IH.
Qed.

Lemma list_sum_indicator (k0 : str) (keys : list str) :
  List.NoDup keys -> In k0 keys ->
  list_sum (map (fun k => if str_eqb k0 k then 1%nat else 0%nat) keys) = 1%nat.
Proof.
  induction 1 as [|k keys Hn Hnd IH]; [done|]. simpl.
  unfold str_eqb at 1. destruct (bool_decide_reflect (k0 = k)) as [->|Hne].
  - intros _. f_equal.
    clear IH Hnd. induction keys as [|k' keys IH]; [done|]. simpl.
    rewrite str_eqb_ne by (intros ->; apply Hn; by left).
    apply IH. intros H. apply Hn. by right.
  - intros [H|H]; [congruence|]. by apply IH.
Qed.

Lemma list_sum_zero {A} (keys : list A) : list_sum (map (fun _ => 0%nat) keys) = 0%nat.
Proof. by induction keys. Qed.

Lemma list_sum_plus {A} (f g : A -> nat) (keys : list A) :
  list_sum (map (fun k => (f k + g k)%nat) keys)
  = (list_sum (map f keys) + list_sum (map g keys))%nat.
Proof. induction keys as [|k keys IH]; simpl; [done|]. rewrite IH. lia. Qed.

(** Counting the members of a list by the day they fall on. *)
Lemma count_by_day (Q : concert -> bool) (keys : list str) (lst : list concert) :
  List.NoDup keys ->
  (forall c, In c lst -> Q c = true -> In (c_date c) keys) ->
  length (List.filter Q lst)
  = list_sum
      (map (fun k => length (List.filter (fun c => Q c && str_eqb (c_date c) k) lst))
         keys).
Proof.
  intros Hnd. induction lst as [|c lst IH]; intros Hk.
  - simpl. by rewrite list_sum_zero.
  - rewrite (map_ext _ (fun k => ((if Q c && str_eqb (c_date c) k then 1 else 0)
                                  + length (List.filter
                                              (fun c => Q c && str_eqb (c_date c) k) lst))%nat)).
    2:{ intros k. simpl. by destruct (Q c && str_eqb (c_date c) k). }
    rewrite list_sum_plus, <- IH by (intros; apply Hk; [by right|done]).
    simpl. destruct (Q c) eqn:E; simpl.
    + rewrite list_sum_indicator; [done|done|]. apply Hk; [by left|done].
    + by rewrite list_sum_zero.
Qed.

(** X25.  The number of conflicts is the number of concerts of the
    current year without substitute that share their day with at least
    one other such concert; it is therefore never 1. *)
Theorem conflicts_are_shared_days (cur_year : Z) (lst : list concert) :
  conflitos_count cur_year lst
  = length (List.filter
              (fun c => counted cur_year c
                        && (2 <=? length (same_day cur_year lst (c_date c)))%nat) lst)
  /\ conflitos_count cur_year lst <> 1%nat.
Proof.
  split.
  - unfold conflitos_count, by_date. rewrite by_date_filter.
    set (Y := List.filter (fun c => c_year c =? cur_year) lst).
    destruct (groups_by_date Y) as (Hnd & Hk & Hg). cbv zeta in Hnd, Hk, Hg.
    set (d := fold_left _ Y []) in *.
    set (Q := fun c => counted cur_year c
                       && (2 <=? length (same_day cur_year lst (c_date c)))%nat).
    rewrite (count_by_day Q (map fst d) lst Hnd).
    2:{ intros c Hc HQ. apply Hk. exists c. split; [|done].
        apply filter_In. split; [done|].
        unfold Q, counted in HQ. by apply andb_prop in HQ as [[? _]%andb_prop _]. }
    rewrite !map_map. apply f_equal, map_ext_in. intros [k g] Hin. cbn [fst snd].
    assert (Hgk : dict_get k d = Some g) by by apply dict_In_get.
    rewrite Hg in Hgk. destruct (existsb _ Y); [|done]. injection Hgk as <-.
    assert (Hsem : sem_sub (List.filter (fun c => str_eqb (c_date c) k) Y)
                   = length (same_day cur_year lst k)).
    { unfold sem_sub, same_day, Y, counted. f_equal.
      clear. induction lst as [|c lst IH]; [done|]. simpl.
      destruct (c_year c =? cur_year); simpl; [|done].
      destruct (str_eqb (c_date c) k); simpl.
      - destruct (nonempty (c_substituto c)); simpl; by rewrite ?IH.
      - by rewrite andb_false_r. }
    rewrite Hsem.
    assert (HQk : forall c, Q c && str_eqb (c_date c) k
                            = (2 <=? length (same_day cur_year lst k))%nat
                              && (counted cur_year c && str_eqb (c_date c) k)).
    { intros c. unfold Q. destruct (str_eqb (c_date c) k) eqn:E.
      - apply str_eqb_eq in E. rewrite E.
        by destruct (counted cur_year c), (2 <=? _)%nat.
      - by rewrite !andb_false_r. }
    rewrite (filter_ext _ _ HQk).
    destruct (2 <=? length (same_day cur_year lst k))%nat; [reflexivity|].
    clear. by induction lst.
  - unfold conflitos_count.
    generalize (map snd (by_date cur_year lst)). intros l.
    assert (H : list_sum (map (fun evs => if (2 <=? sem_sub evs)%nat
                                          then sem_sub evs else 0%nat) l) = 0%nat
                \/ (2 <= list_sum (map (fun evs => if (2 <=? sem_sub evs)%nat
                                                   then sem_sub evs else 0%nat) l))%nat).
    { induction l as [|g l IH]; [by left|].
      change (list_sum (map ?f (g :: l))) with (f g + list_sum (map f l))%nat.
      cbv beta. destruct (Nat.leb_spec 2 (sem_sub g)); lia. }
    lia.
Qed.

(** ** Warming the distance cache *)

Section Warm_properties.
Context {rt : Runtime}.
Context (geocode : str -> option (float * float)).
Context (route : float * float -> float * float -> option float).
Context (save_json : gmap str float -> bool).

Lemma distance_request_lookup (cache : gmap str float) (destination k : str) :
  nonempty destination = true -> k <> version_key ->
  (driving_distance_km geocode route save_json cache destination).2 !! k
  = match cache !! k with
    | Some v => Some v
    | None => if str_eqb k destination then fetched geocode route k else None
    end.
Proof.
  intros Hd Hk. unfold driving_distance_km, fetched. rewrite Hd. simpl.
  destruct (decide (k = destination)) as [Heq|Hne].
  - subst k. rewrite str_eqb_refl.
    destruct (cache !! destination) eqn:E; simpl; [done|].
    destruct (geocode ORIGIN); [|exact E].
    destruct (geocode destination); [|exact E].
    destruct (route _ _); [|exact E].
    assert (Hnew : <[version_key := 2%float]>
                     (<[destination := py_round (f / 1000 * 2) 1]> cache) !! destination
                   = Some (py_round (f / 1000 * 2) 1)).
    { rewrite lookup_insert_ne by done. by rewrite lookup_insert_eq. }
    by destruct (save_json _).
  - rewrite (str_eqb_ne _ _ Hne).
    assert (Hsame : forall m : gmap str float, m = cache ->
                      m !! k = match cache !! k with Some v => Some v | None => None end).
    { intros m ->. by destruct (cache !! k). }
    destruct (cache !! destination) eqn:E; simpl; [by apply Hsame|].
    destruct (geocode ORIGIN); [|by apply Hsame].
    destruct (geocode destination); [|by apply Hsame].
    destruct (route _ _); [|by apply Hsame].
    assert (Hnew : <[version_key := 2%float]>
                     (<[destination := py_round (f / 1000 * 2) 1]> cache) !! k
                   = match cache !! k with Some v => Some v | None => None end).
    { rewrite !lookup_insert_ne by done. by apply Hsame. }
    by destruct (save_json _).
Qed.

Lemma warm_cache_lookup (events : list (str * event))
    (concert_data : gmap str override) (cache : gmap str float) (k : str) :
  k <> version_key ->
  warm_cache geocode route save_json events concert_data cache !! k
  = match cache !! k with
    | Some v => Some v
    | None =>
        if nonempty k && existsb (fun x => str_eqb k (local_of concert_data x)) events
        then fetched geocode route k else None
    end.
Proof.
  intros Hk. unfold warm_cache. revert cache.
  induction events as [|x events IH]; intros cache.
  - simpl. rewrite andb_false_r. by destruct (cache !! k).
  - cbn [fold_left existsb]. rewrite IH. unfold warm_step.
    destruct (nonempty (local_of concert_data x)) eqn:Hl.
    + rewrite (distance_request_lookup _ _ _ Hl Hk).
      destruct (cache !! k) eqn:E; [done|].
      destruct (decide (k = local_of concert_data x)) as [->|Hne].
      * rewrite str_eqb_refl, Hl. simpl.
        destruct (fetched _ _ _) eqn:F; [done|]. by destruct (existsb _ _).
      * by rewrite (str_eqb_ne _ _ Hne).
    + destruct (cache !! k) eqn:E; [done|].
      destruct (decide (k = local_of concert_data x)) as [->|Hne].
      * by rewrite Hl.
      * by rewrite (str_eqb_ne _ _ Hne).
Qed.

(** X26.  After the synchronisation has warmed the cache, every venue
    keeps the distance the cache had for it, and each stored event whose
    venue was not cached is listed with the distance the web services
    give for that venue, or without distance when they give none.  (The
    venue named like the version mark is the exception.) *)
Theorem sync_warms_distances (events : list (str * event))
    (concert_data : gmap str override) (cache : gmap str float) :
  let cache' := warm_cache geocode route save_json events concert_data cache in
  (forall k v, k <> version_key -> cache !! k = Some v -> cache' !! k = Some v)
  /\ (forall id ev artist_base,
        In (id, ev) events ->
        let c := concert_of concert_data artist_base cache' id ev in
        nonempty (c_local c) = true -> c_local c <> version_key ->
        c_km c = match cache !! c_local c with
                 | Some km => Some km
                 | None => fetched geocode route (c_local c)
                 end).
Proof.
  cbv zeta. split.
  - intros k v Hk Hv. by rewrite warm_cache_lookup, Hv.
  - intros id ev artist_base Hin Hl Hv.
    rewrite concert_of_km. cbv zeta. rewrite Hl, (warm_cache_lookup _ _ _ _ Hv), Hl.
    destruct (cache !! _) eqn:E; [done|].
    assert (Hex : existsb (fun x => str_eqb
                     (c_local (concert_of concert_data artist_base
                        (warm_cache geocode route save_json events concert_data cache) id ev))
                     (local_of concert_data x)) events = true).
    { apply existsb_exists. exists (id, ev). split; [done|]. apply str_eqb_eq.
      destruct (concert_of_fields concert_data artist_base
                  (warm_cache geocode route save_json events concert_data cache) id ev)
        as (_ & _ & _ & Hloc & _).
      exact Hloc. }
    by rewrite Hex.
Qed.

End Warm_properties.

(** ** Adding and removing an artist *)

Lemma filter_other_names (n : str) (l : list artista_json) :
  ~ In n (map (fun a => (_norm_artista a).1) l) ->
  List.filter (fun a => negb (str_eqb (_norm_artista a).1 n)) l = l.
Proof.
  induction l as [|a l IH]; [done|]. simpl. intros H.
  rewrite str_eqb_ne by (intros E; apply H; by left).
  simpl. f_equal. apply IH. intros H'. apply H. by right.
Qed.

(** X27.  Removing an artist undoes adding them: when no agency with the
    identifier lists the name, adding the artist and then removing the
    name is accepted and leaves every agency with the listing, names and
    base fees, that it had before. *)
Theorem add_then_remove_artista (agency_id : str) (nome cachet_base : option str)
    (agencies agencies1 : list agency) :
  api_add_artista agency_id nome cachet_base agencies = Some agencies1 ->
  (forall ag, In ag agencies -> ag_id ag = agency_id ->
     ~ In (stripped nome) (_artista_names ag)) ->
  exists agencies2,
    api_remove_artista agency_id nome agencies1 = Some agencies2
    /\ agency_listings agencies2 = agency_listings agencies
    /\ map ag_id agencies2 = map ag_id agencies.
Proof.
  intros H Hnew. unfold api_add_artista in H.
  destruct (nonempty (stripped nome)); [|done]. simpl in H.
  apply update_first_Some in H as (pre & ag & post & -> & -> & Hpre & Hag).
  assert (Hn : ~ In (stripped nome) (_artista_names ag)).
  { apply Hnew; [|done]. apply in_or_app. right. by left. }
  assert (Hnames : _artista_names (with_artistas (normalized_artistas ag) ag)
                   = _artista_names ag).
  { by rewrite !names_of_listing; simpl; rewrite norm_normalized. }
  rewrite Hnames.
  assert (He : existsb (str_eqb (stripped nome)) (_artista_names ag) = false).
  { apply not_true_is_false. intros E. by apply existsb_str_eqb in E. }
  rewrite He. unfold api_remove_artista.
  rewrite (update_first_app _ _ pre _ post Hpre) by exact Hag.
  eexists. split; [done|]. unfold agency_listings. rewrite !map_app. simpl.
  split; [|done]. do 2 f_equal.
  assert (Hnorm : normalized_artistas
                    (with_artistas
                       (normalized_artistas ag
                        ++ [A_record (stripped nome) (stripped cachet_base)]) ag)
                  = normalized_artistas ag
                    ++ [A_record (stripped nome) (stripped cachet_base)]).
  { unfold normalized_artistas. simpl. rewrite map_app, map_map. simpl. by f_equal. }
  rewrite Hnorm, List.filter_app. simpl. rewrite str_eqb_refl. simpl.
  rewrite app_nil_r, filter_other_names, norm_normalized; [done|].
  change (~ In (stripped nome)
              (_artista_names (with_artistas (normalized_artistas ag) ag))).
  by rewrite Hnames.
Qed.

(** ** The properties of the routes on the sample requests *)

Lemma parse_format_round_trip_witness :
  parse_event_title (rt := ascii_runtime)
    (format_title (ustr "Ana Moura") (ustr "Festa da Vila") (ustr "Porto") (ustr "Rui"))
  = (ustr "Ana Moura", ustr "Festa da Vila", ustr "Porto", ustr "Rui").
Proof. apply (parse_format_round_trip (rt := ascii_runtime)); reflexivity. Defined.

Lemma distance_cache_only_grows_witness :
  (driving_distance_km Scenarios.geocode Scenarios.route Scenarios.disk_full
     {[ ustr "Faro" := 300%float ]} (ustr "Porto")).1 = None
  /\ (driving_distance_km Scenarios.geocode Scenarios.route Scenarios.disk_full
        {[ ustr "Faro" := 300%float ]} (ustr "Porto")).2
     = <[version_key := 2%float]>
         (<[ustr "Porto" := 200%float]> {[ ustr "Faro" := 300%float ]})
  /\ (driving_distance_km Scenarios.geocode Scenarios.route Scenarios.disk_full
        {[ ustr "Faro" := 300%float ]} (ustr "Porto")).2 !! ustr "Faro"
     = Some 300%float.
Proof.
  pose proof (distance_cache_only_grows Scenarios.geocode Scenarios.offline_geocode
                Scenarios.route Scenarios.offline_route Scenarios.disk_full
                Scenarios.save_json {[ ustr "Faro" := 300%float ]} (ustr "Porto"))
    as (Hkeep & _ & Hfetch & _).
  destruct (Hfetch 200%float) as [Hcache Hanswer];
    [reflexivity|vm_compute; reflexivity|vm_compute; reflexivity|].
  split; [exact Hanswer|]. split; [exact Hcache|].
  apply Hkeep; [vm_compute; discriminate|vm_compute; reflexivity].
Defined.

Lemma distance_is_memoised_witness :
  ustr "Porto" <> version_key
  /\ Scenarios.porto_request = (Some 200%float, Scenarios.porto_request.2)
  /\ driving_distance_km Scenarios.offline_geocode Scenarios.offline_route
       Scenarios.disk_full Scenarios.porto_request.2 (ustr "Porto")
     = (Some 200%float, Scenarios.porto_request.2).
Proof.
  assert (H1 : ustr "Porto" <> version_key) by (vm_compute; discriminate).
  assert (H2 : Scenarios.porto_request = (Some 200%float, Scenarios.porto_request.2))
    by (vm_compute; reflexivity).
  split; [exact H1|]. split; [exact H2|].
  exact (proj1 (distance_is_memoised (rt := ascii_runtime)
                  Scenarios.geocode Scenarios.offline_geocode
                  Scenarios.route Scenarios.offline_route
                  Scenarios.save_json Scenarios.disk_full
                  ∅ Scenarios.porto_request.2 (ustr "Porto") 200%float
                  ∅ ∅ (ustr "e1") (snd Samples.porto_gig) H1 H2)).
Defined.


Lemma added_concert_is_listed_witness :
  exists c,
    Permutation
      (_build_concerts_from_local (rt := ascii_runtime) Scenarios.faro_added.1.1.2
         Scenarios.faro_added.1.2 [] Scenarios.faro_added.2)
      (c :: _build_concerts_from_local (rt := ascii_runtime) [Samples.porto_gig]
              Samples.porto_fee [] Scenarios.faro_added.2)
    /\ c_artista c = ustr "Ana" /\ c_local c = ustr "Faro".
Proof.
  assert (H : api_add_concert Scenarios.geocode Scenarios.route Scenarios.save_json
                (ustr "u1")
                Scenarios.faro_body [Samples.porto_gig] Samples.porto_fee ∅
              = Some (Scenarios.faro_added.1.1.1, Scenarios.faro_added.1.1.2,
                      Scenarios.faro_added.1.2, Scenarios.faro_added.2))
    by (vm_compute; reflexivity).
  assert (H' : dict_get Scenarios.faro_added.1.1.1 [Samples.porto_gig] = None)
    by (vm_compute; reflexivity).
  destruct (added_concert_is_listed (rt := ascii_runtime) Scenarios.geocode
              Scenarios.route Scenarios.save_json (ustr "u1") Scenarios.faro_body [Samples.porto_gig]
              Scenarios.faro_added.1.1.2 Samples.porto_fee Scenarios.faro_added.1.2
              ∅ Scenarios.faro_added.2 Scenarios.faro_added.1.1.1 []
              Scenarios.faro_added.2 H H')
    as (c & Hp & _ & Ha & _ & Hl & _).
  exists c. split; [exact Hp|]. split; [exact Ha|exact Hl].
Defined.

Lemma deleted_concert_is_gone_witness :
  map c_id
    (_build_concerts_from_local (rt := ascii_runtime) Scenarios.porto_deleted.1.1
       Scenarios.porto_deleted.1.2 [] ∅)
  = map c_id
      (List.filter (fun c => negb (str_eqb (c_id c) (ustr "e1")))
         (_build_concerts_from_local (rt := ascii_runtime) Scenarios.stored
            Samples.porto_fee [] ∅)).
Proof.
  assert (H : api_delete_concert (Some (ustr " e1 ")) Scenarios.stored
                Samples.porto_fee []
              = Some (Scenarios.porto_deleted.1.1, Scenarios.porto_deleted.1.2,
                      Scenarios.porto_deleted.2))
    by (vm_compute; reflexivity).
  exact (f_equal (map c_id)
           (deleted_concert_is_gone (rt := ascii_runtime) (Some (ustr " e1 "))
              Scenarios.stored Scenarios.porto_deleted.1.1 Samples.porto_fee
              Scenarios.porto_deleted.1.2 [] Scenarios.porto_deleted.2 [] ∅ H)).
Defined.

Lemma delete_records_calendar_events_witness :
  api_delete_concert (Some (ustr " e1 ")) Scenarios.porto_deleted.1.1
    Scenarios.porto_deleted.1.2 Scenarios.porto_deleted.2
  = Some (Scenarios.porto_deleted.1.1, Scenarios.porto_deleted.1.2,
          Scenarios.porto_deleted.2).
Proof.
  assert (H : api_delete_concert (Some (ustr " e1 ")) Scenarios.stored
                Samples.porto_fee []
              = Some (Scenarios.porto_deleted.1.1, Scenarios.porto_deleted.1.2,
                      Scenarios.porto_deleted.2))
    by (vm_compute; reflexivity).
  exact (proj1 (delete_records_calendar_events (Some (ustr " e1 ")) Scenarios.stored
                  Scenarios.porto_deleted.1.1 Samples.porto_fee
                  Scenarios.porto_deleted.1.2 [] Scenarios.porto_deleted.2 H)).
Defined.

Lemma stored_ids_distinct : List.NoDup (map fst Scenarios.stored).
Proof.
  constructor; [|constructor; [|constructor]].
  - intros [H|[]]. vm_compute in H. discriminate H.
  - intros [].
Defined.

Lemma sync_is_idempotent_witness :
  sync_merge Scenarios.items (sync_merge Scenarios.items Scenarios.stored []).1 []
  = ((sync_merge Scenarios.items Scenarios.stored []).1, 0%nat).
Proof.
  exact (sync_is_idempotent Scenarios.items Scenarios.stored [] stored_ids_distinct).
Defined.

Lemma deleted_event_stays_deleted_witness :
  In Scenarios.undated_concert
    (_build_concerts_from_local (rt := ascii_runtime)
       (sync_merge Scenarios.items Scenarios.porto_deleted.1.1
          Scenarios.porto_deleted.2).1 ∅ [] ∅)
  /\ c_id Scenarios.undated_concert <> stripped (Some (ustr " e1 ")).
Proof.
  assert (H : api_delete_concert (Some (ustr " e1 ")) Scenarios.stored
                Samples.porto_fee []
              = Some (Scenarios.porto_deleted.1.1, Scenarios.porto_deleted.1.2,
                      Scenarios.porto_deleted.2))
    by (vm_compute; reflexivity).
  assert (Hin : In Scenarios.undated_concert
                  (_build_concerts_from_local (rt := ascii_runtime)
                     (sync_merge Scenarios.items Scenarios.porto_deleted.1.1
                        Scenarios.porto_deleted.2).1 ∅ [] ∅)).
  { vm_compute. right. left. reflexivity. }
  split; [exact Hin|].
  exact (deleted_event_stays_deleted (rt := ascii_runtime) (Some (ustr " e1 "))
           Scenarios.stored Scenarios.porto_deleted.1.1 Samples.porto_fee
           Scenarios.porto_deleted.1.2 [] Scenarios.porto_deleted.2 Scenarios.items
           ∅ [] ∅ Scenarios.undated_concert H eq_refl stored_ids_distinct Hin).
Defined.

Lemma migration_doubles_once_witness :
  _migrate_distances_cache Scenarios.old_cache = Some Scenarios.migrated
  /\ Scenarios.migrated !! ustr "Porto" = Some (PFloat 200.1)
  /\ Scenarios.migrated !! ustr "Faro" = Some (PInt 500)
  /\ Scenarios.migrated !! ustr "nota" = Some (PStr (ustr "x"))
  /\ _migrate_distances_cache Scenarios.migrated = Some Scenarios.migrated.
Proof.
  destruct (proj2 (proj2 (migration_doubles_once Scenarios.old_cache)))
    as (cache1 & H & _ & Hk & Hi); [reflexivity|].
  assert (E : cache1 = Scenarios.migrated).
  { unfold Scenarios.migrated. by rewrite H. }
  rewrite E in H, Hk, Hi.
  split; [exact H|].
  split; [rewrite Hk; [reflexivity|vm_compute; discriminate]|].
  split; [rewrite Hk; [reflexivity|vm_compute; discriminate]|].
  split; [rewrite Hk; [reflexivity|vm_compute; discriminate]|exact Hi].
Defined.

Lemma category_correction_is_shown_witness :
  clean (_despesa_key Samples.software_row)
  /\ snc_conta (enrich_row (rt := ascii_runtime)
                  (apply_override (Scenarios.corrected Samples.software_row)
                     Samples.software_row))
     = ustr "6229".
Proof.
  assert (H : api_despesas_set_categoria (Some (_despesa_key Samples.software_row))
                (Some (ustr " Seguros ")) ∅
              = Some (Scenarios.corrected Samples.software_row))
    by (vm_compute; reflexivity).
  assert (Hc : clean (_despesa_key Samples.software_row)) by (vm_compute; reflexivity).
  split; [exact Hc|].
  pose proof (proj1 (proj2 (proj2
                (category_correction_is_shown (rt := ascii_runtime)
                   Samples.software_row (Some (ustr " Seguros ")) ∅
                   (Scenarios.corrected Samples.software_row) H Hc)))) as E.
  cbv zeta in E.
  exact (f_equal fst (eq_sym (f_equal (default ([], [])) E))).
Defined.

Lemma correction_lost_on_unclean_key_witness :
  api_despesas_set_categoria (Some (_despesa_key Scenarios.padded_row))
    (Some (ustr " Seguros ")) ∅
  = Some (Scenarios.corrected Scenarios.padded_row)
  /\ tipo_despesa
       (e_row (enrich_row (rt := ascii_runtime)
                 (apply_override (Scenarios.corrected Scenarios.padded_row)
                    Scenarios.padded_row)))
     = ustr "Outros".
Proof.
  assert (H : api_despesas_set_categoria (Some (_despesa_key Scenarios.padded_row))
                (Some (ustr " Seguros ")) ∅
              = Some (Scenarios.corrected Scenarios.padded_row))
    by (vm_compute; reflexivity).
  assert (Hc : strip (_despesa_key Scenarios.padded_row)
               <> _despesa_key Scenarios.padded_row)
    by (vm_compute; discriminate).
  split; [exact H|].
  exact (f_equal (fun e => tipo_despesa (e_row e))
           (correction_lost_on_unclean_key (rt := ascii_runtime) Scenarios.padded_row
              (Some (ustr " Seguros ")) ∅ (Scenarios.corrected Scenarios.padded_row)
              H Hc)).
Defined.

Lemma add_artista_keeps_names_distinct_witness :
  api_add_artista (ustr "a1") (Some (ustr " Eva ")) (Some (ustr "700"))
    Scenarios.agencies
  = Some Scenarios.with_eva
  /\ api_add_artista (ustr "a1") (Some (ustr " Eva ")) (Some (ustr "999"))
       Scenarios.with_eva
     = Some Scenarios.with_eva.
Proof.
  assert (H : api_add_artista (ustr "a1") (Some (ustr " Eva ")) (Some (ustr "700"))
                Scenarios.agencies
              = Some Scenarios.with_eva)
    by (vm_compute; reflexivity).
  split; [exact H|].
  exact (proj2 (proj2 (add_artista_keeps_names_distinct (ustr "a1")
                         (Some (ustr " Eva ")) (Some (ustr "700"))
                         Scenarios.agencies Scenarios.with_eva H))
           (Some (ustr "999"))).
Defined.

Lemma fee_update_reaches_table_witness :
  exists agencies',
    api_update_artista_cachet (ustr "a1") (Some (ustr "Ana")) (Some (ustr " 900 "))
      Scenarios.agencies
    = Some agencies'
    /\ _build_artist_base_cachet (agency_listings agencies') !! ustr "Ana"
       = Some (ustr "900").
Proof.
  destruct (fee_update_reaches_table [] Scenarios.first_agency
              [Scenarios.second_agency] (Some (ustr "Ana")) (Some (ustr " 900 ")))
    as (agencies' & H1 & H2 & _).
  - constructor.
  - left. reflexivity.
  - reflexivity.
  - reflexivity.
  - intros a fee [<-|[]] [E|[]]. injection E as <-. reflexivity.
  - exists agencies'. split; [exact H1|exact H2].
Defined.

Lemma refresh_sets_fee_of_coming_concerts_witness :
  api_refresh_artista (rt := ascii_runtime) Scenarios.today Scenarios.iso_instant
    (Some (ustr "Artist")) (Some (ustr "1800")) Scenarios.coming ∅
  = Some (Scenarios.refreshed.1, 2%nat)
  /\ c_cachet (concert_of (rt := ascii_runtime) Scenarios.refreshed.1 ∅ ∅ (ustr "e3")
                 (snd Scenarios.gala_gig))
     = ustr "1800"
  /\ due (rt := ascii_runtime) Scenarios.today Scenarios.iso_instant (ustr "Artist") ∅
       Samples.porto_gig = false
  /\ due (rt := ascii_runtime) Scenarios.today Scenarios.iso_instant (ustr "Artist") ∅
       Scenarios.naive_gig = false
  /\ Scenarios.refreshed.1 !! ustr "e1" = None.
Proof.
  assert (H : api_refresh_artista (rt := ascii_runtime) Scenarios.today
                Scenarios.iso_instant (Some (ustr "Artist")) (Some (ustr "1800"))
                Scenarios.coming ∅
              = Some (Scenarios.refreshed.1, 2%nat))
    by (vm_compute; reflexivity).
  destruct (refresh_sets_fee_of_coming_concerts (rt := ascii_runtime) Scenarios.today
              Scenarios.iso_instant (Some (ustr "Artist")) (Some (ustr "1800"))
              Scenarios.coming ∅ Scenarios.refreshed.1 2%nat H)
    as (_ & Hstore & Hfee & _ & Hday & Hnaive).
  split; [exact H|]. split; [|split; [|split]].
  - apply (Hfee (ustr "e3") (snd Scenarios.gala_gig) ∅ ∅);
      [right; right; left; reflexivity|vm_compute; reflexivity|vm_compute; reflexivity].
  - apply (Hday Samples.porto_gig
             {| dt_year := 2024; dt_month := 1; dt_day := 15; dt_hour := 0;
                dt_minute := 0 |}); vm_compute; reflexivity.
  - apply (Hnaive Scenarios.naive_gig); vm_compute; reflexivity.
  - rewrite Hstore. vm_compute. reflexivity.
Defined.

Lemma add_then_remove_artista_witness :
  exists agencies2,
    api_remove_artista (ustr "a1") (Some (ustr " Eva ")) Scenarios.with_eva
    = Some agencies2
    /\ agency_listings agencies2 = agency_listings Scenarios.agencies.
Proof.
  assert (H : api_add_artista (ustr "a1") (Some (ustr " Eva ")) (Some (ustr "700"))
                Scenarios.agencies
              = Some Scenarios.with_eva)
    by (vm_compute; reflexivity).
  destruct (add_then_remove_artista (ustr "a1") (Some (ustr " Eva "))
              (Some (ustr "700")) Scenarios.agencies Scenarios.with_eva H)
    as (agencies2 & H1 & H2 & _).
  - intros ag [<-|[<-|[]]] Hid; [|vm_compute in Hid; discriminate Hid].
    vm_compute. intros [E|[E|[]]]; discriminate E.
  - exists agencies2. split; [exact H1|exact H2].
Defined.
